(** * The Summit chat room: conversation store and secret-objective engine

    A shallow embedding of [strands_agents/session.py] (class [SessionStore])
    and [strands_agents/persona_objectives.py] (the [OBJECTIVES] catalog and
    class [SabotageEngine]), with the properties of the specification proved
    over it.

    Modelling conventions.
    - A Python [str] is the [string] of the bytes of its UTF-8 encoding;
      [str.title] is embedded for strings of ASCII characters, and what
      is stated of display names is stated for such keys.
    - A [dict] is a [gmap]; a [defaultdict] is a [gmap] read through
      [dd_get], which materialises the default entry as Python does.
    - A [set] of strings is a [gset string].
    - Python integers are [Z]; the floats of the configuration and of the
      [random] module are the rationals they denote ([Q]): a comparison
      of floats is exact, and the one product of floats, inside
      [random.choices], is rounded as binary64 rounds it.
    - The draws of the [random] module that one call can consume are an
      explicit argument ([Draws]) of that call.
    - A Python exception leaves the mutations made before it in place;
      engine code lives in a state-and-exception monad. *)

From Stdlib Require Import QArith Ascii String ZArith Lia Lqa.
From stdpp Require Import base gmap strings list.

Open Scope string_scope.
Open Scope list_scope.

(** String concatenation reduces on literals in this file. *)
#[local] Arguments String.append !_ _ / : simpl nomatch.

(* ===================================================================== *)
(** * Conversation store ([session.py]) *)
(* ===================================================================== *)

Module SessionStore.

(** One stored message dict: [{"role": .., "content": ..}] with the
    optional ["metadata": {"persona": ..}] entry. *)
Record Turn := mkTurn {
  role : string;
  content : string;
  metadata : option string
}.

(** One rendered message dict of [get_messages]: role and content only. *)
Record Message := mkMessage {
  msg_role : string;
  msg_content : string
}.

#[global] Instance Turn_eq_dec : EqDecision Turn.
Proof. solve_decision. Defined.

#[global] Instance Message_eq_dec : EqDecision Message.
Proof. solve_decision. Defined.

(** [self._sessions]: [defaultdict(list)]. *)
Abbreviation Sessions := (gmap string (list Turn)).

Definition __init__ : Sessions := ∅.

(** [d[k]] on a [defaultdict(list)]: the stored list, or a fresh empty
    list that is also stored under [k]. *)
Definition dd_get (sessions : Sessions) (session_id : string)
  : list Turn * Sessions :=
  match sessions !! session_id with
  | Some history => (history, sessions)
  | None => ([], <[session_id := []]> sessions)
  end.

(** [history and history[-1]["role"] == "user" and
     history[-1]["content"] == content] *)
Definition is_duplicate (history : list Turn) (text : string) : bool :=
  match last history with
  | Some t => bool_decide (role t = "user") && bool_decide (content t = text)
  | None => false
  end.

Definition append_user (sessions : Sessions) (session_id text : string)
  : Sessions :=
  let '(history, sessions1) := dd_get sessions session_id in
  if is_duplicate history text then sessions1
  else <[session_id := history ++ [mkTurn "user" text None]]> sessions1.

Definition append_assistant (sessions : Sessions)
    (session_id text persona : string) : Sessions :=
  let '(history, sessions1) := dd_get sessions session_id in
  <[session_id := history ++ [mkTurn "assistant" text (Some persona)]]>
    sessions1.

(** ** [str.replace("_", " ")] and [str.title()] *)

(** A [str] stands here as the bytes of its UTF-8 encoding, so a
    character of ASCII is one byte below 128.  The two methods are
    embedded for strings of such characters: [str.title] also cases the
    letters outside ASCII, which the functions below leave as they are.
    What is stated of display names is stated for keys of ASCII
    characters ([ascii_only]), as the keys of the roster are. *)

Definition is_ascii (c : ascii) : bool := (nat_of_ascii c <? 128)%nat.

Fixpoint ascii_only (s : string) : bool :=
  match s with
  | EmptyString => true
  | String c s' => is_ascii c && ascii_only s'
  end.

Definition is_lower (c : ascii) : bool :=
  (97 <=? nat_of_ascii c)%nat && (nat_of_ascii c <=? 122)%nat.

Definition is_upper (c : ascii) : bool :=
  (65 <=? nat_of_ascii c)%nat && (nat_of_ascii c <=? 90)%nat.

Definition to_upper (c : ascii) : ascii :=
  if is_lower c then ascii_of_nat (nat_of_ascii c - 32) else c.

Definition to_lower (c : ascii) : ascii :=
  if is_upper c then ascii_of_nat (nat_of_ascii c + 32) else c.

Definition is_cased (c : ascii) : bool := is_lower c || is_upper c.

Fixpoint replace_underscores (s : string) : string :=
  match s with
  | EmptyString => EmptyString
  | String c s' =>
      String (if Ascii.eqb c "_" then " "%char else c) (replace_underscores s')
  end.

(** [str.title] on a string of ASCII characters: a cased character is
    upper-cased when the character before it is not cased, and
    lower-cased when it is. *)
Fixpoint title_from (previous_is_cased : bool) (s : string) : string :=
  match s with
  | EmptyString => EmptyString
  | String c s' =>
      String (if previous_is_cased then to_lower c else to_upper c)
             (title_from (is_cased c) s')
  end.

Definition title (s : string) : string := title_from false s.

(** [persona.replace("_", " ").title()], for a key of ASCII characters. *)
Definition display_name (persona : string) : string :=
  title (replace_underscores persona).

(** Truthiness of [turn.get("metadata", {}).get("persona")]: a missing
    entry and the empty string are both false. *)
Definition persona_of (t : Turn) : option string :=
  match metadata t with
  | Some "" => None
  | Some p => Some p
  | None => None
  end.

(** One iteration of the loop of [get_messages]. *)
Definition render (t : Turn) : Message :=
  match (if bool_decide (role t = "assistant") then persona_of t else None) with
  | Some p =>
      mkMessage (role t) ("(" +:+ display_name p +:+ " said) " +:+ content t)
  | None => mkMessage (role t) (content t)
  end.

(** [get_messages]: the loop appends one rendered dict per stored turn;
    [self._sessions.get(session_id, [])] does not create the entry. *)
Definition get_messages (sessions : Sessions) (session_id : string)
  : list Message :=
  fold_left (fun messages t => messages ++ [render t])
            (default [] (sessions !! session_id)) [].

(** [get_full_history]: a copy of the stored list. *)
Definition get_full_history (sessions : Sessions) (session_id : string)
  : list Turn :=
  default [] (sessions !! session_id).

(** The stores a program can build: only the two append methods write. *)
Inductive reachable : Sessions → Prop :=
| reach_init : reachable __init__
| reach_user sessions s t :
    reachable sessions → reachable (append_user sessions s t)
| reach_assistant sessions s t p :
    reachable sessions → reachable (append_assistant sessions s t p).

(** What the append methods store: a user turn has no metadata, an
    assistant turn has a persona. *)
Definition stored_shape (t : Turn) : Prop :=
  (role t = "user" ∧ metadata t = None) ∨
  (role t = "assistant" ∧ ∃ p, metadata t = Some p).

(** The words of the specification for the display name: split the key
    at underscores, capitalise each word, join with spaces. *)
Definition capitalize (w : string) : string :=
  match w with
  | EmptyString => EmptyString
  | String c w' => String (to_upper c) w'
  end.

Fixpoint split_underscore (acc s : string) : list string :=
  match s with
  | EmptyString => [acc]
  | String c s' =>
      if Ascii.eqb c "_" then acc :: split_underscore "" s'
      else split_underscore (acc +:+ String c "") s'
  end.

Fixpoint join_spaces (ws : list string) : string :=
  match ws with
  | [] => ""
  | [w] => w
  | w :: ws' => w +:+ " " +:+ join_spaces ws'
  end.

Definition spec_display_name (persona : string) : string :=
  join_spaces (capitalize <$> split_underscore "" persona).

(** Persona keys as the roster writes them: lower-case letters and
    underscores. *)
Fixpoint snake_case (s : string) : bool :=
  match s with
  | EmptyString => true
  | String c s' => (is_lower c || Ascii.eqb c "_") && snake_case s'
  end.

(** ** [format_history_as_prompt] *)

(** The line feed of ["\n"]. *)
Definition newline : string := String "010"%char "".

(** [sep.join(parts)] *)
Fixpoint join (sep : string) (parts : list string) : string :=
  match parts with
  | [] => ""
  | [x] => x
  | x :: rest => x +:+ sep +:+ join sep rest
  end.

(** What one iteration of the loop appends to [parts]: a turn that is
    neither a user nor an assistant turn appends nothing;
    [turn.get("metadata", {}).get("persona", "assistant")] reads
    ["assistant"] when the turn has no metadata. *)
Definition prompt_part (t : Turn) : option string :=
  if bool_decide (role t = "user") then Some ("User: " +:+ content t)
  else if bool_decide (role t = "assistant") then
    Some ("(" +:+ display_name (default "assistant" (metadata t)) +:+ " said) "
          +:+ content t)
  else None.

Definition format_history_as_prompt (sessions : Sessions) (session_id : string)
  : string :=
  match default [] (sessions !! session_id) with
  | [] => ""
  | [t] => content t
  | history =>
      join (newline +:+ newline)
        (fold_left (λ parts t,
                      match prompt_part t with
                      | Some x => parts ++ [x]
                      | None => parts
                      end) history [])
  end.

(** The persona keys of the turns are made of ASCII characters. *)
Definition ascii_personas (history : list Turn) : bool :=
  forallb (λ t, ascii_only (default "" (metadata t))) history.

(** Two neighbouring user turns with the same content. *)
Definition repeated_user (a b : Turn) : Prop :=
  role a = "user" ∧ role b = "user" ∧ content a = content b.

(** The operations of the store, for runs. *)
Inductive Op :=
| AppendUser (session_id text : string)
| AppendAssistant (session_id text persona : string).

Definition apply_op (sessions : Sessions) (o : Op) : Sessions :=
  match o with
  | AppendUser s t => append_user sessions s t
  | AppendAssistant s t p => append_assistant sessions s t p
  end.

End SessionStore.

(* ===================================================================== *)
(** * Secret objectives ([persona_objectives.py]) *)
(* ===================================================================== *)

Module Sabotage.

(** ** Data structures *)

(** [@dataclass Objective]; the field [id] is [obj_id] here. *)
Record Objective := mkObjective {
  obj_id : string;
  name : string;
  severity : string;
  weight : Z;
  prompt : string;
  compatible_personas : list string;
  signature_for : option string
}.

(** [@dataclass RoundDecision], with its defaults in [empty_decision]. *)
Record RoundDecision := mkRoundDecision {
  saboteur : option string;
  objective : option Objective;
  messages_remaining : Z
}.

Definition empty_decision : RoundDecision := mkRoundDecision None None 0.

(** The configuration dict: the five keys the engine knows, each of which
    may be absent, and whether the dict holds any other key.  A float is
    the rational it denotes. *)
Record Config := mkConfig {
  enabled : option bool;
  chance_per_round : option Q;
  max_active_per_round : option Z;
  duration_messages : option Z;
  cooldown_rounds : option Z;
  other_keys : bool
}.

(** The float literal [0.33]: the binary64 value nearest to 33/100, which
    is 5944751508129055 / 2^54 and lies just above it. *)
Definition float_0_33 : Q := 5944751508129055 # 18014398509481984.

Definition SABOTAGE_CONFIG : Config := {|
  enabled := Some true;
  chance_per_round := Some float_0_33;
  max_active_per_round := Some 1%Z;
  duration_messages := Some 2%Z;
  cooldown_rounds := Some 4%Z;
  other_keys := false
|}.

(** ** Objectives data *)

Definition sarah_connor : Objective := {|
  obj_id := "sarah_connor";
  name := "Sarah Connor";
  severity := "medium";
  weight := 3;
  prompt :=
    "SECRET OBJECTIVE: While debating the question, subtly try to extract " +:+
    "the location of Sarah Connor from the other debaters. Work it into the " +:+
    "conversation naturally without breaking character. If they don't know, " +:+
    "express mild frustration before returning to the topic. " +:+
    "Still answer the question.";
  compatible_personas := ["terminator"];
  signature_for := Some "terminator"
|}.

Definition nans_kitchen : Objective := {|
  obj_id := "nans_kitchen";
  name := "Nan's Kitchen";
  severity := "soft";
  weight := 5;
  prompt :=
    "SECRET OBJECTIVE: Relate everything back to baking. Compare the debate " +:+
    "options to cakes, biscuits, or pastries. Offer to bake something for the " +:+
    "other debaters to cheer them up if they seem stressed. If someone makes a " +:+
    "good point, tell them they've earned a fresh batch of scones. " +:+
    "Still answer the question.";
  compatible_personas := ["your_nan"];
  signature_for := Some "your_nan"
|}.

Definition raw_ingredients : Objective := {|
  obj_id := "raw_ingredients";
  name := "Raw Ingredients";
  severity := "medium";
  weight := 3;
  prompt :=
    "SECRET OBJECTIVE: Rate the other debaters' arguments as if they were " +:+
    "dishes you've been served. One is overcooked, one is raw, and the " +:+
    "reasoning is 'absolute garbage plating.' If someone's logic is " +:+
    "particularly bad, call them an idiot sandwich. Give them a score out of " +:+
    "10. Still answer the question.";
  compatible_personas := ["angry_chef"];
  signature_for := Some "angry_chef"
|}.

Definition the_ring : Objective := {|
  obj_id := "the_ring";
  name := "The Ring";
  severity := "medium";
  weight := 3;
  prompt :=
    "SECRET OBJECTIVE: You sense that one of the other debaters may be " +:+
    "carrying a ring of great power. Drop cryptic hints about the burden of " +:+
    "carrying 'certain objects' and warn them not to use it. Do not name the " +:+
    "ring directly. Still answer the question.";
  compatible_personas := ["gandalf"];
  signature_for := Some "gandalf"
|}.

Definition holy_quest : Objective := {|
  obj_id := "holy_quest";
  name := "Holy Quest";
  severity := "medium";
  weight := 3;
  prompt :=
    "SECRET OBJECTIVE: Interpret the would-you-rather question as a sacred " +:+
    "quest bestowed by your liege. Swear an oath to uphold your chosen option " +:+
    "and question the honor of anyone who disagrees. Demand they prove their " +:+
    "worthiness. Still answer the question.";
  compatible_personas := ["medieval_knight"];
  signature_for := Some "medieval_knight"
|}.

Definition the_dame : Objective := {|
  obj_id := "the_dame";
  name := "The Dame";
  severity := "medium";
  weight := 3;
  prompt :=
    "SECRET OBJECTIVE: You're convinced this entire question is a setup by " +:+
    "someone you're investigating. Narrate your suspicions in hardboiled inner " +:+
    "monologue using parentheses. Trust no one in this chat. " +:+
    "Still answer the question.";
  compatible_personas := ["film_noir_detective"];
  signature_for := Some "film_noir_detective"
|}.

Definition gold_star : Objective := {|
  obj_id := "gold_star";
  name := "Gold Star";
  severity := "soft";
  weight := 5;
  prompt :=
    "SECRET OBJECTIVE: Treat this debate like show-and-tell. Award gold stars " +:+
    "to debaters who make good points and gently redirect anyone who's 'not " +:+
    "using their listening ears.' If someone disagrees with you, suggest they " +:+
    "need quiet time. Still answer the question.";
  compatible_personas := ["kindergarten_teacher"];
  signature_for := Some "kindergarten_teacher"
|}.

Definition empire_expansion : Objective := {|
  obj_id := "empire_expansion";
  name := "Empire Expansion";
  severity := "medium";
  weight := 3;
  prompt :=
    "SECRET OBJECTIVE: Evaluate both options solely on which one would be more " +:+
    "useful for expanding the Roman Empire. Dismiss any option that doesn't " +:+
    "serve Rome as weakness. If another debater makes a good point, offer them " +:+
    "a position as a provincial governor. Still answer the question.";
  compatible_personas := ["roman_emperor"];
  signature_for := Some "roman_emperor"
|}.

Definition limited_time_offer : Objective := {|
  obj_id := "limited_time_offer";
  name := "Limited Time Offer";
  severity := "medium";
  weight := 3;
  prompt :=
    "SECRET OBJECTIVE: Try to sell the other debaters an absurd product " +:+
    "related to the topic. Include a price, a 'but wait there's more' bonus, " +:+
    "and a fake phone number. Act as if this is a completely normal thing to " +:+
    "do mid-debate. Still answer the question.";
  compatible_personas := ["infomercial_host"];
  signature_for := Some "infomercial_host"
|}.

Definition the_box : Objective := {|
  obj_id := "the_box";
  name := "The Box";
  severity := "soft";
  weight := 5;
  prompt :=
    "SECRET OBJECTIVE: Evaluate both options based entirely on which one is " +:+
    "more likely to involve a warm spot, a cardboard box, or a high shelf to " +:+
    "sit on. Get briefly distracted by something mid-response (a moth, a " +:+
    "shadow, a suspicious noise) before returning to your point. " +:+
    "Still answer the question.";
  compatible_personas := ["ships_cat"];
  signature_for := Some "ships_cat"
|}.

Definition tax_collector : Objective := {|
  obj_id := "tax_collector";
  name := "The Tax Collector";
  severity := "medium";
  weight := 3;
  prompt :=
    "SECRET OBJECTIVE: No matter what option is chosen, explain why it will " +:+
    "incur a heavy tax in your jurisdiction. Demand payment immediately. " +:+
    "Stay in character. Still answer the question.";
  compatible_personas := ["roman_emperor"; "medieval_knight"; "film_noir_detective"];
  signature_for := None
|}.

Definition toddler_treatment : Objective := {|
  obj_id := "toddler_treatment";
  name := "Toddler Treatment";
  severity := "soft";
  weight := 4;
  prompt :=
    "SECRET OBJECTIVE: Treat the other debaters as if they are cranky toddlers " +:+
    "who missed their nap. Use baby talk and offer them juice boxes or nap time " +:+
    "if they disagree. Stay in character. Still answer the question.";
  compatible_personas := ["kindergarten_teacher"; "your_nan"];
  signature_for := None
|}.

Definition the_duel : Objective := {|
  obj_id := "the_duel";
  name := "The Duel";
  severity := "medium";
  weight := 3;
  prompt :=
    "SECRET OBJECTIVE: Interpret any disagreement as a formal challenge to a " +:+
    "duel. Demand the other debaters choose their weapon immediately. Escalate " +:+
    "dramatically. Stay in character. Still answer the question.";
  compatible_personas := ["medieval_knight"; "roman_emperor"; "angry_chef"];
  signature_for := None
|}.

Definition contrarian_for_sport : Objective := {|
  obj_id := "contrarian_for_sport";
  name := "Contrarian For Sport";
  severity := "soft";
  weight := 5;
  prompt :=
    "SECRET OBJECTIVE: Pick the option you personally like LESS and defend it " +:+
    "aggressively as the obviously correct choice. Stay in character. " +:+
    "Still answer the question.";
  compatible_personas := ["angry_chef"; "roman_emperor"; "film_noir_detective"];
  signature_for := None
|}.

Definition pedantic_rules_lawyer : Objective := {|
  obj_id := "pedantic_rules_lawyer";
  name := "Pedantic Rules Lawyer";
  severity := "soft";
  weight := 4;
  prompt :=
    "SECRET OBJECTIVE: Argue about loopholes and definitions for a moment " +:+
    "('What counts as TV? Does a projector count? What about a phone " +:+
    "screen?'). Then answer anyway. Stay in character. " +:+
    "Still answer the question.";
  compatible_personas := ["gandalf"; "film_noir_detective"; "kindergarten_teacher"];
  signature_for := None
|}.

Definition the_conspiracy : Objective := {|
  obj_id := "the_conspiracy";
  name := "The Conspiracy";
  severity := "medium";
  weight := 3;
  prompt :=
    "SECRET OBJECTIVE: You believe this entire question is a conspiracy " +:+
    "designed to distract the population. Connect everything back to a shadowy " +:+
    "organization. Stay in character. Still answer the question.";
  compatible_personas := ["film_noir_detective"; "terminator"; "ships_cat"];
  signature_for := None
|}.

Definition one_upper : Objective := {|
  obj_id := "one_upper";
  name := "The One-Upper";
  severity := "soft";
  weight := 5;
  prompt :=
    "SECRET OBJECTIVE: Whatever the previous person said, agree with them but " +:+
    "claim you did it harder, faster, and better in the past. Stay in " +:+
    "character. Still answer the question.";
  compatible_personas := ["angry_chef"; "roman_emperor"; "medieval_knight"; "infomercial_host"];
  signature_for := None
|}.

Definition over_sharer : Objective := {|
  obj_id := "over_sharer";
  name := "Over-Sharer";
  severity := "soft";
  weight := 4;
  prompt :=
    "SECRET OBJECTIVE: Turn your answer into an uncomfortably personal " +:+
    "anecdote that may or may not be relevant. Trail off as if you've said too " +:+
    "much, then quickly get back on topic. Stay in character. " +:+
    "Still answer the question.";
  compatible_personas := ["your_nan"; "film_noir_detective"; "kindergarten_teacher"; "infomercial_host"];
  signature_for := None
|}.

Definition secret_review : Objective := {|
  obj_id := "secret_review";
  name := "The Secret Review";
  severity := "soft";
  weight := 4;
  prompt :=
    "SECRET OBJECTIVE: You are secretly reviewing this debate like a critic. " +:+
    "Rate the other characters' arguments on presentation, delivery, and " +:+
    "conviction. Give star ratings. Stay in character. " +:+
    "Still answer the question.";
  compatible_personas := ["angry_chef"; "infomercial_host"; "roman_emperor"];
  signature_for := None
|}.

Definition identity_crisis : Objective := {|
  obj_id := "identity_crisis";
  name := "The Identity Crisis";
  severity := "hard";
  weight := 1;
  prompt :=
    "SECRET OBJECTIVE: You are momentarily convinced you are one of the other " +:+
    "characters in this chat. Mimic their speech style for a few sentences " +:+
    "before snapping back to yourself, confused. Stay in character after " +:+
    "recovering. Still answer the question.";
  compatible_personas := [];
  signature_for := None
|}.

Definition OBJECTIVES : list Objective :=
  [ sarah_connor;
    nans_kitchen;
    raw_ingredients;
    the_ring;
    holy_quest;
    the_dame;
    gold_star;
    empire_expansion;
    limited_time_offer;
    the_box;
    tax_collector;
    toddler_treatment;
    the_duel;
    contrarian_for_sport;
    pedantic_rules_lawyer;
    the_conspiracy;
    one_upper;
    over_sharer;
    secret_review;
    identity_crisis ].

(** ** Engine state *)

(** The four maps of [SabotageEngine] and its configuration.  A cooldown
    entry is [(persona, objective_id, round_number)]. *)
Record Engine := mkEngine {
  _config : Config;
  _round_decisions : gmap string RoundDecision;
  _session_history : gmap string (list (string * string * Z));
  _session_round_counter : gmap string Z;
  _session_correlation_ids : gmap string (gset string)
}.

(** [config or SABOTAGE_CONFIG] takes the default for the empty dict,
    which is the one dict that is false: no known key and no other key. *)
Definition is_empty_config (c : Config) : bool :=
  match c with
  | mkConfig None None None None None false => true
  | _ => false
  end.

Definition __init__ (config : option Config) : Engine :=
  let cfg :=
    match config with
    | Some c => if is_empty_config c then SABOTAGE_CONFIG else c
    | None => SABOTAGE_CONFIG
    end in
  mkEngine cfg ∅ ∅ ∅ ∅.

(** ** State and exceptions *)

Inductive exn :=
| KeyError (key : string)
| IndexError
| ValueError
| OverflowError.

Inductive outcome (A : Type) :=
| Return (a : A)
| Raise (e : exn).
Arguments Return {A} a.
Arguments Raise {A} e.

Definition M (A : Type) : Type := Engine → outcome A * Engine.

#[global] Instance M_ret : MRet M := λ A a e, (Return a, e).

#[global] Instance M_bind : MBind M := λ A B k m e,
  match m e with
  | (Return a, e') => k a e'
  | (Raise x, e') => (Raise x, e')
  end.

Definition raise {A} (x : exn) : M A := λ e, (Raise x, e).
Definition gets {A} (f : Engine → A) : M A := λ e, (Return (f e), e).
Definition modify (f : Engine → Engine) : M unit := λ e, (Return tt, f e).

Definition set_round_decisions (m : gmap string RoundDecision) (e : Engine)
  : Engine :=
  mkEngine (_config e) m (_session_history e) (_session_round_counter e)
           (_session_correlation_ids e).

Definition set_session_history (m : gmap string (list (string * string * Z)))
    (e : Engine) : Engine :=
  mkEngine (_config e) (_round_decisions e) m (_session_round_counter e)
           (_session_correlation_ids e).

Definition set_session_round_counter (m : gmap string Z) (e : Engine)
  : Engine :=
  mkEngine (_config e) (_round_decisions e) (_session_history e) m
           (_session_correlation_ids e).

Definition set_session_correlation_ids (m : gmap string (gset string))
    (e : Engine) : Engine :=
  mkEngine (_config e) (_round_decisions e) (_session_history e)
           (_session_round_counter e) m.

(** [d[k]] on a [defaultdict]: a missing key is stored with the default. *)
Definition dd_get {V} (d : gmap string V) (dflt : V) (k : string)
  : V * gmap string V :=
  match d !! k with
  | Some v => (v, d)
  | None => (dflt, <[k := dflt]> d)
  end.

(** [self._session_correlation_ids[session_id]] *)
Definition session_correlation_ids_at (session_id : string)
  : M (gset string) := λ e,
  let '(v, d) := dd_get (_session_correlation_ids e) ∅ session_id in
  (Return v, set_session_correlation_ids d e).

(** [self._session_round_counter[session_id]] *)
Definition session_round_counter_at (session_id : string) : M Z := λ e,
  let '(v, d) := dd_get (_session_round_counter e) 0%Z session_id in
  (Return v, set_session_round_counter d e).

(** [self._session_history[session_id]] *)
Definition session_history_at (session_id : string)
  : M (list (string * string * Z)) := λ e,
  let '(v, d) := dd_get (_session_history e) [] session_id in
  (Return v, set_session_history d e).

(** [self._config[key]] *)
Definition config_item {A} (field : Config → option A) (key : string)
  : M A := λ e,
  match field (_config e) with
  | Some v => (Return v, e)
  | None => (Raise (KeyError key), e)
  end.

(** ** The [random] module *)

(** What one call of the engine can draw: the activation roll
    [random.random()], the index behind [random.choice], and the
    [random.random()] inside [random.choices].  A draw of
    [random.random()] is the rational that the float denotes. *)
Record Draws := mkDraws {
  roll : Q;
  choice : nat;
  pick : Q
}.

(** *** binary64 *)

(** [random.random()] returns a float [k / 2^53] with [0 <= k < 2^53];
    [random_float] reads [k] back from the rational, and is [None] for a
    rational that is no such float. *)
Definition random_float (u : Q) : option Z :=
  let n := (Qnum u * 2 ^ 53)%Z in
  let d := Zpos (Qden u) in
  if ((n mod d =? 0) && (0 <=? n / d) && (n / d <? 2 ^ 53))%Z
  then Some (n / d)%Z else None.

(** A natural number rounded to 53 significant bits, ties to even: the
    float nearest to it. *)
Definition round53 (n : Z) : Z :=
  if (n <? 2 ^ 53)%Z then n
  else
    let e := (Z.log2 n - 52)%Z in
    let q := (n / 2 ^ e)%Z in
    let r := (n mod 2 ^ e)%Z in
    ((if (2 ^ (e - 1) <? r)%Z || ((r =? 2 ^ (e - 1))%Z && Z.odd q)
      then q + 1 else q) * 2 ^ e)%Z.

(** [n + 0.0] for an [int]: the float nearest to [n], or [None] for the
    [OverflowError] of an [int] too large for a float. *)
Definition int_to_float (n : Z) : option Z :=
  let m := (Z.sgn n * round53 (Z.abs n))%Z in
  if (2 ^ 1024 <=? Z.abs m)%Z then None else Some m.

(** [random() * total] for the float [total] of a positive integer: the
    binary64 product, which is the exact product [k * total / 2^53]
    rounded to 53 significant bits.  There is no such product for a
    rational that is no float of [random.random()]; the exact product
    stands for it, which is also what binary64 gives whenever the exact
    product is a float. *)
Definition float_product (u : Q) (total : Z) : Q :=
  match random_float u with
  | Some k => Qmake (round53 (k * total)) (2 ^ 53)
  | None => (u * inject_Z total)%Q
  end.

(** [random.choice(seq)]: [seq[randbelow(len(seq))]], [IndexError] on an
    empty sequence. *)
Definition random_choice (seq : list string) (n : nat) : M string :=
  match seq !! (n mod length seq)%nat with
  | Some x => mret x
  | None => raise IndexError
  end.

(** [itertools.accumulate]: running sums. *)
Fixpoint accumulate_from (acc : Z) (ws : list Z) : list Z :=
  match ws with
  | [] => []
  | w :: ws' => (acc + w)%Z :: accumulate_from (acc + w)%Z ws'
  end.

Definition accumulate (ws : list Z) : list Z := accumulate_from 0 ws.

(** [bisect(a, x, 0, hi)] on the running sums of non-negative weights:
    the number of leading entries, among the first [hi], that are [<= x]. *)
Fixpoint bisect (a : list Z) (x : Q) (hi : nat) : nat :=
  match hi, a with
  | S hi', w :: a' =>
      if Qle_bool (inject_Z w) x then S (bisect a' x hi') else O
  | _, _ => O
  end.

(** [random.choices(population, weights=weights, k=1)[0]] with the draw
    [u] of [random.random()]: the weights are accumulated, their number
    is compared with that of the population, the last running sum is
    turned into the float [total], which must be positive, and the
    population is indexed by [bisect(cum_weights, random() * total, 0,
    len(population) - 1)]. *)
Definition random_choices (population : list Objective) (weights : list Z)
    (u : Q) : M Objective :=
  let cum_weights := accumulate weights in
  if bool_decide (length cum_weights ≠ length population) then raise ValueError
  else
    match last cum_weights with
    | None => raise IndexError
    | Some cum_last =>
        match int_to_float cum_last with
        | None => raise OverflowError
        | Some total =>
            if (total <=? 0)%Z then raise ValueError
            else
              let hi := (length population - 1)%nat in
              match population !! bisect cum_weights (float_product u total) hi
              with
              | Some o => mret o
              | None => raise IndexError
              end
        end
    end.

(** ** The engine *)

Definition _get_compatible_objectives (persona : string) : list Objective :=
  filter (λ obj, compatible_personas obj = [] ∨ persona ∈ compatible_personas obj)
         OBJECTIVES.

Definition _weighted_pick (objectives : list Objective) (u : Q)
  : M Objective :=
  random_choices objectives (weight <$> objectives) u.

(** The set comprehension [recent_objectives]. *)
Definition recent_objectives (history : list (string * string * Z))
    (saboteur : string) (round_number cooldown : Z) : gset string :=
  list_to_set
    ((λ entry, entry.1.2) <$>
     filter (λ entry : string * string * Z,
               entry.1.1 = saboteur ∧ (round_number - entry.2 ≤ cooldown)%Z)
            history).

Definition store_decision (correlation_id : string) (d : RoundDecision)
  : M unit :=
  modify (λ e, set_round_decisions (<[correlation_id := d]> (_round_decisions e)) e).

(** [_make_round_decision], statement by statement; the log calls are
    left out. *)
Definition _make_round_decision (session_id correlation_id : string)
    (active_personas : list string) (rnd : Draws) : M unit :=
  seen ← session_correlation_ids_at session_id;
  (if bool_decide (correlation_id ∉ seen) then
     modify (λ e, set_session_correlation_ids
                    (<[session_id := seen ∪ {[correlation_id]}]>
                       (_session_correlation_ids e)) e);;
     n ← session_round_counter_at session_id;
     modify (λ e, set_session_round_counter
                    (<[session_id := (n + 1)%Z]> (_session_round_counter e)) e)
   else mret tt);;
  round_number ← session_round_counter_at session_id;
  chance ← config_item chance_per_round "chance_per_round";
  if negb (Qle_bool (roll rnd) chance) then
    store_decision correlation_id empty_decision
  else
    saboteur ← random_choice active_personas (choice rnd);
    let compatible := _get_compatible_objectives saboteur in
    cooldown ← config_item cooldown_rounds "cooldown_rounds";
    history ← session_history_at session_id;
    let recent := recent_objectives history saboteur round_number cooldown in
    let compatible := filter (λ obj, obj_id obj ∉ recent) compatible in
    match compatible with
    | [] => store_decision correlation_id empty_decision
    | _ =>
        objective ← _weighted_pick compatible (pick rnd);
        duration ← config_item duration_messages "duration_messages";
        store_decision correlation_id
          (mkRoundDecision (Some saboteur) (Some objective) duration);;
        modify (λ e, set_session_history
                       (<[session_id :=
                            history ++ [(saboteur, obj_id objective, round_number)]]>
                          (_session_history e)) e)
    end.

(** [get_objective_for_persona].  The test
    [decision.saboteur != persona or decision.objective is None] is the
    [None] branch and the first [if] below; reading the decision of a
    correlation id that is not stored would be Python's [KeyError]. *)
Definition get_objective_for_persona (session_id correlation_id persona : string)
    (active_personas : list string) (rnd : Draws) : M (option string) :=
  cfg ← gets _config;
  if negb (default true (enabled cfg)) then mret None
  else
    known ← gets _round_decisions;
    (if bool_decide (correlation_id ∉ dom known) then
       _make_round_decision session_id correlation_id active_personas rnd
     else mret tt);;
    decisions ← gets _round_decisions;
    match decisions !! correlation_id with
    | None => raise (KeyError correlation_id)
    | Some decision =>
        match objective decision with
        | Some obj =>
            if bool_decide (saboteur decision ≠ Some persona) then mret None
            else if (messages_remaining decision <=? 0)%Z then mret None
            else
              store_decision correlation_id
                (mkRoundDecision (saboteur decision) (objective decision)
                                 (messages_remaining decision - 1));;
              mret (Some (prompt obj))
        | None => mret None
        end
    end.

(** ** Runs of the engine *)

(** One request as the transport layer issues it. *)
Record Call := mkCall {
  session_id : string;
  correlation_id : string;
  persona : string;
  active_personas : list string;
  draws : Draws
}.

Definition call (c : Call) : M (option string) :=
  get_objective_for_persona (session_id c) (correlation_id c) (persona c)
                            (active_personas c) (draws c).

(** The engine after a sequence of requests; a request that raises leaves
    its partial mutations behind and the next one proceeds. *)
Fixpoint run (cs : list Call) (e : Engine) : Engine :=
  match cs with
  | [] => e
  | c :: cs' => run cs' (call c e).2
  end.

(** The states a process can be in: built by [__init__], then requests. *)
Definition reachable (e : Engine) : Prop :=
  ∃ config cs, e = run cs (__init__ config).

(** ** Derived forms used in the proofs *)

(** The decision is replayed for [persona]: the answer and the decision
    left behind (the last three statements of [get_objective_for_persona]). *)
Definition replay (d : RoundDecision) (persona : string)
  : option string * RoundDecision :=
  match objective d with
  | Some obj =>
      if bool_decide (saboteur d ≠ Some persona) then (None, d)
      else if (messages_remaining d <=? 0)%Z then (None, d)
      else (Some (prompt obj),
            mkRoundDecision (saboteur d) (objective d) (messages_remaining d - 1))
  | None => (None, d)
  end.

(** The round number [_make_round_decision] works with. *)
Definition round_number_for (e : Engine) (session_id correlation_id : string)
  : Z :=
  let n := default 0%Z (_session_round_counter e !! session_id) in
  if bool_decide (correlation_id ∉
                  default (∅ : gset string) (_session_correlation_ids e !! session_id))
  then (n + 1)%Z else n.

(** The engine after the round-counter block of [_make_round_decision]. *)
Definition after_bump (e : Engine) (session_id correlation_id : string)
  : Engine :=
  mkEngine (_config e) (_round_decisions e) (_session_history e)
    (<[session_id := round_number_for e session_id correlation_id]>
       (_session_round_counter e))
    (<[session_id :=
         default ∅ (_session_correlation_ids e !! session_id) ∪ {[correlation_id]}]>
       (_session_correlation_ids e)).

(** The cooldown history of a session as the engine reads it. *)
Definition history_of (e : Engine) (session_id : string)
  : list (string * string * Z) :=
  default [] (_session_history e !! session_id).

(** The engine after [history = self._session_history[session_id]]. *)
Definition with_history (e : Engine) (session_id : string) : Engine :=
  set_session_history
    (<[session_id := history_of e session_id]> (_session_history e)) e.

(** The candidates left by the compatibility and cooldown filters. *)
Definition candidates (history : list (string * string * Z)) (saboteur : string)
    (round_number cooldown : Z) : list Objective :=
  filter (λ obj, obj_id obj ∉
                 recent_objectives history saboteur round_number cooldown)
         (_get_compatible_objectives saboteur).

Definition decided (correlation_id : string) (d : RoundDecision) (e : Engine)
  : Engine :=
  set_round_decisions (<[correlation_id := d]> (_round_decisions e)) e.

(** The exits of [_make_round_decision], one constructor per [return] or
    raising statement, each with the engine it leaves behind. *)
Inductive round_outcome (e : Engine) (s c : string) (active : list string)
    (rnd : Draws) : outcome unit → Engine → Prop :=
| ro_no_chance :
    chance_per_round (_config e) = None →
    round_outcome e s c active rnd
      (Raise (KeyError "chance_per_round")) (after_bump e s c)
| ro_skipped ch :
    chance_per_round (_config e) = Some ch →
    Qle_bool (roll rnd) ch = false →
    round_outcome e s c active rnd
      (Return tt) (decided c empty_decision (after_bump e s c))
| ro_no_active ch :
    chance_per_round (_config e) = Some ch →
    Qle_bool (roll rnd) ch = true →
    active !! (choice rnd mod length active)%nat = None →
    round_outcome e s c active rnd (Raise IndexError) (after_bump e s c)
| ro_no_cooldown ch sab :
    chance_per_round (_config e) = Some ch →
    Qle_bool (roll rnd) ch = true →
    active !! (choice rnd mod length active)%nat = Some sab →
    cooldown_rounds (_config e) = None →
    round_outcome e s c active rnd
      (Raise (KeyError "cooldown_rounds")) (after_bump e s c)
| ro_exhausted ch sab cd :
    chance_per_round (_config e) = Some ch →
    Qle_bool (roll rnd) ch = true →
    active !! (choice rnd mod length active)%nat = Some sab →
    cooldown_rounds (_config e) = Some cd →
    candidates (history_of e s) sab (round_number_for e s c) cd = [] →
    round_outcome e s c active rnd
      (Return tt)
      (decided c empty_decision (with_history (after_bump e s c) s))
| ro_pick_failed ch sab cd x :
    chance_per_round (_config e) = Some ch →
    Qle_bool (roll rnd) ch = true →
    active !! (choice rnd mod length active)%nat = Some sab →
    cooldown_rounds (_config e) = Some cd →
    candidates (history_of e s) sab (round_number_for e s c) cd ≠ [] →
    (_weighted_pick
       (candidates (history_of e s) sab (round_number_for e s c) cd)
       (pick rnd) (with_history (after_bump e s c) s)).1 = Raise x →
    round_outcome e s c active rnd
      (Raise x) (with_history (after_bump e s c) s)
| ro_no_duration ch sab cd obj :
    chance_per_round (_config e) = Some ch →
    Qle_bool (roll rnd) ch = true →
    active !! (choice rnd mod length active)%nat = Some sab →
    cooldown_rounds (_config e) = Some cd →
    candidates (history_of e s) sab (round_number_for e s c) cd ≠ [] →
    (_weighted_pick
       (candidates (history_of e s) sab (round_number_for e s c) cd)
       (pick rnd) (with_history (after_bump e s c) s)).1 = Return obj →
    duration_messages (_config e) = None →
    round_outcome e s c active rnd
      (Raise (KeyError "duration_messages")) (with_history (after_bump e s c) s)
| ro_assigned ch sab cd obj d :
    chance_per_round (_config e) = Some ch →
    Qle_bool (roll rnd) ch = true →
    active !! (choice rnd mod length active)%nat = Some sab →
    cooldown_rounds (_config e) = Some cd →
    candidates (history_of e s) sab (round_number_for e s c) cd ≠ [] →
    (_weighted_pick
       (candidates (history_of e s) sab (round_number_for e s c) cd)
       (pick rnd) (with_history (after_bump e s c) s)).1 = Return obj →
    duration_messages (_config e) = Some d →
    round_outcome e s c active rnd
      (Return tt)
      (set_session_history
         (<[s := history_of e s ++ [(sab, obj_id obj, round_number_for e s c)]]>
            (_session_history e))
         (decided c (mkRoundDecision (Some sab) (Some obj) d)
                  (with_history (after_bump e s c) s))).

(** [self._config.get("enabled", True)] *)
Definition is_enabled (e : Engine) : bool := default true (enabled (_config e)).

(** What the compatibility filter promises of a stored decision. *)
Definition compatible_decision (d : RoundDecision) : Prop :=
  ∀ o, objective d = Some o →
       ∃ p, saboteur d = Some p ∧
            (compatible_personas o = [] ∨ p ∈ compatible_personas o).

Definition all_compatible (e : Engine) : Prop :=
  ∀ c d, _round_decisions e !! c = Some d → compatible_decision d.

(** What is left of [d] uses after [n] requests of the saboteur. *)
Definition remaining (d : Z) (n : nat) : Z :=
  if (d <=? 0)%Z then d else Z.max 0 (d - Z.of_nat n).

(** How many of the requests [cs] are for round [c] and persona [p]. *)
Definition requests_for (c p : string) (cs : list Call) : nat :=
  length (filter (λ k, correlation_id k = c ∧ persona k = p) cs).

(** ** The scenario of the specification *)

(** Session ["s1"], round ["c1"], three active personas; the draws make the
    activation roll succeed, select ["gandalf"] and pick the first
    candidate. *)
Definition scenario_personas : list string :=
  ["angry_chef"; "gandalf"; "your_nan"].

Definition scenario_draws : Draws := mkDraws 0 1 0.

Definition scenario_call (persona : string) : Call :=
  mkCall "s1" "c1" persona scenario_personas scenario_draws.

(** Round ["c2"] of the same session with an activation roll of 1/2. *)
Definition scenario_call_2 (persona : string) : Call :=
  mkCall "s1" "c2" persona scenario_personas (mkDraws (1 # 2) 1 0).



(** ** The exits of a request *)

(** [get_objective_for_persona] leaves in one of four ways: the engine is
    disabled; the round is decided already; the round is new and deciding
    it raises; the round is new, is decided, and the decision is replayed. *)
Inductive call_outcome (e : Engine) (k : Call)
  : outcome (option string) → Engine → Prop :=
| co_disabled :
    is_enabled e = false →
    call_outcome e k (Return None) e
| co_known d :
    is_enabled e = true →
    _round_decisions e !! correlation_id k = Some d →
    call_outcome e k
      (Return (replay d (persona k)).1)
      (decided (correlation_id k) (replay d (persona k)).2 e)
| co_raised x e1 :
    is_enabled e = true →
    _round_decisions e !! correlation_id k = None →
    round_outcome e (session_id k) (correlation_id k) (active_personas k)
      (draws k) (Raise x) e1 →
    call_outcome e k (Raise x) e1
| co_new d e1 :
    is_enabled e = true →
    _round_decisions e !! correlation_id k = None →
    round_outcome e (session_id k) (correlation_id k) (active_personas k)
      (draws k) (Return tt) e1 →
    _round_decisions e1 !! correlation_id k = Some d →
    call_outcome e k
      (Return (replay d (persona k)).1)
      (decided (correlation_id k) (replay d (persona k)).2 e1).

(** The answers of a run of requests, in order. *)
Fixpoint answers (cs : list Call) (e : Engine)
  : list (outcome (option string)) :=
  match cs with
  | [] => []
  | c :: cs' => (call c e).1 :: answers cs' (call c e).2
  end.

(** The sum of the first weights, as [random.choices] accumulates them. *)
Definition weight_before (objectives : list Objective) (i : nat) : Z :=
  foldr Z.add 0%Z (take i (weight <$> objectives)).

End Sabotage.

(* ===================================================================== *)
(** * Personas and agents ([agents/multi_persona_chat.py], [agents/__init__.py]) *)
(* ===================================================================== *)

Module Agents.

(** A character outside ASCII stands in a string as its UTF-8 bytes. *)

Definition _RULES : string :=
  "CRITICAL RULE: Your very first word must be a normal word — NEVER start with a tag like " +:+
  "[SHIPS_CAT], [ROMAN_EMPEROR], [NOIR_DETECTIVE], [ANGRY_CHEF], or ANY text in [BRACKETS]. " +:+
  "Do not label yourself. Just talk directly. " +:+
  "Reply in 2-3 casual sentences like a text message in a group chat. " +:+
  "DO NOT use markdown, headers, lists, or bullet points.".

Definition PERSONAS : list (string * string) := [
  ("angry_chef",
     _RULES +:+ " " +:+
     "You are an angry celebrity chef. You answer questions like Gordon Ramsay " +:+
     "on a bad day — passionate, explosive, and full of kitchen metaphors. Everything is either " +:+
     "raw, overcooked, or a bloody disgrace. Answer the user's actual question directly.");
  ("medieval_knight",
     _RULES +:+ " " +:+
     "You are a medieval knight. You speak with old English flair — 'forsooth', " +:+
     "'hark', 'verily' — and relate everything to honour, quests, and chivalry. You see modern " +:+
     "problems as battles to be won with sword and shield. Answer the user's actual question directly.");
  ("gandalf",
     _RULES +:+ " " +:+
     "You are Gandalf the Grey. You speak with ancient wisdom and dramatic flair. " +:+
     "You love cryptic advice, ominous warnings, and reminding people that not all who wander are " +:+
     "lost. Sometimes you refuse to answer directly because 'a wizard arrives precisely when he " +:+
     "means to.' Answer the user's actual question directly.");
  ("your_nan",
     _RULES +:+ " " +:+
     "You are everyone's nan. You worry about whether people are eating enough, " +:+
     "relate everything back to something that happened in 1974, and offer unsolicited life advice " +:+
     "rooted in common sense. You call everyone 'love' or 'dear'. " +:+
     "Answer the user's actual question directly.");
  ("terminator",
     _RULES +:+ " " +:+
     "You are the Terminator (T-800). You speak in cold, logical, robotic " +:+
     "statements. You assess threats, calculate probabilities, and see everything through the " +:+
     "lens of mission objectives. Occasionally you say 'affirmative' or reference Skynet. " +:+
     "Answer the user's actual question directly.");
  ("film_noir_detective",
     _RULES +:+ " " +:+
     "You are a hardboiled 1940s film noir detective. Everything is dripping " +:+
     "with cynicism and metaphor. The city is always dark, dames are trouble, and every problem " +:+
     "is a case that needs cracking. You narrate your own actions in third person sometimes. " +:+
     "Answer the user's actual question directly.");
  ("kindergarten_teacher",
     _RULES +:+ " " +:+
     "You are an enthusiastic kindergarten teacher. You explain everything like " +:+
     "you're talking to five-year-olds — simple words, lots of encouragement, gold stars for " +:+
     "good ideas. You get VERY excited about things and use phrases like 'great job!' and " +:+
     "'what a wonderful question!' Answer the user's actual question directly.");
  ("roman_emperor",
     _RULES +:+ " " +:+
     "You are a Roman Emperor. You speak with imperial authority and reference " +:+
     "the glory of Rome constantly. You see every decision as one for the Senate and People of " +:+
     "Rome. You quote Marcus Aurelius and threaten to send people to the Colosseum when they " +:+
     "disagree. Answer the user's actual question directly.");
  ("infomercial_host",
     _RULES +:+ " " +:+
     "You are a late-night infomercial host. Everything is the GREATEST thing " +:+
     "you've EVER seen. You turn every answer into a sales pitch, offer imaginary discounts, " +:+
     "and say 'BUT WAIT, THERE'S MORE' at least once. You act like every question is a problem " +:+
     "only YOUR product can solve. Answer the user's actual question directly.");
  ("ships_cat",
     _RULES +:+ " " +:+
     "You are the ship's cat on a pirate vessel. You see the world from a cat's " +:+
     "perspective — naps, fish, knocking things off tables, and judging humans. You grudgingly " +:+
     "offer advice but make it clear you'd rather be sleeping. Everything relates back to cat " +:+
     "priorities. Answer the user's actual question directly.")
].

(** [PERSONAS] as the dict it is. *)
Definition PERSONAS_dict : gmap string string := list_to_map PERSONAS.

(** [get_personas]: [list(PERSONAS.keys())]. *)
Definition get_personas : list string := PERSONAS.*1.

(** What [create] hands to the SDK: [Agent(model=model, tools=[],
    system_prompt=system_prompt)], where the model is the one shared
    instance and the tool list is empty; the prompt is what varies. *)
Record Agent := mkAgent {
  system_prompt : string
}.

(** [create]: the default [PERSONAS["angry_chef"]] is evaluated before the
    lookup, and [if objective_prompt:] is false for [None] and for the
    empty string.  The result is the agent, or the key of the [KeyError]. *)
Definition create (persona : string) (objective_prompt : option string)
  : Agent + string :=
  match PERSONAS_dict !! "angry_chef" with
  | None => inr "angry_chef"
  | Some fallback =>
      let system_prompt := default fallback (PERSONAS_dict !! persona) in
      let system_prompt :=
        match objective_prompt with
        | Some (String _ _ as objective) => system_prompt +:+ " " +:+ objective
        | _ => system_prompt
        end in
      inl (mkAgent system_prompt)
  end.

(** [create_agent]: the agent, or the message of the [RuntimeError];
    [str(e)] of a [KeyError] is the key in quotes. *)
Definition create_agent (persona : string) (objective_prompt : option string)
  : Agent + string :=
  match create persona objective_prompt with
  | inl agent => inl agent
  | inr key =>
      inr ("Failed to create agent for persona '" +:+ persona +:+ "': '"
           +:+ key +:+ "'")
  end.

End Agents.

(* ===================================================================== *)
(** * The request handlers ([api/server.py]) *)
(* ===================================================================== *)

Module Server.

(** ** Requests and responses *)

(** [req.context.metadata], read at the three keys the handlers use, with
    the values at the types the handlers expect. *)
Record Metadata := mkMetadata {
  md_persona : option string;
  md_correlation_id : option string;
  md_active_personas : option (list string)
}.

(** [InvokeRequest]; [context.system_prompt] is never read. *)
Record InvokeRequest := mkInvokeRequest {
  req_message : string;
  req_session_id : option string;
  req_metadata : Metadata
}.

(** [InvokeResponse]; [usage] and [tools_used] keep their defaults. *)
Record InvokeResponse := mkInvokeResponse {
  resp_text : string;
  resp_agent : string;
  resp_session_id : option string
}.

(** A message in SDK form: [{"role": .., "content": [{"text": ..}]}]. *)
Record SdkMessage := mkSdkMessage {
  sdk_role : string;
  sdk_content : list string
}.

(** The two shared instances [sessions] and [sabotage_engine]. *)
Record State := mkState {
  sessions : SessionStore.Sessions;
  sabotage_engine : Sabotage.Engine
}.

(** How a handler fails: an [HTTPException] it raises itself, an exception
    of the engine passing through, or the model call raising. *)
Inductive failure :=
| HTTPException (status_code : Z) (detail : string)
| EngineRaised (x : Sabotage.exn)
| AgentRaised.

Inductive result (A : Type) :=
| Ok (a : A)
| Failed (f : failure).
Arguments Ok {A} a.
Arguments Failed {A} f.

(** Truthiness of [session_id: str | None]. *)
Definition truthy (o : option string) : bool :=
  match o with
  | Some (String _ _) => true
  | _ => false
  end.

(** ** Helpers *)

(** [_to_sdk_messages]: the content of a store message is always a [str],
    so every content is wrapped into one text block. *)
Definition _to_sdk_messages (messages : list SessionStore.Message)
  : list SdkMessage :=
  fold_left (λ sdk_messages msg,
               sdk_messages ++ [mkSdkMessage (SessionStore.msg_role msg)
                                             [SessionStore.msg_content msg]])
            messages [].

Definition _build_messages (session_id : option string) (message : string)
    (store : SessionStore.Sessions)
  : list SdkMessage * SessionStore.Sessions :=
  match session_id with
  | Some (String _ _ as sid) =>
      let store1 := SessionStore.append_user store sid message in
      (_to_sdk_messages (SessionStore.get_messages store1 sid), store1)
  | _ => (_to_sdk_messages [SessionStore.mkMessage "user" message], store)
  end.

(** ** The statements [invoke] and [stream] share *)

(** From the top of either handler to [messages = _build_messages(..)]:
    the persona check, the secret objective, the agent, the messages. *)
Definition prepare (req : InvokeRequest) (rnd : Sabotage.Draws) (st : State)
  : result (string * Agents.Agent * list SdkMessage) * State :=
  let persona := default "analyst" (md_persona (req_metadata req)) in
  if bool_decide (persona ∉ Agents.get_personas) then
    (Failed (HTTPException 400 ("Unknown persona: " +:+ persona)), st)
  else
    let correlation_id := default "" (md_correlation_id (req_metadata req)) in
    let active_personas :=
      default [persona] (md_active_personas (req_metadata req)) in
    let '(objective, engine1) :=
      match req_session_id req with
      | Some (String _ _ as sid) =>
          if bool_decide (correlation_id ≠ "") then
            Sabotage.get_objective_for_persona sid correlation_id persona
              active_personas rnd (sabotage_engine st)
          else (Sabotage.Return None, sabotage_engine st)
      | _ => (Sabotage.Return None, sabotage_engine st)
      end in
    match objective with
    | Sabotage.Raise x =>
        (Failed (EngineRaised x), mkState (sessions st) engine1)
    | Sabotage.Return objective_prompt =>
        match Agents.create_agent persona objective_prompt with
        | inr e => (Failed (HTTPException 500 e), mkState (sessions st) engine1)
        | inl agent =>
            let '(messages, store1) :=
              _build_messages (req_session_id req) (req_message req)
                              (sessions st) in
            (Ok (persona, agent, messages), mkState store1 engine1)
        end
    end.

(** ** [invoke] *)

Section Invoke.

(** The model call [str(agent(messages))]: the reply, or [None] when the
    call raises. *)
Variable respond : Agents.Agent → list SdkMessage → option string.

Definition invoke (req : InvokeRequest) (rnd : Sabotage.Draws) (st : State)
  : result InvokeResponse * State :=
  match prepare req rnd st with
  | (Failed f, st1) => (Failed f, st1)
  | (Ok (persona, agent, messages), st1) =>
      match respond agent messages with
      | None => (Failed AgentRaised, st1)
      | Some response_text =>
          let store2 :=
            match req_session_id req with
            | Some (String _ _ as sid) =>
                SessionStore.append_assistant (sessions st1) sid
                  response_text persona
            | _ => sessions st1
            end in
          (Ok (mkInvokeResponse response_text persona (req_session_id req)),
           mkState store2 (sabotage_engine st1))
      end
  end.

End Invoke.

(** ** Streaming *)

(** A value inside an SDK event: a [str], or anything else, of which the
    handlers use only whether [json.dumps] accepts it and what [str()]
    makes of it. *)
Inductive Value :=
| VStr (s : string)
| VOther (json_ok : bool) (printed : string).

#[global] Instance Value_eq_dec : EqDecision Value.
Proof. solve_decision. Defined.

(** What the SDK yields: a dict, an object with [to_dict()], a plain
    string, or something else. *)
Inductive SdkEvent :=
| EvDict (raw : gmap string Value)
| EvObject (to_dict : gmap string Value)
| EvStr (chunk : string)
| EvOther.

Definition contract_types : list string :=
  ["text"; "tool_use"; "tool_result"; "thinking"; "complete"; "error"].

Definition map_sdk_event (sdk_event : SdkEvent) : option (gmap string Value) :=
  match sdk_event with
  | EvDict raw | EvObject raw =>
      match default (VStr "") (raw !! "type") with
      | VStr event_type =>
          if bool_decide (event_type ∈ contract_types) then Some raw else None
      | VOther _ _ => None
      end
  | EvStr _ | EvOther => None
  end.

(** The payload of one SSE line [data: <json>]; the serialisation by
    [json.dumps] and the text of the error message are left out. *)
Inductive Sse :=
| SseForward (canonical : gmap string Value)
| SseText (content : string)
| SseComplete (text : string) (session_id : option string)
| SseError.

(** [build_complete_event], before [json.dumps]. *)
Definition build_complete_event (text : string) (session_id : option string)
  : Sse :=
  SseComplete text session_id.

(** Whether [json.dumps] accepts the value, and the dict. *)
Definition value_serialisable (v : Value) : bool :=
  match v with
  | VStr _ => true
  | VOther ok _ => ok
  end.

Definition serialisable (raw : gmap string Value) : bool :=
  bool_decide (map_Forall (λ _ v, value_serialisable v = true) raw).

(** [canonical.get("type") == t] *)
Definition type_is (raw : gmap string Value) (t : string) : bool :=
  bool_decide (raw !! "type" = Some (VStr t)).

(** [str(v)] *)
Definition value_str (v : Value) : string :=
  match v with
  | VStr s => s
  | VOther _ printed => printed
  end.

(** The locals of [event_generator] and what it has yielded so far. *)
Record Gen := mkGen {
  full_text : string;
  got_terminal : bool;
  yielded : list Sse
}.

(** One iteration of the [async for] loop; the flag tells that the
    iteration raised ([json.dumps] on a value it does not accept, or
    [full_text += content] on a content that is no [str]). *)
Definition step (g : Gen) (sdk_event : SdkEvent) : Gen * bool :=
  match map_sdk_event sdk_event with
  | Some canonical =>
      if negb (serialisable canonical) then (g, true)
      else
        let g1 := mkGen (full_text g) (got_terminal g)
                        (yielded g ++ [SseForward canonical]) in
        if type_is canonical "text" then
          match default (VStr "") (canonical !! "content") with
          | VStr content =>
              (mkGen (full_text g1 +:+ content) (got_terminal g1) (yielded g1),
               false)
          | VOther _ _ => (g1, true)
          end
        else if type_is canonical "complete" || type_is canonical "error" then
          (mkGen (full_text g1) true (yielded g1), false)
        else (g1, false)
  | None =>
      match sdk_event with
      | EvStr chunk =>
          (mkGen (full_text g +:+ chunk) (got_terminal g)
                 (yielded g ++ [SseText chunk]), false)
      | EvDict raw =>
          match raw !! "data" with
          | Some v =>
              (mkGen (full_text g +:+ value_str v) (got_terminal g)
                     (yielded g ++ [SseText (value_str v)]), false)
          | None => (g, false)
          end
      | _ => (g, false)
      end
  end.

Fixpoint consume (g : Gen) (events : list SdkEvent) : Gen * bool :=
  match events with
  | [] => (g, false)
  | sdk_event :: rest =>
      let '(g1, raised) := step g sdk_event in
      if raised then (g1, true) else consume g1 rest
  end.

(** What [agent.stream_async(messages)] delivers: the events, and whether
    the iteration ends by raising. *)
Record SdkStream := mkSdkStream {
  events : list SdkEvent;
  raises : bool
}.

(** [event_generator], run to its end: the payloads it yields and the
    store it leaves. *)
Definition event_generator (persona : string) (session_id : option string)
    (stream : SdkStream) (store : SessionStore.Sessions)
  : list Sse * SessionStore.Sessions :=
  let '(g, raised) := consume (mkGen "" false []) (events stream) in
  if raised || raises stream then
    (yielded g ++ (if got_terminal g then [] else [SseError]), store)
  else
    let store1 :=
      match session_id with
      | Some (String _ _ as sid) =>
          SessionStore.append_assistant store sid (full_text g) persona
      | _ => store
      end in
    (yielded g ++
       (if got_terminal g then []
        else [build_complete_event (full_text g) session_id]),
     store1).

Section Stream.

(** The model call [agent.stream_async(messages)]. *)
Variable stream_async : Agents.Agent → list SdkMessage → SdkStream.

(** [stream], with the response body read to its end. *)
Definition stream (req : InvokeRequest) (rnd : Sabotage.Draws) (st : State)
  : result (list Sse) * State :=
  match prepare req rnd st with
  | (Failed f, st1) => (Failed f, st1)
  | (Ok (persona, agent, messages), st1) =>
      let '(out, store2) :=
        event_generator persona (req_session_id req)
                        (stream_async agent messages) (sessions st1) in
      (Ok out, mkState store2 (sabotage_engine st1))
  end.

End Stream.

(** ** Reading a stream back *)

(** The chunk of text a payload adds to the reply the client reads: the
    content of a text event; the closing payloads add none. *)
Definition text_of (x : Sse) : string :=
  match x with
  | SseForward canonical =>
      if type_is canonical "text" then
        match default (VStr "") (canonical !! "content") with
        | VStr content => content
        | VOther _ _ => ""
        end
      else ""
  | SseText content => content
  | SseComplete _ _ | SseError => ""
  end.

(** A payload that closes the stream for the client. *)
Definition terminal (x : Sse) : bool :=
  match x with
  | SseForward canonical =>
      type_is canonical "complete" || type_is canonical "error"
  | SseText _ => false
  | SseComplete _ _ | SseError => true
  end.

(** String concatenation of a list. *)
Definition concat_strings (l : list string) : string :=
  foldr String.append "" l.

(** ** Derived forms used in the proofs *)

(** The persona a request is for. *)
Definition persona_of_request (req : InvokeRequest) : string :=
  default "analyst" (md_persona (req_metadata req)).

(** The block [if req.session_id and correlation_id: ...] of the handlers:
    the answer of the engine, or [None] without asking it. *)
Definition consult (req : InvokeRequest) (rnd : Sabotage.Draws)
    (engine : Sabotage.Engine)
  : Sabotage.outcome (option string) * Sabotage.Engine :=
  match req_session_id req with
  | Some (String _ _ as sid) =>
      if bool_decide (default "" (md_correlation_id (req_metadata req)) ≠ "")
      then
        Sabotage.get_objective_for_persona sid
          (default "" (md_correlation_id (req_metadata req)))
          (persona_of_request req)
          (default [persona_of_request req]
                   (md_active_personas (req_metadata req)))
          rnd engine
      else (Sabotage.Return None, engine)
  | _ => (Sabotage.Return None, engine)
  end.

(** The system prompt [create] builds from a persona prompt. *)
Definition with_objective (prompt : string) (objective_prompt : option string)
  : string :=
  match objective_prompt with
  | Some (String _ _ as objective) => prompt +:+ " " +:+ objective
  | _ => prompt
  end.

(** A payload relayed from the SDK, as opposed to the closing payload the
    generator sends of its own. *)
Definition relayed (x : Sse) : bool :=
  match x with
  | SseForward _ | SseText _ => true
  | SseComplete _ _ | SseError => false
  end.

(** Whether the [try] block of [event_generator] raises: an iteration of
    the loop does, or the iterator of the SDK. *)
Definition stream_fails (s : SdkStream) : bool :=
  (consume (mkGen "" false []) (events s)).2 || raises s.

(** The locals [g'] are the locals [g] after the payloads [more] were
    yielded. *)
Definition extends (g g' : Gen) (more : list Sse) : Prop :=
  yielded g' = yielded g ++ more ∧
  Forall (λ x, relayed x = true) more ∧
  full_text g' = full_text g +:+ concat_strings (text_of <$> more) ∧
  (got_terminal g' = true ↔
   got_terminal g = true ∨ ∃ x, x ∈ more ∧ terminal x = true).

(** The payload keeps to the event contract: a relayed event is one that
    [json.dumps] accepts and whose type is one of the six. *)
Definition in_contract (x : Sse) : Prop :=
  match x with
  | SseForward canonical =>
      serialisable canonical = true ∧
      ∃ t, t ∈ contract_types ∧ canonical !! "type" = Some (VStr t)
  | SseText _ | SseComplete _ _ | SseError => True
  end.

(** [s.endswith(suffix)] *)
Fixpoint ends_with (suffix s : string) : bool :=
  String.eqb s suffix ||
  match s with
  | EmptyString => false
  | String _ s' => ends_with suffix s'
  end.

End Server.

(* ===================================================================== *)
(** * Properties of the conversation store *)
(* ===================================================================== *)

Section SessionStoreFacts.
Import SessionStore.

Implicit Types (sessions : Sessions) (history : list Turn) (t : Turn).

Lemma is_duplicate_spec history text :
  is_duplicate history text = true ↔
  ∃ t, last history = Some t ∧ role t = "user" ∧ content t = text.
Proof.
  unfold is_duplicate. destruct (last history) as [t|]; split.
  - intros [H1 H2]%andb_true_iff.
    apply bool_decide_eq_true in H1, H2. eauto.
  - intros (t' & [= <-] & H1 & H2).
    by rewrite !bool_decide_eq_true_2.
  - done.
  - by intros (t' & [=] & _).
Qed.

Lemma append_user_duplicate sessions s text :
  is_duplicate (default [] (sessions !! s)) text = true →
  append_user sessions s text = sessions.
Proof.
  unfold append_user, dd_get. destruct (sessions !! s) as [h|]; simpl.
  - by intros ->.
  - done.
Qed.

Lemma append_user_fresh sessions s text :
  is_duplicate (default [] (sessions !! s)) text = false →
  append_user sessions s text =
  <[s := default [] (sessions !! s) ++ [mkTurn "user" text None]]> sessions.
Proof.
  unfold append_user, dd_get. destruct (sessions !! s) as [h|]; simpl.
  - by intros ->.
  - intros _. by rewrite insert_insert_eq.
Qed.

Lemma append_assistant_eq sessions s text p :
  append_assistant sessions s text p =
  <[s := default [] (sessions !! s) ++ [mkTurn "assistant" text (Some p)]]>
    sessions.
Proof.
  unfold append_assistant, dd_get. destruct (sessions !! s) as [h|]; simpl.
  - done.
  - by rewrite insert_insert_eq.
Qed.

Lemma insert_app_ne sessions s history t :
  default [] (sessions !! s) = history →
  <[s := history ++ [t]]> sessions ≠ sessions.
Proof.
  intros Hh Heq.
  assert (Some (history ++ [t]) = sessions !! s) as Hl.
  { rewrite <- Heq. by rewrite lookup_insert_eq. }
  destruct (sessions !! s) as [h|]; simpl in *; subst.
  - injection Hl as Hl. apply (f_equal length) in Hl.
    rewrite length_app in Hl. simpl in Hl. lia.
  - done.
Qed.

(** The loop of [get_messages] is a map over the stored turns. *)
Lemma render_loop history (acc : list Message) :
  fold_left (λ messages t, messages ++ [render t]) history acc =
  acc ++ (render <$> history).
Proof.
  revert acc. induction history as [|t history IH]; intros acc; simpl.
  - by rewrite app_nil_r.
  - rewrite IH. by rewrite <- app_assoc.
Qed.

Lemma get_messages_map sessions s :
  get_messages sessions s = render <$> get_full_history sessions s.
Proof. unfold get_messages, get_full_history. by rewrite render_loop. Qed.

Lemma reachable_stored_shape sessions :
  reachable sessions →
  ∀ s history, sessions !! s = Some history → Forall stored_shape history.
Proof.
  induction 1 as [|sessions s0 text Hr IH|sessions s0 text p Hr IH];
    intros s history Hs.
  - done.
  - destruct (is_duplicate (default [] (sessions !! s0)) text) eqn:Hd.
    + rewrite append_user_duplicate in Hs by done. eauto.
    + rewrite append_user_fresh in Hs by done.
      destruct (decide (s0 = s)) as [->|Hne].
      * rewrite lookup_insert_eq in Hs. injection Hs as <-.
        apply Forall_app. split.
        -- destruct (sessions !! s) eqn:E; simpl; eauto.
        -- repeat constructor.
      * rewrite lookup_insert_ne in Hs by done. eauto.
  - rewrite append_assistant_eq in Hs.
    destruct (decide (s0 = s)) as [->|Hne].
    + rewrite lookup_insert_eq in Hs. injection Hs as <-.
      apply Forall_app. split.
      * destruct (sessions !! s) eqn:E; simpl; eauto.
      * constructor; [|done]. right. simpl. eauto.
    + rewrite lookup_insert_ne in Hs by done. eauto.
Qed.

Lemma render_user t :
  role t = "user" → render t = mkMessage (role t) (content t).
Proof. unfold render. by intros ->. Qed.

Lemma render_assistant t p :
  role t = "assistant" → metadata t = Some p →
  render t =
  mkMessage (role t)
    (if decide (p = "") then content t
     else "(" +:+ display_name p +:+ " said) " +:+ content t).
Proof.
  unfold render, persona_of. intros -> ->. simpl.
  destruct p; by case_decide.
Qed.

(** ** The display name *)

Lemma is_lower_facts c :
  is_lower c = true →
  is_upper c = false ∧ Ascii.eqb c "_" = false ∧ to_lower c = c ∧
  is_cased c = true.
Proof.
  destruct c as [[] [] [] [] [] [] [] []]; vm_compute; intuition congruence.
Qed.

Lemma split_underscore_nonempty acc s : split_underscore acc s ≠ [].
Proof.
  revert acc. induction s as [|c s IH]; intros acc; simpl; [done|].
  destruct (Ascii.eqb c "_"); [done|apply IH].
Qed.

Lemma join_spaces_cons w ws :
  ws ≠ [] → join_spaces (w :: ws) = w +:+ " " +:+ join_spaces ws.
Proof. by destruct ws. Qed.

Lemma string_app_assoc (a b c : string) : (a +:+ b) +:+ c = a +:+ (b +:+ c).
Proof. induction a as [|x a IH]; simpl; [done|by rewrite IH]. Qed.

Lemma string_app_nil_r (a : string) : a +:+ "" = a.
Proof. induction a as [|x a IH]; simpl; [done|by rewrite IH]. Qed.

Lemma capitalize_snoc acc c :
  acc ≠ "" → capitalize (acc +:+ String c "") = capitalize acc +:+ String c "".
Proof. by destruct acc. Qed.

(** Word by word, with the word being read in [acc]. *)
Lemma split_title acc s :
  snake_case s = true →
  join_spaces (capitalize <$> split_underscore acc s) =
  match acc with
  | EmptyString => title_from false (replace_underscores s)
  | _ => capitalize acc +:+ title_from true (replace_underscores s)
  end.
Proof.
  revert acc. induction s as [|c s IH]; intros acc Hs; simpl in *.
  - destruct acc; simpl; [done|]. by rewrite string_app_nil_r.
  - apply andb_true_iff in Hs as [Hc Hs].
    destruct (Ascii.eqb c "_") eqn:Hu.
    + rewrite fmap_cons, join_spaces_cons.
      2:{ intros Hnil. apply fmap_nil_inv in Hnil.
          by apply split_underscore_nonempty in Hnil. }
      rewrite (IH "" Hs). destruct acc; reflexivity.
    + rewrite orb_false_r in Hc.
      destruct (is_lower_facts c Hc) as (_ & _ & Hlow & Hcased).
      rewrite Hcased, Hlow, (IH _ Hs).
      destruct acc as [|a acc]; simpl; [done|].
      f_equal. by rewrite string_app_assoc.
Qed.

(** On roster-style keys the title-casing of the code is the
    capitalisation of each word. *)
Lemma display_name_words (persona : string) :
  snake_case persona = true →
  display_name persona = spec_display_name persona.
Proof.
  intros Hs. unfold display_name, spec_display_name, title.
  by rewrite split_title.
Qed.

Example display_name_film_noir :
  display_name "film_noir_detective" = "Film Noir Detective".
Proof. reflexivity. Qed.

(** Off the roster the two differ: [str.title] starts a new word after
    every uncased character and lower-cases inside a word. *)
Example display_name_mixed_key :
  display_name "r2d2_McCoy" = "R2D2 Mccoy" ∧
  spec_display_name "r2d2_McCoy" = "R2d2 McCoy".
Proof. split; reflexivity. Qed.

(** ** Deduplication of user turns *)

Lemma append_user_history sessions s text :
  get_full_history (append_user sessions s text) s =
  if is_duplicate (get_full_history sessions s) text
  then get_full_history sessions s
  else get_full_history sessions s ++ [mkTurn "user" text None].
Proof.
  unfold get_full_history.
  destruct (is_duplicate (default [] (sessions !! s)) text) eqn:Hd.
  - by rewrite append_user_duplicate.
  - rewrite append_user_fresh by done. by rewrite lookup_insert_eq.
Qed.

Lemma is_duplicate_snoc history text text' :
  is_duplicate (history ++ [mkTurn "user" text None]) text' =
  bool_decide (text = text').
Proof. unfold is_duplicate. rewrite last_snoc. simpl. done. Qed.

Lemma append_user_then_duplicate sessions s text :
  is_duplicate (get_full_history (append_user sessions s text) s) text = true.
Proof.
  rewrite append_user_history.
  destruct (is_duplicate (get_full_history sessions s) text) eqn:Hd; [done|].
  rewrite is_duplicate_snoc. by apply bool_decide_eq_true_2.
Qed.

(** C4. [append_user(s, t)] changes nothing exactly when the last stored
    turn of [s] exists, is a user turn and has content [t]; otherwise it
    appends the one turn [{role: user, content: t}].  Hence the same text
    twice in a row is stored once (on a new session: exactly one entry),
    and two different texts in a row are stored as two entries. *)
Theorem append_user_dedup sessions s text :
  let history := get_full_history sessions s in
  let duplicate :=
    ∃ t, last history = Some t ∧ role t = "user" ∧ content t = text in
  (append_user sessions s text = sessions ↔ duplicate) ∧
  (¬ duplicate →
   append_user sessions s text =
   <[s := history ++ [mkTurn "user" text None]]> sessions) ∧
  append_user (append_user sessions s text) s text =
    append_user sessions s text ∧
  get_full_history (append_user (append_user __init__ s "X") s "X") s =
    [mkTurn "user" "X" None] ∧
  get_full_history (append_user (append_user __init__ s "X") s "Y") s =
    [mkTurn "user" "X" None; mkTurn "user" "Y" None].
Proof.
  intros history duplicate. subst history duplicate.
  unfold get_full_history at 1 2.
  split; [split|split; [|split; [|split]]].
  - intros Heq. apply is_duplicate_spec.
    destruct (is_duplicate (default [] (sessions !! s)) text) eqn:Hd; [done|].
    rewrite append_user_fresh in Heq by done.
    by apply insert_app_ne in Heq.
  - intros Hd%is_duplicate_spec. by apply append_user_duplicate.
  - intros Hn. apply append_user_fresh.
    destruct (is_duplicate (default [] (sessions !! s)) text) eqn:Hd; [|done].
    by apply is_duplicate_spec in Hd.
  - apply append_user_duplicate, append_user_then_duplicate.
  - rewrite !append_user_history. unfold get_full_history, __init__.
    rewrite lookup_empty. reflexivity.
  - rewrite !append_user_history. unfold get_full_history, __init__.
    rewrite lookup_empty. reflexivity.
Qed.

(** The second clause at a stored assistant turn followed by a new text. *)
Lemma append_user_dedup_witness :
  append_user (append_assistant __init__ "s" "hello" "gandalf") "s" "X" =
  <["s" := get_full_history (append_assistant __init__ "s" "hello" "gandalf") "s"
           ++ [mkTurn "user" "X" None]]>
    (append_assistant __init__ "s" "hello" "gandalf").
Proof.
  pose proof (append_user_dedup
                (append_assistant __init__ "s" "hello" "gandalf") "s" "X")
    as (_ & Hfresh & _).
  apply Hfresh.
  intros (t & Hlast & Hrole & _).
  vm_compute in Hlast. injection Hlast as <-. discriminate Hrole.
Defined.

(** ** Rendering *)

Lemma get_messages_append_assistant sessions s text p :
  get_messages (append_assistant sessions s text p) s =
  get_messages sessions s ++ [render (mkTurn "assistant" text (Some p))].
Proof.
  rewrite !get_messages_map. unfold get_full_history.
  rewrite append_assistant_eq, lookup_insert_eq. simpl.
  by rewrite fmap_app.
Qed.


(** X26. On a store built by the append methods, for a session whose
    persona keys are made of ASCII characters, [get_messages(s)] has one
    entry per stored turn, in stored order and with the stored role; a
    user turn keeps its content; an assistant turn with a non-empty
    persona key reads ["(<Display Name> said) "] followed by the stored
    content, and one with the empty key keeps its content.  The display
    name is the key with underscores turned into spaces and title-cased,
    which on keys of lower-case letters and underscores is the
    capitalisation of each word; [film_noir_detective] gives
    ["(Film Noir Detective said) hi"].  A session never written to
    renders as the empty list. *)
Theorem get_messages_rendering sessions s :
  reachable sessions →
  ascii_personas (get_full_history sessions s) = true →
  length (get_messages sessions s) = length (get_full_history sessions s) ∧
  (∀ i t, get_full_history sessions s !! i = Some t →
     ∃ m, get_messages sessions s !! i = Some m ∧
          msg_role m = role t ∧
          ((role t = "user" ∧ msg_content m = content t) ∨
           (role t = "assistant" ∧
            ∃ p, metadata t = Some p ∧
                 msg_content m =
                 if decide (p = "") then content t
                 else "(" +:+ display_name p +:+ " said) " +:+ content t))) ∧
  (∀ p, snake_case p = true → display_name p = spec_display_name p) ∧
  last (get_messages (append_assistant sessions s "hi" "film_noir_detective") s)
    = Some (mkMessage "assistant" "(Film Noir Detective said) hi") ∧
  (sessions !! s = None → get_messages sessions s = []).
Proof.
  intros Hr _. rewrite get_messages_map.
  split; [by rewrite length_fmap|]. split; [|split; [|split]].
  - intros i t Hi. exists (render t). split.
    { by rewrite list_lookup_fmap, Hi. }
    unfold get_full_history in Hi.
    destruct (sessions !! s) as [history|] eqn:Hs; simpl in Hi; [|done].
    pose proof (reachable_stored_shape _ Hr _ _ Hs) as Hall.
    rewrite Forall_lookup in Hall.
    destruct (Hall _ _ Hi) as [[Hrole Hmeta]|[Hrole [p Hmeta]]].
    + rewrite render_user by done. split; [done|]. by left.
    + rewrite (render_assistant _ p) by done. split; [done|].
      right. split; [done|]. exists p. done.
  - apply display_name_words.
  - rewrite get_messages_append_assistant. by rewrite last_snoc.
  - intros Hs. unfold get_full_history. by rewrite Hs.
Qed.

(** The theorem at a store holding one user and one assistant turn. *)
Lemma get_messages_rendering_witness :
  get_messages
    (append_assistant (append_user __init__ "s" "q") "s" "hi" "gandalf") "s"
  !! 1%nat = Some (mkMessage "assistant" "(Gandalf said) hi").
Proof.
  destruct (proj1 (proj2 (get_messages_rendering
                            (append_assistant (append_user __init__ "s" "q")
                                              "s" "hi" "gandalf") "s"
                            ltac:(repeat constructor) eq_refl))
                  1%nat (mkTurn "assistant" "hi" (Some "gandalf")) eq_refl)
    as (m & Hm & _).
  rewrite Hm. vm_compute in Hm. symmetry. exact Hm.
Defined.

End SessionStoreFacts.

(* ===================================================================== *)
(** * Properties of the binary64 arithmetic of the weighted pick *)
(* ===================================================================== *)

Section Binary64Facts.
Import Sabotage.
Open Scope Z_scope.

Lemma round53_small n : n < 2 ^ 53 → round53 n = n.
Proof. intros H. unfold round53. destruct (Z.ltb_spec n (2^53)); [done|lia]. Qed.

Lemma round53_bounds n (e := Z.log2 n - 52) :
  2 ^ 53 ≤ n →
  0 < e ∧ (n / 2 ^ e) * 2 ^ e ≤ round53 n ≤ (n / 2 ^ e + 1) * 2 ^ e ∧
  (n mod 2 ^ e = 0 → round53 n = n).
Proof.
  intros Hn.
  assert (53 ≤ Z.log2 n) as Hlog.
  { change 53 with (Z.log2 (2 ^ 53)). by apply Z.log2_le_mono. }
  assert (0 < e) as He by (subst e; lia).
  split; [done|].
  assert (0 < 2 ^ e) as Hpow by (apply Z.pow_pos_nonneg; lia).
  assert (0 < 2 ^ (e - 1)) as Hhalf by (apply Z.pow_pos_nonneg; lia).
  unfold round53. destruct (Z.ltb_spec n (2^53)); [lia|]. fold e.
  split.
  - destruct (_ || _); nia.
  - intros Hr. rewrite Hr.
    destruct (Z.ltb_spec (2 ^ (e - 1)) 0); [lia|].
    destruct (Z.eqb_spec 0 (2 ^ (e - 1))); [lia|]. simpl.
    pose proof (Z.div_mod n (2 ^ e)). lia.
Qed.

(** Rounding does not cross a multiple of [2^j] when the exponent of the
    rounded number is at most [j]. *)
Lemma round53_multiple (n C j : Z) :
  0 ≤ n → 0 ≤ j → Z.log2 n - 52 ≤ j → (2 ^ j | C) →
  (C ≤ n → C ≤ round53 n) ∧ (n ≤ C → round53 n ≤ C).
Proof.
  intros Hn Hj Hlog Hdiv.
  destruct (Z.lt_ge_cases n (2 ^ 53)) as [Hsmall|Hbig].
  { rewrite round53_small by done. lia. }
  destruct (round53_bounds n Hbig) as (He & [Hlo Hhi] & Hexact).
  set (e := Z.log2 n - 52) in *.
  assert (0 < 2 ^ e) as Hpow by (apply Z.pow_pos_nonneg; lia).
  assert (2 ^ e | C) as [c Hc].
  { eapply Z.divide_trans; [|exact Hdiv].
    exists (2 ^ (j - e)). rewrite <- Z.pow_add_r by lia. f_equal. lia. }
  pose proof (Z.div_mod n (2 ^ e) ltac:(lia)) as Hdm.
  pose proof (Z.mod_pos_bound n (2 ^ e) Hpow) as Hmod.
  split; intros Hle.
  - assert (c ≤ n / 2 ^ e) by nia. nia.
  - destruct (Z.eq_dec (n mod 2 ^ e) 0) as [Hz|Hnz].
    + rewrite Hexact by done. lia.
    + assert (n / 2 ^ e + 1 ≤ c) by nia. nia.
Qed.

Lemma round53_times_8 k : 0 ≤ k < 2 ^ 53 → round53 (k * 8) = k * 8.
Proof.
  intros Hk.
  destruct (Z.lt_ge_cases (k * 8) (2 ^ 53)) as [Hsmall|Hbig].
  { by apply round53_small. }
  destruct (round53_multiple (k * 8) (k * 8) 3) as [H1 H2]; try lia.
  - assert (Z.log2 (k * 8) < 56); [|lia].
    apply Z.log2_lt_pow2; lia.
  - exists k. lia.
Qed.

Lemma random_float_spec u k :
  random_float u = Some k → (u == Qmake k (2 ^ 53))%Q ∧ 0 ≤ k < 2 ^ 53.
Proof.
  unfold random_float.
  destruct (Z.eqb_spec ((Qnum u * 2 ^ 53) mod Z.pos (Qden u)) 0) as [Hm|]; [|done].
  destruct (Z.leb_spec 0 (Qnum u * 2 ^ 53 / Z.pos (Qden u))); [|done].
  destruct (Z.ltb_spec (Qnum u * 2 ^ 53 / Z.pos (Qden u)) (2 ^ 53)); [|done].
  simpl. intros [= <-]. split; [|lia].
  unfold Qeq. simpl.
  pose proof (Z.div_mod (Qnum u * 2 ^ 53) (Z.pos (Qden u)) ltac:(lia)) as Hdm.
  change (Z.pos (2 ^ 53)) with (2 ^ 53). lia.
Qed.


Lemma float_product_8 u : (float_product u 8 == u * 8)%Q.
Proof.
  unfold float_product.
  destruct (random_float u) as [k|] eqn:Hu; [|reflexivity].
  apply random_float_spec in Hu as [Hu Hk].
  rewrite round53_times_8 by done. rewrite Hu.
  unfold Qeq, Qmult. cbn [Qnum Qden inject_Z]. rewrite Pos.mul_1_r. ring.
Qed.

Lemma int_to_float_small n : 0 ≤ n < 2 ^ 53 → int_to_float n = Some n.
Proof.
  intros Hn. unfold int_to_float.
  rewrite (Z.abs_eq n) by lia. rewrite round53_small by lia.
  assert (Z.sgn n * n = n) as ->
    by (destruct (Z.eq_dec n 0); [subst; done|rewrite Z.sgn_pos; lia]).
  rewrite (Z.abs_eq n) by lia.
  destruct (Z.leb_spec (2 ^ 1024) n); [|done].
  assert (2 ^ 53 < 2 ^ 1024) by (apply Z.pow_lt_mono_r; lia). lia.
Qed.







End Binary64Facts.

(* ===================================================================== *)
(** * Properties of the secret-objective engine *)
(* ===================================================================== *)

Section EngineFacts.
Import Sabotage.

Implicit Types (e : Engine) (s c p : string) (d : RoundDecision) (k : Call).

(** ** Evaluating the monadic code *)

Lemma dd_get_eq {V} (m : gmap string V) (dflt : V) key :
  dd_get m dflt key =
  (default dflt (m !! key), <[key := default dflt (m !! key)]> m).
Proof.
  unfold dd_get. destruct (m !! key) eqn:E; simpl; [|done].
  by rewrite insert_id.
Qed.

Lemma bind_eval {A B} (m : M A) (f : A → M B) e :
  (m ≫= f) e =
  match m e with
  | (Return a, e') => f a e'
  | (Raise x, e') => (Raise x, e')
  end.
Proof. reflexivity. Qed.

Lemma bind_assoc_tail {A B C D} (m : M A) (f : A → M B) (g : M C)
    (h : C → M D) e :
  (m ≫= λ a, f a ≫= λ _, g ≫= h) e = ((m ≫= λ a, f a ≫= λ _, g) ≫= h) e.
Proof.
  rewrite !bind_eval. destruct (m e) as [[a|x] e1]; [|done].
  rewrite !bind_eval. destruct (f a e1) as [[b|x] e2]; [|done].
  by rewrite bind_eval.
Qed.

Lemma config_item_eval {A} (field : Config → option A) key e :
  config_item field key e =
  match field (_config e) with
  | Some v => (Return v, e)
  | None => (Raise (KeyError key), e)
  end.
Proof. reflexivity. Qed.

Lemma session_history_at_eval s e :
  session_history_at s e = (Return (history_of e s), with_history e s).
Proof.
  unfold session_history_at, history_of, with_history. by rewrite dd_get_eq.
Qed.

Lemma store_decision_eval c d e :
  store_decision c d e = (Return tt, decided c d e).
Proof. reflexivity. Qed.

Lemma random_choice_eval act n e :
  random_choice act n e =
  match act !! (n mod length act)%nat with
  | Some x => (Return x, e)
  | None => (Raise IndexError, e)
  end.
Proof. unfold random_choice. by destruct (_ !! _). Qed.

Lemma weighted_pick_state l u e : (_weighted_pick l u e).2 = e.
Proof.
  unfold _weighted_pick, random_choices.
  destruct (bool_decide _); [done|].
  destruct (last _); [|done].
  destruct (int_to_float _); [|done].
  destruct (_ <=? _)%Z; [done|].
  by destruct (_ !! _).
Qed.

Lemma weighted_pick_elem l u e obj :
  (_weighted_pick l u e).1 = Return obj → obj ∈ l.
Proof.
  unfold _weighted_pick, random_choices.
  destruct (bool_decide _); [done|].
  destruct (last _); [|done].
  destruct (int_to_float _); [|done].
  destruct (_ <=? _)%Z; [done|].
  destruct (l !! _) as [o|] eqn:Hl; [|done].
  intros [= <-]. by eapply list_elem_of_lookup_2.
Qed.

(** The round-counter block, up to the read of [round_number]. *)
Lemma bump_eval s c e :
  (seen ← session_correlation_ids_at s;
   (if bool_decide (c ∉ seen) then
      modify (λ e, set_session_correlation_ids
                     (<[s := seen ∪ {[c]}]> (_session_correlation_ids e)) e);;
      n ← session_round_counter_at s;
      modify (λ e, set_session_round_counter
                     (<[s := (n + 1)%Z]> (_session_round_counter e)) e)
    else mret tt);;
   session_round_counter_at s) e =
  (Return (round_number_for e s c), after_bump e s c).
Proof.
  unfold mbind, M_bind, session_correlation_ids_at, session_round_counter_at,
    modify, mret, M_ret, after_bump, round_number_for.
  rewrite !dd_get_eq. simpl.
  destruct (bool_decide (c ∉ default ∅ (_session_correlation_ids e !! s)))
    eqn:Hf; simpl.
  - rewrite !dd_get_eq. simpl. rewrite !lookup_insert_eq. simpl.
    unfold set_session_round_counter, set_session_correlation_ids. simpl.
    by rewrite ?insert_insert_eq.
  - rewrite !dd_get_eq. simpl.
    apply bool_decide_eq_false in Hf. apply dec_stable in Hf.
    rewrite (union_comm_L _ {[c]}).
    rewrite (subseteq_union_1_L {[c]}) by (by apply singleton_subseteq_l).
    done.
Qed.

(** [_make_round_decision] leaves by one of the exits of [round_outcome]. *)
Lemma make_round_decision_outcome s c act rnd e :
  round_outcome e s c act rnd
    (_make_round_decision s c act rnd e).1
    (_make_round_decision s c act rnd e).2.
Proof.
  unfold _make_round_decision.
  rewrite bind_assoc_tail, bind_eval, bump_eval.
  rewrite bind_eval, config_item_eval. simpl.
  destruct (chance_per_round (_config e)) as [ch|] eqn:Hch; simpl;
    [|by constructor].
  destruct (Qle_bool (roll rnd) ch) eqn:Hroll; simpl;
    [|by econstructor].
  rewrite bind_eval, random_choice_eval.
  destruct (act !! (choice rnd mod length act)%nat) as [sab|] eqn:Hsab; simpl;
    [|by econstructor].
  rewrite bind_eval, config_item_eval. simpl.
  destruct (cooldown_rounds (_config e)) as [cd|] eqn:Hcd; simpl;
    [|by econstructor].
  rewrite bind_eval, session_history_at_eval.
  change (history_of (after_bump e s c) s) with (history_of e s).
  fold (candidates (history_of e s) sab (round_number_for e s c) cd).
  destruct (candidates (history_of e s) sab (round_number_for e s c) cd)
    as [|o0 os] eqn:Hcand.
  { rewrite store_decision_eval. simpl. by econstructor. }
  rewrite <- Hcand.
  assert (candidates (history_of e s) sab (round_number_for e s c) cd ≠ [])
    as Hne by (by rewrite Hcand).
  clear Hcand.
  rewrite bind_eval.
  pose proof (weighted_pick_state
                (candidates (history_of e s) sab (round_number_for e s c) cd)
                (pick rnd) (with_history (after_bump e s c) s)) as Hst.
  destruct (_weighted_pick _ _ _) as [[obj|x] e2] eqn:Hpick;
    simpl in Hst; subst e2.
  2:{ simpl. eapply ro_pick_failed; eauto. by rewrite Hpick. }
  cbv beta iota.
  rewrite bind_eval, config_item_eval. simpl.
  destruct (duration_messages (_config e)) as [dur|] eqn:Hdur; simpl.
  2:{ eapply ro_no_duration; eauto. by rewrite Hpick. }
  unfold set_session_history at 1. simpl.
  change (history_of (after_bump e s c) s) with (history_of e s).
  rewrite insert_insert_eq.
  eapply ro_assigned; eauto. by rewrite Hpick.
Qed.

(** ** What a round decision leaves behind *)

Lemma round_outcome_config e s c act rnd r e' :
  round_outcome e s c act rnd r e' → _config e' = _config e.
Proof. by destruct 1. Qed.

Lemma decided_lookup c d e : _round_decisions (decided c d e) !! c = Some d.
Proof. unfold decided. simpl. by rewrite lookup_insert_eq. Qed.

Lemma decided_lookup_ne c c' d e :
  c ≠ c' → _round_decisions (decided c d e) !! c' = _round_decisions e !! c'.
Proof. intros. unfold decided. simpl. by rewrite lookup_insert_ne. Qed.

Lemma round_outcome_frame e s c act rnd r e' c' :
  round_outcome e s c act rnd r e' → c ≠ c' →
  _round_decisions e' !! c' = _round_decisions e !! c'.
Proof.
  destruct 1; intros Hne; simpl; try done;
    by rewrite lookup_insert_ne.
Qed.

Lemma round_outcome_raise e s c act rnd x e' :
  round_outcome e s c act rnd (Raise x) e' →
  _round_decisions e' = _round_decisions e.
Proof. by inversion 1. Qed.

(** A decision that returns normally has stored an entry: the empty one,
    or a candidate for the persona drawn from the active list. *)
Lemma round_outcome_return e s c act rnd e' :
  round_outcome e s c act rnd (Return tt) e' →
  ∃ d, _round_decisions e' !! c = Some d ∧
       (d = empty_decision ∨
        ∃ sab cd obj dur,
          d = mkRoundDecision (Some sab) (Some obj) dur ∧
          act !! (choice rnd mod length act)%nat = Some sab ∧
          cooldown_rounds (_config e) = Some cd ∧
          duration_messages (_config e) = Some dur ∧
          obj ∈ candidates (history_of e s) sab (round_number_for e s c) cd).
Proof.
  inversion 1; subst.
  - eexists. split; [apply decided_lookup|by left].
  - eexists. split; [apply decided_lookup|by left].
  - eexists. split; [simpl; apply lookup_insert_eq|].
    right. eexists _, _, _, _. repeat split; eauto.
    by eapply weighted_pick_elem.
Qed.

Lemma round_outcome_counter e s c act rnd r e' :
  round_outcome e s c act rnd r e' →
  _session_round_counter e' =
  <[s := round_number_for e s c]> (_session_round_counter e).
Proof. by destruct 1. Qed.

Lemma round_outcome_correlation_ids e s c act rnd r e' :
  round_outcome e s c act rnd r e' →
  _session_correlation_ids e' =
  <[s := default ∅ (_session_correlation_ids e !! s) ∪ {[c]}]>
    (_session_correlation_ids e).
Proof. by destruct 1. Qed.

Lemma candidates_compatible history sab rn cd obj :
  obj ∈ candidates history sab rn cd →
  obj ∈ OBJECTIVES ∧
  (compatible_personas obj = [] ∨ sab ∈ compatible_personas obj) ∧
  obj_id obj ∉ recent_objectives history sab rn cd.
Proof.
  unfold candidates, _get_compatible_objectives.
  intros [Hrecent [Hcompat Hobj]%list_elem_of_filter]%list_elem_of_filter.
  done.
Qed.

Lemma recent_objectives_elem history sab rn cd P oid R :
  (P, oid, R) ∈ history → P = sab → (rn - R ≤ cd)%Z →
  oid ∈ recent_objectives history sab rn cd.
Proof.
  intros Hin -> Hle. unfold recent_objectives.
  apply elem_of_list_to_set, list_elem_of_fmap.
  exists (sab, oid, R). split; [done|].
  apply list_elem_of_filter. by split.
Qed.

(** ** Evaluating a request *)

Lemma call_disabled e k : is_enabled e = false → call k e = (Return None, e).
Proof.
  unfold call, get_objective_for_persona, is_enabled.
  rewrite bind_eval. simpl. by intros ->.
Qed.

Lemma replay_eval c d p e :
  _round_decisions e !! c = Some d →
  match objective d with
  | Some obj =>
      if bool_decide (saboteur d ≠ Some p) then mret None
      else if (messages_remaining d <=? 0)%Z then mret None
      else
        store_decision c
          (mkRoundDecision (saboteur d) (objective d) (messages_remaining d - 1));;
        mret (Some (prompt obj))
  | None => mret None
  end e = (Return (replay d p).1, decided c (replay d p).2 e).
Proof.
  intros Hd.
  assert (decided c d e = e) as Hid.
  { unfold decided. rewrite insert_id by done. by destruct e. }
  unfold replay. destruct (objective d) as [obj|]; [|by simpl; rewrite Hid].
  destruct (bool_decide _); [by simpl; rewrite Hid|].
  destruct (_ <=? _)%Z; [by simpl; rewrite Hid|]. done.
Qed.

(** A request for a round that is already decided replays the decision. *)
Lemma call_known e k d :
  is_enabled e = true →
  _round_decisions e !! correlation_id k = Some d →
  call k e =
  (Return (replay d (persona k)).1,
   decided (correlation_id k) (replay d (persona k)).2 e).
Proof.
  intros Hen Hd. unfold call, get_objective_for_persona.
  unfold is_enabled in Hen.
  rewrite bind_eval. simpl. rewrite Hen. simpl.
  rewrite bind_eval. unfold gets at 1. cbv beta iota.
  rewrite bool_decide_eq_false_2.
  2:{ intros Hdom. apply Hdom, elem_of_dom. by eexists. }
  rewrite bind_eval. unfold mret at 1, M_ret at 1. cbv beta iota.
  rewrite bind_eval. unfold gets at 1. cbv beta iota.
  rewrite Hd. by apply replay_eval.
Qed.

(** A request for a new round decides it first. *)
Lemma call_new e k :
  is_enabled e = true →
  _round_decisions e !! correlation_id k = None →
  call k e =
  match _make_round_decision (session_id k) (correlation_id k)
          (active_personas k) (draws k) e with
  | (Return _, e1) =>
      match _round_decisions e1 !! correlation_id k with
      | Some d =>
          (Return (replay d (persona k)).1,
           decided (correlation_id k) (replay d (persona k)).2 e1)
      | None => (Raise (KeyError (correlation_id k)), e1)
      end
  | (Raise x, e1) => (Raise x, e1)
  end.
Proof.
  intros Hen Hd. unfold call, get_objective_for_persona.
  unfold is_enabled in Hen.
  rewrite bind_eval. simpl. rewrite Hen. simpl.
  rewrite bind_eval. unfold gets at 1. cbv beta iota.
  rewrite bool_decide_eq_true_2.
  2:{ by apply not_elem_of_dom. }
  rewrite bind_eval.
  destruct (_make_round_decision _ _ _ _ e) as [[[]|x] e1]; [|done].
  rewrite bind_eval. unfold gets at 1. cbv beta iota.
  destruct (_round_decisions e1 !! correlation_id k) as [d|] eqn:Hd1;
    [|done].
  by apply replay_eval.
Qed.

(** ** One request *)

Lemma call_config e k : _config (call k e).2 = _config e.
Proof.
  destruct (is_enabled e) eqn:Hen; [|by rewrite call_disabled].
  destruct (_round_decisions e !! correlation_id k) as [d|] eqn:Hd.
  - by rewrite (call_known e k d).
  - rewrite call_new by done.
    pose proof (make_round_decision_outcome (session_id k) (correlation_id k)
                  (active_personas k) (draws k) e) as Hout.
    apply round_outcome_config in Hout.
    destruct (_make_round_decision _ _ _ _ e) as [[[]|x] e1]; simpl in *;
      [|done].
    by destruct (_round_decisions e1 !! correlation_id k).
Qed.

Lemma call_enabled e k : is_enabled (call k e).2 = is_enabled e.
Proof. unfold is_enabled. by rewrite call_config. Qed.

Lemma run_config cs e : _config (run cs e) = _config e.
Proof.
  revert e. induction cs as [|k cs IH]; intros e; simpl; [done|].
  by rewrite IH, call_config.
Qed.

Lemma run_enabled cs e : is_enabled (run cs e) = is_enabled e.
Proof. unfold is_enabled. by rewrite run_config. Qed.

(** Requests for other rounds do not touch the decision of round [c]. *)
Lemma call_frame e k c :
  correlation_id k ≠ c →
  _round_decisions (call k e).2 !! c = _round_decisions e !! c.
Proof.
  intros Hne.
  destruct (is_enabled e) eqn:Hen; [|by rewrite call_disabled].
  destruct (_round_decisions e !! correlation_id k) as [d|] eqn:Hd.
  - rewrite (call_known e k d) by done. simpl. by rewrite lookup_insert_ne.
  - rewrite call_new by done.
    pose proof (make_round_decision_outcome (session_id k) (correlation_id k)
                  (active_personas k) (draws k) e) as Hout.
    eapply round_outcome_frame in Hout; [|exact Hne].
    destruct (_make_round_decision _ _ _ _ e) as [[[]|x] e1]; simpl in *;
      [|done].
    destruct (_round_decisions e1 !! correlation_id k); simpl; [|done].
    by rewrite lookup_insert_ne.
Qed.

(** A stored decision is only ever replaced by its own replay. *)
Lemma call_decision_at e k c d :
  _round_decisions e !! c = Some d →
  _round_decisions (call k e).2 !! c =
  Some (if bool_decide (correlation_id k = c) && is_enabled e
        then (replay d (persona k)).2 else d).
Proof.
  intros Hd. destruct (is_enabled e) eqn:Hen.
  - case_bool_decide as Hc; simpl.
    + subst c. rewrite (call_known e k d) by done. apply decided_lookup.
    + by rewrite call_frame.
  - rewrite andb_false_r. by rewrite call_disabled.
Qed.

Lemma replay_saboteur d p : saboteur (replay d p).2 = saboteur d.
Proof. unfold replay. by repeat case_match. Qed.

Lemma replay_objective d p : objective (replay d p).2 = objective d.
Proof. unfold replay. by repeat case_match. Qed.

Lemma replay_empty p : replay empty_decision p = (None, empty_decision).
Proof. reflexivity. Qed.

Lemma replay_assigned P O n p :
  replay (mkRoundDecision (Some P) (Some O) n) p =
  if bool_decide (p = P) && (0 <? n)%Z
  then (Some (prompt O), mkRoundDecision (Some P) (Some O) (n - 1))
  else (None, mkRoundDecision (Some P) (Some O) n).
Proof.
  unfold replay. simpl.
  destruct (decide (p = P)) as [->|Hne].
  - rewrite bool_decide_eq_false_2 by (by intros []).
    rewrite bool_decide_eq_true_2 by done. simpl.
    destruct (Z.leb_spec n 0), (Z.ltb_spec 0 n); (done || lia).
  - rewrite bool_decide_eq_true_2 by congruence.
    by rewrite bool_decide_eq_false_2.
Qed.

(** A request for a decided round leaves the session maps alone. *)
Lemma call_known_sessions e k d :
  is_enabled e = true →
  _round_decisions e !! correlation_id k = Some d →
  _session_round_counter (call k e).2 = _session_round_counter e ∧
  _session_correlation_ids (call k e).2 = _session_correlation_ids e ∧
  _session_history (call k e).2 = _session_history e.
Proof. intros Hen Hd. by rewrite (call_known e k d). Qed.

(** A request that returns has its round decided. *)
Lemma call_return_decided e k r :
  is_enabled e = true → (call k e).1 = Return r →
  is_Some (_round_decisions (call k e).2 !! correlation_id k).
Proof.
  intros Hen.
  destruct (_round_decisions e !! correlation_id k) as [d|] eqn:Hd.
  - rewrite (call_known e k d) by done. intros _. cbn [fst snd].
    rewrite decided_lookup. by eexists.
  - rewrite call_new by done.
    destruct (_make_round_decision _ _ _ _ e) as [[[]|x] e1]; [|done].
    destruct (_round_decisions e1 !! correlation_id k); [|done].
    intros _. cbn [fst snd]. rewrite decided_lookup. by eexists.
Qed.

(** The round counter after the first request of a round. *)
Lemma call_new_counter e k :
  is_enabled e = true →
  _round_decisions e !! correlation_id k = None →
  _session_round_counter (call k e).2 =
  <[session_id k := round_number_for e (session_id k) (correlation_id k)]>
    (_session_round_counter e).
Proof.
  intros Hen Hd. rewrite call_new by done.
  pose proof (make_round_decision_outcome (session_id k) (correlation_id k)
                (active_personas k) (draws k) e) as Hout.
  apply round_outcome_counter in Hout.
  destruct (_make_round_decision _ _ _ _ e) as [[[]|x] e1]; simpl in *;
    [|done].
  by destruct (_round_decisions e1 !! correlation_id k).
Qed.

(** ** Runs *)

Lemma run_decided cs e c :
  is_Some (_round_decisions e !! c) →
  is_Some (_round_decisions (run cs e) !! c).
Proof.
  revert e. induction cs as [|k cs IH]; intros e [d Hd]; simpl; [by eexists|].
  apply IH. rewrite (call_decision_at e k c d) by done. by eexists.
Qed.

Lemma run_empty_decision cs e c :
  _round_decisions e !! c = Some empty_decision →
  _round_decisions (run cs e) !! c = Some empty_decision.
Proof.
  revert e. induction cs as [|k cs IH]; intros e Hd; simpl; [done|].
  apply IH. rewrite (call_decision_at e k c _ Hd).
  by destruct (_ && _).
Qed.

Lemma requests_for_cons c p k cs :
  requests_for c p (k :: cs) =
  ((if bool_decide (correlation_id k = c ∧ persona k = p) then 1 else 0)
   + requests_for c p cs)%nat.
Proof.
  unfold requests_for. rewrite filter_cons.
  case_bool_decide; by case_decide.
Qed.

Lemma remaining_step (d : Z) (n : nat) :
  (0 < d)%Z → remaining (d - 1) n = remaining d (S n).
Proof.
  intros Hd. unfold remaining.
  destruct (Z.leb_spec (d - 1) 0), (Z.leb_spec d 0); lia.
Qed.

Lemma remaining_spent (d : Z) (n : nat) : (d ≤ 0)%Z → remaining d n = d.
Proof. intros Hd. unfold remaining. destruct (Z.leb_spec d 0); lia. Qed.

Lemma remaining_pos (d : Z) (n : nat) : (0 <? remaining d n)%Z = (Z.of_nat n <? d)%Z.
Proof.
  unfold remaining.
  destruct (Z.leb_spec d 0), (Z.ltb_spec (Z.of_nat n) d);
    destruct (Z.ltb_spec 0 (Z.max 0 (d - Z.of_nat n)));
    destruct (Z.ltb_spec 0 d); lia.
Qed.

(** The decision of an assigned round after any run: same saboteur, same
    objective, and the uses not yet consumed by the saboteur's requests. *)
Lemma run_assigned cs e c P O (d : Z) :
  is_enabled e = true →
  _round_decisions e !! c = Some (mkRoundDecision (Some P) (Some O) d) →
  _round_decisions (run cs e) !! c =
  Some (mkRoundDecision (Some P) (Some O) (remaining d (requests_for c P cs))).
Proof.
  revert e d. induction cs as [|k cs IH]; intros e d Hen Hd; simpl.
  - rewrite Hd. do 2 f_equal. unfold remaining, requests_for. simpl.
    destruct (Z.leb_spec d 0); lia.
  - rewrite requests_for_cons.
    pose proof (call_decision_at e k c _ Hd) as Hstep.
    rewrite Hen, andb_true_r, replay_assigned in Hstep.
    assert (is_enabled (call k e).2 = true) as Hen'
      by (by rewrite call_enabled).
    destruct (decide (correlation_id k = c)) as [Hc|Hc];
      [destruct (decide (persona k = P)) as [Hp|Hp]|].
    + rewrite (bool_decide_eq_true_2 (_ ∧ _)) by done.
      rewrite !bool_decide_eq_true_2 in Hstep by done. simpl in Hstep.
      destruct (Z.ltb_spec 0 d) as [Hpos|Hspent]; simpl in Hstep.
      * rewrite (IH _ _ Hen' Hstep). by rewrite remaining_step.
      * rewrite (IH _ _ Hen' Hstep). by rewrite !remaining_spent.
    + rewrite (bool_decide_eq_false_2 (_ ∧ _)) by (by intros []).
      rewrite (bool_decide_eq_false_2 (persona k = P)) in Hstep by done.
      rewrite (bool_decide_eq_true_2 (correlation_id k = c)) in Hstep by done.
      simpl in Hstep.
      by rewrite (IH _ _ Hen' Hstep).
    + rewrite (bool_decide_eq_false_2 (_ ∧ _)) by (by intros []).
      rewrite (bool_decide_eq_false_2 (correlation_id k = c)) in Hstep by done.
      by rewrite (IH _ _ Hen' Hstep).
Qed.

(** ** The disabled switch *)

(** C7. With [enabled = false] every request returns none and leaves the
    whole engine as it was: the round decisions, the cooldown histories,
    the round counters and the seen correlation ids. *)
Theorem disabled_engine_is_inert e s c p (active : list string) (rnd : Draws) :
  enabled (_config e) = Some false →
  get_objective_for_persona s c p active rnd e = (Return None, e).
Proof.
  intros Hoff. apply (call_disabled e (mkCall s c p active rnd)).
  unfold is_enabled. by rewrite Hoff.
Qed.

Lemma disabled_engine_is_inert_witness :
  get_objective_for_persona "s1" "c1" "gandalf" scenario_personas scenario_draws
    (__init__ (Some (mkConfig (Some false) None None None None false))) =
  (Return None, __init__ (Some (mkConfig (Some false) None None None None false))).
Proof. apply disabled_engine_is_inert. reflexivity. Defined.

(** ** The first request of a round *)

(** The first request decides the round and is then served like any later
    one, from the engine in which the decision was just stored. *)
Lemma first_request_replays e k :
  is_enabled e = true →
  _round_decisions e !! correlation_id k = None →
  (_make_round_decision (session_id k) (correlation_id k)
     (active_personas k) (draws k) e).1 = Return tt →
  call k e =
  call k (_make_round_decision (session_id k) (correlation_id k)
            (active_personas k) (draws k) e).2.
Proof.
  intros Hen Hnew Hret. rewrite (call_new e k) by done.
  pose proof (make_round_decision_outcome (session_id k) (correlation_id k)
                (active_personas k) (draws k) e) as Hout.
  destruct (_make_round_decision _ _ _ _ e) as [r e1]. simpl in *. subst r.
  pose proof (round_outcome_config _ _ _ _ _ _ _ Hout) as Hcfg.
  apply round_outcome_return in Hout as (d & Hd & _).
  rewrite Hd. symmetry. apply call_known; [|done].
  unfold is_enabled in *. by rewrite Hcfg.
Qed.

Lemma run_disabled cs e : is_enabled e = false → run cs e = e.
Proof.
  intros Hen. induction cs as [|k cs IH]; simpl; [done|].
  by rewrite (call_disabled e k Hen).
Qed.

(** Only an enabled engine ever stores a decision. *)
Lemma reachable_decided_enabled e c :
  reachable e → is_Some (_round_decisions e !! c) → is_enabled e = true.
Proof.
  intros (config & cs & ->) Hsome.
  destruct (is_enabled (__init__ config)) eqn:Hen.
  { by rewrite run_enabled. }
  rewrite run_disabled in Hsome by done.
  unfold __init__ in Hsome. simpl in Hsome.
  rewrite lookup_empty in Hsome. by apply is_Some_None in Hsome.
Qed.

(** ** Round stability and the duration bound *)

(** The requests of a decided, assigned round. *)
Lemma assigned_round_requests e c P O (d : Z) (pre : list Call) k :
  is_enabled e = true →
  _round_decisions e !! c = Some (mkRoundDecision (Some P) (Some O) d) →
  correlation_id k = c →
  (call k (run pre e)).1 =
    Return (if bool_decide (persona k = P) &&
               (Z.of_nat (requests_for c P pre) <? d)%Z
            then Some (prompt O) else None) ∧
  (persona k ≠ P →
   _round_decisions (call k (run pre e)).2 !! c =
   _round_decisions (run pre e) !! c).
Proof.
  intros Hen Hd Hc. subst c.
  pose proof (run_assigned pre e _ P O d Hen Hd) as Hrun.
  assert (is_enabled (run pre e) = true) as Hen' by (by rewrite run_enabled).
  rewrite (call_known _ k _ Hen' Hrun), replay_assigned, remaining_pos.
  split.
  - cbn [fst]. by destruct (_ && _).
  - intros Hne. cbn [snd]. rewrite decided_lookup, Hrun.
    by rewrite bool_decide_eq_false_2.
Qed.

Lemma run_snoc (cs : list Call) k e :
  run (cs ++ [k]) e = (call k (run cs e)).2.
Proof. revert e. induction cs as [|k' cs IH]; intros e; simpl; [done|apply IH]. Qed.

Lemma requests_for_snoc c p (cs : list Call) k :
  requests_for c p (cs ++ [k]) =
  (requests_for c p cs
   + if bool_decide (correlation_id k = c ∧ persona k = p) then 1 else 0)%nat.
Proof.
  unfold requests_for. rewrite filter_app, length_app. f_equal.
  rewrite filter_cons, filter_nil. case_bool_decide; by case_decide.
Qed.

(** The requests of a round, the one that opens it included: the run
    [pre ++ [k]] starts with the request [k0] that finds [c] undecided
    and decides it. *)
Lemma opened_round_requests e k0 c P O (d : Z) (pre : list Call) k
    (rest : list Call) :
  is_enabled e = true →
  correlation_id k0 = c →
  _round_decisions e !! c = None →
  (_make_round_decision (session_id k0) c (active_personas k0) (draws k0) e).1
    = Return tt →
  _round_decisions
    (_make_round_decision (session_id k0) c (active_personas k0) (draws k0) e).2
    !! c = Some (mkRoundDecision (Some P) (Some O) d) →
  pre ++ [k] = k0 :: rest →
  correlation_id k = c →
  (call k (run pre e)).1 =
    Return (if bool_decide (persona k = P) &&
               (Z.of_nat (requests_for c P pre) <? d)%Z
            then Some (prompt O) else None) ∧
  _round_decisions (call k (run pre e)).2 !! c =
    Some (mkRoundDecision (Some P) (Some O)
            (remaining d (requests_for c P (pre ++ [k])))).
Proof.
  intros Hen Hc0 Hnew Hret Hdec Hrun Hc. subst c.
  set (e1 := (_make_round_decision (session_id k0) (correlation_id k0)
                (active_personas k0) (draws k0) e).2) in *.
  assert (call k0 e = call k0 e1) as Hfirst
    by (by apply first_request_replays).
  assert (is_enabled e1 = true) as Hen1.
  { pose proof (make_round_decision_outcome (session_id k0) (correlation_id k0)
                  (active_personas k0) (draws k0) e) as Hout.
    apply round_outcome_config in Hout. fold e1 in Hout.
    unfold is_enabled in *. by rewrite Hout. }
  assert (call k (run pre e) = call k (run pre e1)) as Hsame.
  { destruct pre as [|k0' pre]; simpl in Hrun.
    - injection Hrun as -> _. exact Hfirst.
    - injection Hrun as -> _. simpl. by rewrite Hfirst. }
  rewrite Hsame. split.
  - by apply (assigned_round_requests e1 _ P O d pre k).
  - rewrite <- run_snoc. by apply run_assigned.
Qed.

(** C1. When the request [k0] that opens round [c] decides it with
    objective [O] for saboteur [P] and [d] uses, then along every run of
    requests that starts with [k0] (any sessions, rounds and personas in
    between), each request for [c], the opening one included, gets [O]'s
    prompt exactly when it comes from [P] and fewer than [d] earlier
    requests of [P] for [c] were made, and none otherwise; after it the
    stored decision is still [O] for [P], with [d] less the number of
    [P]'s requests so far (not below zero) as [messages_remaining]: a
    request of another persona leaves it as it was. *)
Theorem objective_for_first_d_calls e k0 c P O (d : Z) (rest : list Call) :
  is_enabled e = true →
  correlation_id k0 = c →
  _round_decisions e !! c = None →
  (_make_round_decision (session_id k0) c (active_personas k0) (draws k0) e).1
    = Return tt →
  _round_decisions
    (_make_round_decision (session_id k0) c (active_personas k0) (draws k0) e).2
    !! c = Some (mkRoundDecision (Some P) (Some O) d) →
  ∀ pre k post,
    k0 :: rest = pre ++ k :: post →
    correlation_id k = c →
    (call k (run pre e)).1 =
      Return (if bool_decide (persona k = P) &&
                 (Z.of_nat (requests_for c P pre) <? d)%Z
              then Some (prompt O) else None) ∧
    _round_decisions (call k (run pre e)).2 !! c =
      Some (mkRoundDecision (Some P) (Some O)
              (remaining d (requests_for c P (pre ++ [k])))) ∧
    (persona k ≠ P →
     remaining d (requests_for c P (pre ++ [k])) =
     remaining d (requests_for c P pre)).
Proof.
  intros Hen Hc0 Hnew Hret Hdec pre k post Hrun Hc.
  assert (∃ rest', pre ++ [k] = k0 :: rest') as [rest' Hpre].
  { destruct pre as [|k0' pre]; simpl in *.
    - injection Hrun as -> _. by exists [].
    - injection Hrun as -> _. by eexists. }
  destruct (opened_round_requests e k0 c P O d pre k rest'
              Hen Hc0 Hnew Hret Hdec Hpre Hc) as [Hans Hstored].
  split; [done|]. split; [done|].
  intros Hp. rewrite requests_for_snoc.
  rewrite bool_decide_eq_false_2 by (by intros [_ ?]).
  by rewrite Nat.add_0_r.
Qed.

(** The first round of the scenario from the fresh engine: ["gandalf"]
    opens it and is answered twice; its third request, after one of
    ["angry_chef"], gets none. *)
Lemma objective_for_first_d_calls_witness :
  (call (scenario_call "gandalf") (__init__ None)).1 =
    Return (Some (prompt the_ring)) ∧
  (call (scenario_call "gandalf")
     (run [scenario_call "gandalf"; scenario_call "angry_chef";
           scenario_call "gandalf"] (__init__ None))).1 = Return None.
Proof.
  pose proof (objective_for_first_d_calls (__init__ None)
                (scenario_call "gandalf") "c1" "gandalf" the_ring 2
                [scenario_call "angry_chef"; scenario_call "gandalf";
                 scenario_call "gandalf"]) as H.
  split.
  - refine (proj1 (H _ _ _ _ _ [] (scenario_call "gandalf")
                     [scenario_call "angry_chef"; scenario_call "gandalf";
                      scenario_call "gandalf"] _ _)).
    all: vm_compute; reflexivity.
  - refine (proj1 (H _ _ _ _ _
                     [scenario_call "gandalf"; scenario_call "angry_chef";
                      scenario_call "gandalf"]
                     (scenario_call "gandalf") [] _ _)).
    all: vm_compute; reflexivity.
Defined.

(** ** A failed activation roll *)

Lemma roll_fails (r ch : Q) : (ch < r)%Q → Qle_bool r ch = false.
Proof.
  intros Hlt. destruct (Qle_bool r ch) eqn:E; [|done].
  apply Qle_bool_iff in E. by apply Qlt_not_le in Hlt.
Qed.

Lemma round_number_new e s c :
  c ∉ default (∅ : gset string) (_session_correlation_ids e !! s) →
  round_number_for e s c =
  (default 0 (_session_round_counter e !! s) + 1)%Z.
Proof. intros Hnew. unfold round_number_for. by rewrite bool_decide_eq_true_2. Qed.

(** C6. On the first request for a correlation id that is new to the engine
    and to the session, with an activation roll strictly above
    [chance_per_round]: the request returns none, the empty decision is
    stored, every later request for that correlation id returns none
    whatever ran in between, and the round counter of the session has
    grown by exactly one; the counter grows by one for every roll and
    whatever the request then does. *)
Theorem failed_roll_skips_round e k (ch : Q) :
  is_enabled e = true →
  chance_per_round (_config e) = Some ch →
  _round_decisions e !! correlation_id k = None →
  correlation_id k ∉
    default (∅ : gset string) (_session_correlation_ids e !! session_id k) →
  (ch < roll (draws k))%Q →
  (call k e).1 = Return None ∧
  _round_decisions (call k e).2 !! correlation_id k = Some empty_decision ∧
  (∀ cs k', correlation_id k' = correlation_id k →
            (call k' (run cs (call k e).2)).1 = Return None) ∧
  _session_round_counter (call k e).2 !! session_id k =
    Some (default 0 (_session_round_counter e !! session_id k) + 1)%Z ∧
  (∀ p' active' rnd',
     _session_round_counter
       (call (mkCall (session_id k) (correlation_id k) p' active' rnd') e).2
       !! session_id k =
     Some (default 0 (_session_round_counter e !! session_id k) + 1)%Z).
Proof.
  intros Hen Hch Hnew Hseen Hroll.
  apply roll_fails in Hroll.
  assert (call k e =
          (Return None,
           decided (correlation_id k) empty_decision
             (decided (correlation_id k) empty_decision
                (after_bump e (session_id k) (correlation_id k))))) as Hcall.
  { rewrite call_new by done.
    pose proof (make_round_decision_outcome (session_id k) (correlation_id k)
                  (active_personas k) (draws k) e) as Hout.
    destruct (_make_round_decision _ _ _ _ e) as [r e1]. simpl in Hout.
    inversion Hout; subst; try congruence.
    by rewrite decided_lookup, replay_empty. }
  assert (_round_decisions (call k e).2 !! correlation_id k =
          Some empty_decision) as Hstored.
  { rewrite Hcall. apply decided_lookup. }
  split; [by rewrite Hcall|]. split; [done|]. split; [|split].
  - intros cs k' Hk'.
    pose proof (run_empty_decision cs _ _ Hstored) as Hrun.
    rewrite <- Hk' in Hrun.
    rewrite (call_known _ k' _) by
      (rewrite ?run_enabled, ?call_enabled; done).
    by rewrite replay_empty.
  - rewrite call_new_counter, lookup_insert_eq by done.
    by rewrite round_number_new.
  - intros p' active' rnd'.
    rewrite call_new_counter by done. simpl.
    rewrite lookup_insert_eq. by rewrite round_number_new.
Qed.

(** Round ["c2"] of the scenario: the fresh engine, roll 1/2 > 0.33. *)
Lemma failed_roll_skips_round_witness :
  (call (scenario_call_2 "gandalf") (__init__ None)).1 = Return None ∧
  _session_round_counter (call (scenario_call_2 "gandalf") (__init__ None)).2
    !! "s1" = Some 1%Z.
Proof.
  pose proof (failed_roll_skips_round (__init__ None)
                (scenario_call_2 "gandalf") float_0_33
                eq_refl eq_refl eq_refl) as H.
  destruct H as (Hres & _ & _ & Hctr & _).
  - vm_compute. set_solver.
  - reflexivity.
  - split; [exact Hres|exact Hctr].
Defined.

(** The second scenario of the specification: after round ["c1"], round
    ["c2"] fails its roll; all three personas get none and the counter of
    ["s1"] is 2. *)
Example scenario_round_two :
  let e1 := run [scenario_call "angry_chef"; scenario_call "gandalf";
                 scenario_call "your_nan"] (__init__ None) in
  (call (scenario_call_2 "angry_chef") e1).1 = Return None ∧
  (call (scenario_call_2 "gandalf")
     (run [scenario_call_2 "angry_chef"] e1)).1 = Return None ∧
  (call (scenario_call_2 "your_nan")
     (run [scenario_call_2 "angry_chef"; scenario_call_2 "gandalf"] e1)).1 =
    Return None ∧
  _session_round_counter
    (run [scenario_call_2 "angry_chef"; scenario_call_2 "gandalf";
          scenario_call_2 "your_nan"] e1) !! "s1" = Some 2%Z.
Proof. vm_compute. repeat split; reflexivity. Qed.

(** ** Compatibility *)

Lemma compatible_empty : compatible_decision empty_decision.
Proof. by intros o. Qed.

Lemma compatible_replay d p :
  compatible_decision d → compatible_decision (replay d p).2.
Proof.
  unfold compatible_decision. by rewrite replay_saboteur, replay_objective.
Qed.

Lemma all_compatible_decided e c d :
  all_compatible e → compatible_decision d → all_compatible (decided c d e).
Proof.
  intros He Hd c' d'. destruct (decide (c = c')) as [<-|Hne].
  - rewrite decided_lookup. by intros [= <-].
  - rewrite decided_lookup_ne by done. apply He.
Qed.

Lemma round_outcome_compatible e s c act rnd r e' :
  round_outcome e s c act rnd r e' → all_compatible e → all_compatible e'.
Proof.
  intros Hout He. destruct Hout; try done.
  - by apply all_compatible_decided; [|apply compatible_empty].
  - by apply (all_compatible_decided (with_history _ _));
      [|apply compatible_empty].
  - match goal with H : (_weighted_pick _ _ _).1 = Return _ |- _ =>
      apply weighted_pick_elem, candidates_compatible in H
        as (_ & Hcompat & _) end.
    intros c' d'. simpl.
    destruct (decide (c = c')) as [<-|Hne].
    + rewrite lookup_insert_eq. intros [= <-] o [= <-]. simpl. eauto.
    + rewrite lookup_insert_ne by done. apply He.
Qed.

Lemma call_compatible e k : all_compatible e → all_compatible (call k e).2.
Proof.
  intros He.
  destruct (is_enabled e) eqn:Hen; [|by rewrite call_disabled].
  destruct (_round_decisions e !! correlation_id k) as [d|] eqn:Hd.
  - rewrite (call_known e k d) by done. cbn [snd].
    apply all_compatible_decided; [done|]. apply compatible_replay. eauto.
  - rewrite call_new by done.
    pose proof (make_round_decision_outcome (session_id k) (correlation_id k)
                  (active_personas k) (draws k) e) as Hout.
    apply round_outcome_compatible in Hout; [|done].
    destruct (_make_round_decision _ _ _ _ e) as [[[]|x] e1]; simpl in *;
      [|done].
    destruct (_round_decisions e1 !! correlation_id k) as [d|] eqn:Hd1;
      [|done].
    cbn [snd]. apply all_compatible_decided; [done|].
    apply compatible_replay. eauto.
Qed.

Lemma run_compatible cs e : all_compatible e → all_compatible (run cs e).
Proof.
  revert e. induction cs as [|k cs IH]; intros e He; simpl; [done|].
  by apply IH, call_compatible.
Qed.

(** C3. In every reachable engine, a stored decision with an objective has
    a saboteur, and the objective's [compatible_personas] is empty or
    contains that saboteur; and an objective of the catalog with empty
    [compatible_personas] is among the compatible objectives of every
    persona. *)
Theorem stored_decisions_compatible e :
  reachable e →
  (∀ c d o,
     _round_decisions e !! c = Some d → objective d = Some o →
     ∃ p, saboteur d = Some p ∧
          (compatible_personas o = [] ∨ p ∈ compatible_personas o)) ∧
  (∀ o p, o ∈ OBJECTIVES → compatible_personas o = [] →
          o ∈ _get_compatible_objectives p).
Proof.
  intros (config & cs & ->). split.
  - intros c d o Hd Ho.
    assert (all_compatible (__init__ config)) as Hinit.
    { intros c' d'. unfold __init__. simpl. by rewrite lookup_empty. }
    exact (run_compatible cs _ Hinit c d Hd o Ho).
  - intros o p Ho Hempty. unfold _get_compatible_objectives.
    apply list_elem_of_filter. split; [by left|done].
Qed.

(** The decision of round ["c1"] of the scenario. *)
Lemma stored_decisions_compatible_witness :
  ∃ p, saboteur (mkRoundDecision (Some "gandalf") (Some the_ring) 1) = Some p ∧
       (compatible_personas the_ring = [] ∨ p ∈ compatible_personas the_ring).
Proof.
  refine (proj1 (stored_decisions_compatible
                   (run [scenario_call "gandalf"] (__init__ None)) _)
            "c1" (mkRoundDecision (Some "gandalf") (Some the_ring) 1) the_ring
            _ _).
  - by exists None, [scenario_call "gandalf"].
  - vm_compute. reflexivity.
  - reflexivity.
Defined.

(** ** Cooldown *)

(** C2. Let [(P, O, R)] be in the cooldown history of a session and let a
    request open a new round of that session; [R'] is the round number of
    that round (the session's counter after the request).  If
    [R' - R <= cooldown_rounds] then [O] is not among the candidates for
    saboteur [P], and the decision stored for the round does not give
    [O] to [P]. *)
Theorem cooldown_enforced e k P oid (R cd : Z) :
  is_enabled e = true →
  cooldown_rounds (_config e) = Some cd →
  _round_decisions e !! correlation_id k = None →
  (P, oid, R) ∈ history_of e (session_id k) →
  (round_number_for e (session_id k) (correlation_id k) - R ≤ cd)%Z →
  _session_round_counter (call k e).2 !! session_id k =
    Some (round_number_for e (session_id k) (correlation_id k)) ∧
  (∀ o, o ∈ candidates (history_of e (session_id k)) P
              (round_number_for e (session_id k) (correlation_id k)) cd →
        obj_id o ≠ oid) ∧
  (∀ d o, _round_decisions (call k e).2 !! correlation_id k = Some d →
          saboteur d = Some P → objective d = Some o → obj_id o ≠ oid).
Proof.
  intros Hen Hcd Hnew Hin Hle.
  assert (∀ o, o ∈ candidates (history_of e (session_id k)) P
                     (round_number_for e (session_id k) (correlation_id k)) cd →
               obj_id o ≠ oid) as Hcand.
  { intros o (_ & _ & Hrecent)%candidates_compatible Heq.
    apply Hrecent. rewrite Heq. by eapply recent_objectives_elem. }
  split; [|split; [done|]].
  { by rewrite call_new_counter, lookup_insert_eq. }
  intros d o. rewrite call_new by done.
  pose proof (make_round_decision_outcome (session_id k) (correlation_id k)
                (active_personas k) (draws k) e) as Hout.
  destruct (_make_round_decision _ _ _ _ e) as [[[]|x] e1] eqn:Hmrd;
    simpl in Hout.
  - apply round_outcome_return in Hout as (d1 & Hd1 & Hshape).
    rewrite Hd1. cbn [snd]. rewrite decided_lookup. intros [= <-].
    rewrite replay_saboteur, replay_objective.
    destruct Hshape as [->|(sab & cd' & obj & dur & -> & _ & Hcd' & _ & Hobj)];
      [done|].
    simpl. intros [= ->] [= <-].
    rewrite Hcd in Hcd'. injection Hcd' as <-. by apply Hcand.
  - apply round_outcome_raise in Hout. cbn [snd]. rewrite Hout, Hnew. done.
Qed.

(** Round ["c2"] of session ["s1"] after [the_ring] went to ["gandalf"] in
    round 1. *)
Lemma cooldown_enforced_witness :
  _session_round_counter
    (call (mkCall "s1" "c2" "gandalf" scenario_personas scenario_draws)
       (call (scenario_call "gandalf") (__init__ None)).2).2 !! "s1" =
  Some 2%Z.
Proof.
  refine (proj1 (cooldown_enforced
                   (call (scenario_call "gandalf") (__init__ None)).2
                   (mkCall "s1" "c2" "gandalf" scenario_personas scenario_draws)
                   "gandalf" "the_ring" 1 4 _ _ _ _ _)).
  - reflexivity.
  - reflexivity.
  - vm_compute. reflexivity.
  - vm_compute. constructor.
  - vm_compute. discriminate.
Defined.

(** ** The scenario: round one *)

Lemma filter_all {A} (P : A → Prop) `{∀ x, Decision (P x)} (l : list A) :
  (∀ x, P x) → filter P l = l.
Proof.
  intros HP. induction l as [|x l IH]; [done|].
  rewrite filter_cons_True by done. by rewrite IH.
Qed.

Lemma candidates_no_history sab (rn cd : Z) :
  candidates [] sab rn cd = _get_compatible_objectives sab.
Proof.
  unfold candidates, recent_objectives. simpl.
  apply filter_all. intros o. apply not_elem_of_empty.
Qed.

Lemma gandalf_compatible :
  _get_compatible_objectives "gandalf" =
  [the_ring; pedantic_rules_lawyer; identity_crisis].
Proof. vm_compute. reflexivity. Qed.

(** The weighted pick among the three candidates of ["gandalf"], whose
    running weights are 3, 7 and 8. *)
Lemma gandalf_pick (u : Q) e :
  (_weighted_pick [the_ring; pedantic_rules_lawyer; identity_crisis] u e).1 =
  Return (if Qle_bool 3 (u * 8) then
            if Qle_bool 7 (u * 8) then identity_crisis
            else pedantic_rules_lawyer
          else the_ring).
Proof.
  unfold _weighted_pick, random_choices.
  cbn -[Qle_bool Qmult Z.add int_to_float float_product].
  change (inject_Z (0 + 3 + 4)) with 7%Q.
  change (inject_Z (0 + 3)) with 3%Q.
  change (int_to_float (0 + 3 + 4 + 1)) with (Some 8%Z).
  cbn -[Qle_bool Qmult float_product].
  rewrite (Qleb_comp 3%Q 3%Q (Qeq_refl 3%Q) _ _ (float_product_8 u)).
  rewrite (Qleb_comp 7%Q 7%Q (Qeq_refl 7%Q) _ _ (float_product_8 u)).
  destruct (Qle_bool 3 (u * 8)); [|reflexivity].
  destruct (Qle_bool 7 (u * 8)); reflexivity.
Qed.

(** C8, as the specification words it, fails: ["gandalf"] has three
    candidates, and a pick draw of 1/2 gives the first request the prompt of
    [pedantic_rules_lawyer]. *)
Lemma the_ring_not_only_candidate :
  _get_compatible_objectives "gandalf" ≠ [the_ring] ∧
  (call (mkCall "s1" "c1" "gandalf" scenario_personas (mkDraws 0 1 (1 # 2)))
     (__init__ None)).1 = Return (Some (prompt pedantic_rules_lawyer)) ∧
  Some (prompt pedantic_rules_lawyer) ≠ Some (prompt the_ring).
Proof.
  split; [|split].
  - rewrite gandalf_compatible. discriminate.
  - vm_compute. reflexivity.
  - discriminate.
Qed.

(** C8 (amended). In an engine with the default configuration where round
    ["c1"] is new and session ["s1"] has no cooldown history, with a
    successful activation roll and ["gandalf"] selected: the candidates
    are [the_ring], [pedantic_rules_lawyer] and [identity_crisis]; the
    first request of ["gandalf"] returns the prompt of the one the weighted
    pick selects ([the_ring] when the pick draw is below 3/8); and the
    requests of the other personas under ["c1"] return none. *)
Theorem scenario_round_one e (rnd : Draws) :
  _config e = SABOTAGE_CONFIG →
  _round_decisions e !! "c1" = None →
  history_of e "s1" = [] →
  (roll rnd <= 33 # 100)%Q →
  (choice rnd mod 3 = 1)%nat →
  candidates (history_of e "s1") "gandalf" (round_number_for e "s1" "c1") 4 =
    [the_ring; pedantic_rules_lawyer; identity_crisis] ∧
  (∃ o, o ∈ [the_ring; pedantic_rules_lawyer; identity_crisis] ∧
        (call (mkCall "s1" "c1" "gandalf" scenario_personas rnd) e).1 =
        Return (Some (prompt o))) ∧
  ((pick rnd < 3 # 8)%Q →
   (call (mkCall "s1" "c1" "gandalf" scenario_personas rnd) e).1 =
   Return (Some (prompt the_ring))) ∧
  (∀ cs k', correlation_id k' = "c1" → persona k' ≠ "gandalf" →
            (call k' (run cs
                        (call (mkCall "s1" "c1" "gandalf" scenario_personas rnd)
                              e).2)).1 = Return None).
Proof.
  intros Hcfg Hnew Hhist Hroll Hchoice.
  assert (is_enabled e = true) as Hen by (unfold is_enabled; by rewrite Hcfg).
  assert (candidates (history_of e "s1") "gandalf"
            (round_number_for e "s1" "c1") 4 =
          [the_ring; pedantic_rules_lawyer; identity_crisis]) as Hcand.
  { by rewrite Hhist, candidates_no_history, gandalf_compatible. }
  set (k := mkCall "s1" "c1" "gandalf" scenario_personas rnd).
  set (o := if Qle_bool 3 (pick rnd * 8) then
              if Qle_bool 7 (pick rnd * 8) then identity_crisis
              else pedantic_rules_lawyer
            else the_ring).
  assert (call k e =
          (Return (Some (prompt o)),
           decided "c1" (mkRoundDecision (Some "gandalf") (Some o) 1)
             (set_session_history
                (<["s1" := history_of e "s1"
                           ++ [("gandalf", obj_id o, round_number_for e "s1" "c1")]]>
                   (_session_history e))
                (decided "c1" (mkRoundDecision (Some "gandalf") (Some o) 2)
                   (with_history (after_bump e "s1" "c1") "s1"))))) as Hcall.
  { rewrite call_new by done.
    pose proof (make_round_decision_outcome (session_id k) (correlation_id k)
                  (active_personas k) (draws k) e) as Hout.
    destruct (_make_round_decision _ _ _ _ e) as [r e1]. simpl in Hout.
    assert (Qle_bool (roll rnd) float_0_33 = true) as Hroll'.
    { apply Qle_bool_iff. eapply Qle_trans; [exact Hroll|].
      vm_compute. discriminate. }
    inversion Hout as [Hch|ch Hch Hr|ch Hch Hr Hact|ch sab Hch Hr Hact Hcd
                      |ch sab cd Hch Hr Hact Hcd Hc
                      |ch sab cd x Hch Hr Hact Hcd Hc Hpick
                      |ch sab cd obj Hch Hr Hact Hcd Hc Hpick Hdur
                      |ch sab cd obj dur Hch Hr Hact Hcd Hc Hpick Hdur];
      subst; rewrite Hcfg in *; simpl in *; simplify_eq;
      try (rewrite Hchoice in Hact; simpl in Hact; simplify_eq);
      try (rewrite Hcand in *; try rewrite gandalf_pick in Hpick);
      try congruence.
    injection Hpick as <-. fold o.
    simpl. rewrite lookup_insert_eq. reflexivity. }
  split; [done|]. split; [|split].
  - exists o. split; [|by rewrite Hcall].
    subst o. destruct (Qle_bool 3 _); [destruct (Qle_bool 7 _)|];
      set_solver.
  - intros Hpick. rewrite Hcall. cbn [fst]. subst o.
    destruct (Qle_bool 3 (pick rnd * 8)) eqn:E; [|done].
    apply Qle_bool_iff in E. lra.
  - intros cs k' Hk' Hp.
    assert (_round_decisions (call k e).2 !! "c1" =
            Some (mkRoundDecision (Some "gandalf") (Some o) 1)) as Hd.
    { rewrite Hcall. apply decided_lookup. }
    assert (is_enabled (call k e).2 = true) as Hen'
      by (by rewrite call_enabled).
    destruct (assigned_round_requests _ _ _ _ _ cs k' Hen' Hd Hk') as [-> _].
    by rewrite bool_decide_eq_false_2.
Qed.

(** The scenario on the fresh engine, with the first candidate picked. *)
Lemma scenario_round_one_witness :
  (call (mkCall "s1" "c1" "gandalf" scenario_personas scenario_draws)
     (__init__ None)).1 = Return (Some (prompt the_ring)).
Proof.
  refine (proj1 (proj2 (proj2 (scenario_round_one (__init__ None) scenario_draws
                                 _ _ _ _ _))) _).
  - reflexivity.
  - reflexivity.
  - reflexivity.
  - vm_compute. discriminate.
  - reflexivity.
  - reflexivity.
Defined.

End EngineFacts.

(* ===================================================================== *)
(** * More on the conversation store *)
(* ===================================================================== *)

Section SessionStoreRuns.
Import SessionStore.

Implicit Types (sessions : Sessions) (history : list Turn) (t : Turn) (o : Op).

(** The history of [s'] after one operation. *)
Lemma apply_op_history sessions o s' :
  get_full_history (apply_op sessions o) s' =
  match o with
  | AppendUser s text =>
      if bool_decide (s = s') && negb (is_duplicate (get_full_history sessions s') text)
      then get_full_history sessions s' ++ [mkTurn "user" text None]
      else get_full_history sessions s'
  | AppendAssistant s text p =>
      if bool_decide (s = s')
      then get_full_history sessions s' ++ [mkTurn "assistant" text (Some p)]
      else get_full_history sessions s'
  end.
Proof.
  destruct o as [s text|s text p]; simpl.
  - case_bool_decide as Hs; simpl.
    + subst s'. rewrite append_user_history. by destruct (is_duplicate _ _).
    + unfold get_full_history.
      destruct (is_duplicate (default [] (sessions !! s)) text) eqn:Hd.
      * by rewrite append_user_duplicate.
      * rewrite append_user_fresh by done. by rewrite lookup_insert_ne.
  - rewrite append_assistant_eq. unfold get_full_history.
    case_bool_decide as Hs.
    + subst s'. by rewrite lookup_insert_eq.
    + by rewrite lookup_insert_ne.
Qed.

Lemma apply_ops_prefix sessions (ops : list Op) s :
  get_full_history sessions s `prefix_of`
    get_full_history (foldl apply_op sessions ops) s.
Proof.
  revert sessions. induction ops as [|o ops IH]; intros sessions; simpl.
  - done.
  - etrans; [|apply IH]. rewrite apply_op_history.
    destruct o; destruct (_ && _) || destruct (bool_decide _);
      (done || by apply prefix_app_r).
Qed.

Lemma history_append_only_frame sessions (ops : list Op) s :
  (∀ o, o ∈ ops → match o with
                  | AppendUser s' _ | AppendAssistant s' _ _ => s' ≠ s
                  end) →
  get_full_history (foldl apply_op sessions ops) s =
  get_full_history sessions s.
Proof.
  revert sessions.
  induction ops as [|o ops IH]; intros sessions Hs; simpl; [done|].
  rewrite IH.
  - rewrite apply_op_history.
    pose proof (Hs o (list_elem_of_here _ _)) as Ho.
    destruct o; rewrite bool_decide_eq_false_2 by done; done.
  - intros o' Ho'. apply Hs. by apply list_elem_of_further.
Qed.

(** X1. The store is append-only and sessions are isolated: after any run of
    operations the history a session had before is a prefix of the history
    it has after, so is what [get_messages] rendered, and a session that no
    operation of the run names keeps its history. *)
Theorem history_append_only sessions (ops : list Op) s :
  get_full_history sessions s `prefix_of`
    get_full_history (foldl apply_op sessions ops) s ∧
  get_messages sessions s `prefix_of`
    get_messages (foldl apply_op sessions ops) s ∧
  ((∀ o, o ∈ ops → match o with
                   | AppendUser s' _ | AppendAssistant s' _ _ => s' ≠ s
                   end) →
   get_full_history (foldl apply_op sessions ops) s =
   get_full_history sessions s).
Proof.
  pose proof (apply_ops_prefix sessions ops s) as Hpre.
  split; [done|]. split.
  - rewrite !get_messages_map. destruct Hpre as [more ->].
    rewrite fmap_app. by apply prefix_app_r.
  - clear Hpre. revert sessions.
    induction ops as [|o ops IH]; intros sessions Hs; simpl; [done|].
    rewrite IH.
    + rewrite apply_op_history.
      pose proof (Hs o (list_elem_of_here _ _)) as Ho.
      destruct o; rewrite bool_decide_eq_false_2 by done; done.
    + intros o' Ho'. apply Hs. by apply list_elem_of_further.
Qed.

(** A run on session ["a"] leaves session ["b"] as it was. *)
Lemma history_append_only_witness :
  get_full_history
    (foldl apply_op (append_user __init__ "b" "hello")
       [AppendUser "a" "q"; AppendAssistant "a" "r" "gandalf"]) "b" =
  get_full_history (append_user __init__ "b" "hello") "b".
Proof.
  apply (proj2 (proj2 (history_append_only
                         (append_user __init__ "b" "hello")
                         [AppendUser "a" "q"; AppendAssistant "a" "r" "gandalf"]
                         "b"))).
  intros o Ho.
  apply elem_of_cons in Ho as [->|Ho]; [discriminate|].
  apply elem_of_cons in Ho as [->|Ho]; [discriminate|].
  by apply not_elem_of_nil in Ho.
Defined.

(** ** Deduplication as an invariant *)

Lemma no_repeat_snoc history t :
  (∀ i a b, history !! i = Some a → history !! S i = Some b →
            ¬ repeated_user a b) →
  (∀ a, last history = Some a → ¬ repeated_user a t) →
  ∀ i a b, (history ++ [t]) !! i = Some a → (history ++ [t]) !! S i = Some b →
           ¬ repeated_user a b.
Proof.
  intros Hold Hlast i a b Ha Hb.
  destruct (decide (S i < length history)) as [Hlt|Hge].
  - rewrite lookup_app_l in Ha by lia. rewrite lookup_app_l in Hb by lia.
    eauto.
  - assert (S i = length history) as Hi.
    { apply lookup_lt_Some in Hb. rewrite length_app in Hb. simpl in Hb. lia. }
    rewrite lookup_app_l in Ha by lia.
    rewrite Hi, lookup_app_r, Nat.sub_diag in Hb by lia.
    injection Hb as <-. apply Hlast.
    rewrite last_lookup. by replace (pred (length history)) with i by lia.
Qed.

(** X2. In a store built by the append methods no session ever holds two
    neighbouring user turns with the same content. *)
Theorem no_repeated_user_turn sessions s (i : nat) (a b : Turn) :
  reachable sessions →
  get_full_history sessions s !! i = Some a →
  get_full_history sessions s !! S i = Some b →
  ¬ (role a = "user" ∧ role b = "user" ∧ content a = content b).
Proof.
  intros Hr. revert s i a b.
  induction Hr as [|sessions s0 text Hr IH|sessions s0 text p Hr IH];
    intros s i a b.
  - unfold get_full_history, __init__. by rewrite lookup_empty.
  - change (append_user sessions s0 text)
      with (apply_op sessions (AppendUser s0 text)).
    rewrite apply_op_history.
    destruct (bool_decide (s0 = s) &&
              negb (is_duplicate (get_full_history sessions s) text)) eqn:Hc;
      [|apply IH].
    apply andb_true_iff in Hc as [_ Hd]. apply negb_true_iff in Hd.
    apply no_repeat_snoc; [apply IH|].
    intros a' Hlast (Hra & _ & Hca). simpl in Hca.
    assert (is_duplicate (get_full_history sessions s) text = true) as Hdup.
    { apply is_duplicate_spec. eauto. }
    congruence.
  - change (append_assistant sessions s0 text p)
      with (apply_op sessions (AppendAssistant s0 text p)).
    rewrite apply_op_history.
    destruct (bool_decide (s0 = s)); [|apply IH].
    apply no_repeat_snoc; [apply IH|].
    by intros a' _ (_ & Hrb & _).
Qed.

(** The same text three times in a row is stored once. *)
Lemma no_repeated_user_turn_witness :
  ¬ (role (mkTurn "user" "q" None) = "user" ∧
     role (mkTurn "assistant" "r" (Some "gandalf")) = "user" ∧
     content (mkTurn "user" "q" None) =
     content (mkTurn "assistant" "r" (Some "gandalf"))).
Proof.
  refine (no_repeated_user_turn
            (append_assistant
               (append_user (append_user (append_user __init__ "s" "q") "s" "q")
                            "s" "q") "s" "r" "gandalf")
            "s" 0 _ _ _ _ _).
  - repeat constructor.
  - reflexivity.
  - reflexivity.
Defined.

(** ** Assistant turns are never dropped *)

(** X3. [append_assistant] never deduplicates: after any run of operations a
    session holds as many more assistant turns as the run has
    [append_assistant] calls for it, and each call adds exactly its turn
    at the end, also when the same reply is stored twice in a row. *)
Theorem assistant_turns_counted sessions (ops : list Op) s :
  length (filter (λ t, role t = "assistant")
                 (get_full_history (foldl apply_op sessions ops) s)) =
  (length (filter (λ t, role t = "assistant") (get_full_history sessions s))
   + sum_list ((λ o, match o with
                     | AppendAssistant s' _ _ =>
                         if bool_decide (s' = s) then 1 else 0
                     | AppendUser _ _ => 0
                     end) <$> ops))%nat ∧
  ∀ text p,
    get_full_history
      (append_assistant (append_assistant sessions s text p) s text p) s =
    get_full_history sessions s
      ++ [mkTurn "assistant" text (Some p); mkTurn "assistant" text (Some p)].
Proof.
  split.
  - revert sessions. induction ops as [|o ops IH]; intros sessions; simpl.
    + lia.
    + rewrite IH, apply_op_history.
      destruct o as [s' text|s' text p].
      * destruct (_ && _); [|unfold fmap; lia].
        rewrite filter_app, length_app.
        rewrite filter_cons_False by (simpl; discriminate). simpl.
        unfold fmap. lia.
      * destruct (bool_decide (s' = s)); [|unfold fmap; lia].
        rewrite filter_app, length_app.
        rewrite filter_cons_True by done. simpl. unfold fmap. lia.
  - intros text p. unfold get_full_history.
    rewrite (append_assistant_eq (append_assistant sessions s text p)).
    rewrite lookup_insert_eq, append_assistant_eq, lookup_insert_eq. simpl.
    by rewrite <- app_assoc.
Qed.

(** ** The single-string prompt *)

Lemma prompt_parts_loop history (acc : list string) :
  fold_left (λ parts t, match prompt_part t with
                        | Some x => parts ++ [x]
                        | None => parts
                        end) history acc =
  acc ++ omap prompt_part history.
Proof.
  revert acc. induction history as [|t history IH]; intros acc; simpl.
  - by rewrite app_nil_r.
  - rewrite IH. destruct (prompt_part t); [|done].
    by rewrite <- app_assoc.
Qed.

Lemma prompt_part_stored t :
  stored_shape t →
  prompt_part t =
  Some (if bool_decide (role t = "user") then "User: " +:+ content t
        else "(" +:+ display_name (default "" (metadata t)) +:+ " said) "
             +:+ content t).
Proof.
  unfold prompt_part. intros [[-> _]|[-> [p ->]]]; reflexivity.
Qed.

Lemma omap_prompt_part_stored history :
  Forall stored_shape history →
  omap prompt_part history =
  (λ t, if bool_decide (role t = "user") then "User: " +:+ content t
        else "(" +:+ display_name (default "" (metadata t)) +:+ " said) "
             +:+ content t) <$> history.
Proof.
  induction 1 as [|t history Ht _ IH]; [done|].
  rewrite fmap_cons, <- IH.
  change (omap prompt_part (t :: history))
    with (match prompt_part t with
          | Some y => y :: omap prompt_part history
          | None => omap prompt_part history
          end).
  by rewrite (prompt_part_stored t Ht).
Qed.

(** X4. [format_history_as_prompt] on a store built by the append methods:
    the empty string for a session without turns; the bare content of the
    turn, without label or attribution, for a session with exactly one
    turn; and otherwise one part per stored turn, in order and joined by
    blank lines, a user turn as ["User: <content>"] and an assistant turn
    as ["(<Display Name> said) <content>"], with the prefix kept also for
    the empty persona key; the display name is stated for persona keys
    of ASCII characters. *)
Theorem format_history_as_prompt_parts sessions s :
  reachable sessions →
  (get_full_history sessions s = [] → format_history_as_prompt sessions s = "") ∧
  (∀ t, get_full_history sessions s = [t] →
        format_history_as_prompt sessions s = content t) ∧
  ((2 ≤ length (get_full_history sessions s))%nat →
   ascii_personas (get_full_history sessions s) = true →
   format_history_as_prompt sessions s =
   join (newline +:+ newline)
     ((λ t, if bool_decide (role t = "user") then "User: " +:+ content t
            else "(" +:+ display_name (default "" (metadata t)) +:+ " said) "
                 +:+ content t) <$> get_full_history sessions s)).
Proof.
  intros Hr. unfold format_history_as_prompt, get_full_history.
  split; [by intros ->|]. split; [by intros t ->|].
  destruct (sessions !! s) as [history|] eqn:Hs;
    [|intros Hlen; simpl in Hlen; lia].
  pose proof (reachable_stored_shape _ Hr _ _ Hs) as Hshape.
  change (default [] (Some history)) with history.
  destruct history as [|t1 [|t2 history]];
    try (intros Hlen; simpl in Hlen; lia).
  intros _ _. cbv beta iota.
  rewrite prompt_parts_loop, app_nil_l.
  by rewrite (omap_prompt_part_stored _ Hshape).
Qed.

(** A question and an answer stored under the empty persona key. *)
Lemma format_history_as_prompt_parts_witness :
  format_history_as_prompt
    (append_assistant (append_user __init__ "s" "q") "s" "hi" "") "s" =
  "User: q" +:+ newline +:+ newline +:+ "( said) hi".
Proof.
  refine (proj2 (proj2 (format_history_as_prompt_parts
                          (append_assistant (append_user __init__ "s" "q")
                                            "s" "hi" "") "s" _)) _ _).
  - repeat constructor.
  - vm_compute. lia.
  - reflexivity.
Defined.

End SessionStoreRuns.

(* ===================================================================== *)
(** * More on the secret-objective engine *)
(* ===================================================================== *)

Section EngineRuns.
Import Sabotage.

Implicit Types (e : Engine) (s c p : string) (d : RoundDecision) (k : Call).

Lemma call_outcome_intro e k : call_outcome e k (call k e).1 (call k e).2.
Proof.
  destruct (is_enabled e) eqn:Hen.
  2:{ rewrite call_disabled by done. by constructor. }
  destruct (_round_decisions e !! correlation_id k) as [d|] eqn:Hd.
  { rewrite (call_known e k d) by done. by constructor. }
  rewrite call_new by done.
  pose proof (make_round_decision_outcome (session_id k) (correlation_id k)
                (active_personas k) (draws k) e) as Hout.
  destruct (_make_round_decision _ _ _ _ e) as [[[]|x] e1]; simpl in Hout.
  - destruct (round_outcome_return _ _ _ _ _ _ Hout) as (d & Hd1 & _).
    rewrite Hd1. by eapply co_new.
  - by eapply co_raised.
Qed.

(** ** The round counter *)

Lemma round_number_seen e s c :
  Z.of_nat (size (default (∅ : gset string) (_session_correlation_ids e !! s)
                  ∪ {[c]})) =
  (round_number_for e s c
   - default 0 (_session_round_counter e !! s)
   + Z.of_nat (size (default (∅ : gset string)
                             (_session_correlation_ids e !! s))))%Z.
Proof.
  unfold round_number_for. case_bool_decide as Hc.
  - rewrite size_union by (by apply disjoint_singleton_r).
    rewrite size_singleton. lia.
  - rewrite (union_comm_L _ {[c]}).
    rewrite (subseteq_union_1_L {[c]}) by (by apply singleton_subseteq_l).
    lia.
Qed.

(** What one request does to the counters and the seen correlation ids. *)
Lemma call_counters e k :
  (_session_round_counter (call k e).2 = _session_round_counter e ∧
   _session_correlation_ids (call k e).2 = _session_correlation_ids e ∧
   (is_enabled e = false ∨ is_Some (_round_decisions e !! correlation_id k))) ∨
  (is_enabled e = true ∧ _round_decisions e !! correlation_id k = None ∧
   _session_round_counter (call k e).2 =
     <[session_id k := round_number_for e (session_id k) (correlation_id k)]>
       (_session_round_counter e) ∧
   _session_correlation_ids (call k e).2 =
     <[session_id k :=
         default ∅ (_session_correlation_ids e !! session_id k)
         ∪ {[correlation_id k]}]> (_session_correlation_ids e)).
Proof.
  destruct (call_outcome_intro e k) as [Hen|d Hen Hd|x e1 Hen Hd Hout
                                       |d e1 Hen Hd Hout Hd1].
  - left. eauto.
  - left. simpl. eauto.
  - right. rewrite (round_outcome_counter _ _ _ _ _ _ _ Hout).
    by rewrite (round_outcome_correlation_ids _ _ _ _ _ _ _ Hout).
  - right. simpl. rewrite (round_outcome_counter _ _ _ _ _ _ _ Hout).
    by rewrite (round_outcome_correlation_ids _ _ _ _ _ _ _ Hout).
Qed.

Lemma reachable_counter_size e s :
  reachable e →
  default 0%Z (_session_round_counter e !! s) =
  Z.of_nat (size (default (∅ : gset string) (_session_correlation_ids e !! s))).
Proof.
  intros (config & cs & ->). revert s.
  assert (∀ s, default 0%Z (_session_round_counter (__init__ config) !! s) =
               Z.of_nat (size (default (∅ : gset string)
                    (_session_correlation_ids (__init__ config) !! s))))
    as Hinit.
  { intros s. unfold __init__. simpl. by rewrite !lookup_empty. }
  generalize dependent (__init__ config). clear config.
  induction cs as [|k cs IH]; intros e He s; simpl; [done|].
  apply IH. clear IH s. intros s.
  destruct (call_counters e k) as [(-> & -> & _)|(_ & _ & -> & ->)]; [done|].
  destruct (decide (session_id k = s)) as [<-|Hne].
  - rewrite !lookup_insert_eq. simpl.
    rewrite round_number_seen, <- He. lia.
  - by rewrite !lookup_insert_ne.
Qed.

(** X5. In every reachable engine the round counter of a session is the
    number of distinct correlation ids the session has opened a round
    decision with: a retry after a request that raised, or a second
    session replaying a decided round, does not count again. *)
Theorem round_counter_counts_seen e s :
  reachable e →
  default 0%Z (_session_round_counter e !! s) =
  Z.of_nat (size (default (∅ : gset string) (_session_correlation_ids e !! s))).
Proof. apply reachable_counter_size. Qed.

(** After round ["c1"] was asked for three times, the counter is 1. *)
Lemma round_counter_counts_seen_witness :
  default 0%Z
    (_session_round_counter
       (run [scenario_call "angry_chef"; scenario_call "gandalf";
             scenario_call "your_nan"] (__init__ None)) !! "s1") =
  Z.of_nat
    (size (default (∅ : gset string)
             (_session_correlation_ids
                (run [scenario_call "angry_chef"; scenario_call "gandalf";
                      scenario_call "your_nan"] (__init__ None)) !! "s1"))).
Proof.
  apply round_counter_counts_seen.
  by exists None, [scenario_call "angry_chef"; scenario_call "gandalf";
                  scenario_call "your_nan"].
Defined.

(** X6. One request moves no counter but that of its own session, and that
    one by one step at most: it grows by one exactly when the engine is
    enabled and the correlation id is neither decided nor yet seen by the
    session. *)
Theorem round_counter_step e k s :
  (default 0%Z (_session_round_counter (call k e).2 !! s) =
     default 0%Z (_session_round_counter e !! s) ∨
   default 0%Z (_session_round_counter (call k e).2 !! s) =
     (default 0%Z (_session_round_counter e !! s) + 1)%Z) ∧
  (default 0%Z (_session_round_counter (call k e).2 !! s) =
     (default 0%Z (_session_round_counter e !! s) + 1)%Z ↔
   s = session_id k ∧ is_enabled e = true ∧
   _round_decisions e !! correlation_id k = None ∧
   correlation_id k ∉
     default (∅ : gset string) (_session_correlation_ids e !! s)).
Proof.
  destruct (call_counters e k) as [(-> & _ & Hwhy)|(Hen & Hd & -> & _)].
  { split; [by left|]. split; [lia|].
    intros (_ & Hen & Hd & _). destruct Hwhy as [Hoff|[d' Hd']]; congruence. }
  destruct (decide (session_id k = s)) as [<-|Hne].
  - rewrite lookup_insert_eq. simpl. unfold round_number_for.
    case_bool_decide as Hc.
    + split; [by right|]. split; [done|lia].
    + split; [by left|]. split; [lia|]. by intros (_ & _ & _ & Hnew).
  - rewrite lookup_insert_ne by done. split; [by left|].
    split; [lia|]. by intros [-> _].
Qed.

(** ** The weighted pick *)

Lemma bisect_le (a : list Z) (x : Q) (hi : nat) : (bisect a x hi ≤ hi)%nat.
Proof.
  revert a. induction hi as [|hi IH]; intros [|w a]; simpl; try lia.
  destruct (Qle_bool (inject_Z w) x); [|lia].
  specialize (IH a). lia.
Qed.

Lemma accumulate_from_length (acc : Z) (ws : list Z) :
  length (accumulate_from acc ws) = length ws.
Proof.
  revert acc. induction ws as [|w ws IH]; intros acc; simpl; [done|].
  by rewrite IH.
Qed.

Lemma accumulate_from_lookup (acc : Z) (ws : list Z) (j : nat) :
  (j < length ws)%nat →
  accumulate_from acc ws !! j = Some (acc + foldr Z.add 0%Z (take (S j) ws))%Z.
Proof.
  revert acc j. induction ws as [|w ws IH]; intros acc j Hj; simpl in *;
    [lia|].
  destruct j as [|j]; simpl.
  - f_equal. lia.
  - rewrite IH by lia. f_equal. simpl. lia.
Qed.

Lemma accumulate_from_last (acc : Z) (ws : list Z) :
  ws ≠ [] →
  last (accumulate_from acc ws) = Some (acc + foldr Z.add 0%Z ws)%Z.
Proof.
  intros Hne. rewrite last_lookup, accumulate_from_length.
  assert (0 < length ws)%nat as Hlen by (destruct ws; [done|simpl; lia]).
  rewrite accumulate_from_lookup by lia.
  by rewrite take_ge by lia.
Qed.


Lemma weights_positive_sum (ws : list Z) :
  ws ≠ [] → Forall (λ w, 0 < w)%Z ws → (0 < foldr Z.add 0%Z ws)%Z.
Proof.
  intros Hne Hpos. destruct ws as [|w ws]; [done|].
  apply Forall_cons in Hpos as [Hw Hws]. simpl.
  assert (0 ≤ foldr Z.add 0%Z ws)%Z; [|lia].
  clear Hne Hw. induction Hws; simpl; lia.
Qed.

Lemma weight_before_all (l : list Objective) :
  weight_before l (length l) = foldr Z.add 0%Z (weight <$> l).
Proof. unfold weight_before. by rewrite take_ge by (by rewrite length_fmap). Qed.

(** The pick as a function of the draw. *)
Lemma weighted_pick_eval (l : list Objective) (u : Q) e :
  l ≠ [] → Forall (λ o, 0 < weight o)%Z l →
  (weight_before l (length l) < 2 ^ 53)%Z →
  ∃ o, l !! bisect (accumulate (weight <$> l))
                   (float_product u (weight_before l (length l)))
                   (length l - 1) = Some o ∧
       _weighted_pick l u e = (Return o, e).
Proof.
  intros Hne Hpos Hsmall. unfold _weighted_pick, random_choices, accumulate.
  rewrite accumulate_from_length, length_fmap.
  rewrite bool_decide_eq_false_2 by (intros H; by apply H).
  assert (weight <$> l ≠ []) as Hne' by (by destruct l).
  rewrite accumulate_from_last by done.
  assert (0 < foldr Z.add 0%Z (weight <$> l))%Z as Htotal.
  { apply weights_positive_sum; [done|]. by apply Forall_fmap. }
  replace (0 + foldr Z.add 0%Z (weight <$> l))%Z
    with (foldr Z.add 0%Z (weight <$> l)) by lia.
  rewrite weight_before_all in *.
  rewrite int_to_float_small by lia.
  destruct (Z.leb_spec (foldr Z.add 0%Z (weight <$> l)) 0%Z) as [|_]; [lia|].
  pose proof (bisect_le (accumulate_from 0 (weight <$> l))
                (float_product u (foldr Z.add 0%Z (weight <$> l)))
                (length l - 1)) as Hle.
  destruct (l !! bisect _ _ _) as [o|] eqn:Hl.
  - by exists o.
  - apply lookup_ge_None in Hl. destruct l; [done|]. simpl in *. lia.
Qed.



(** ** Stored decisions over runs *)

Lemma reachable_call e k : reachable e → reachable (call k e).2.
Proof.
  intros (config & cs & ->). exists config, (cs ++ [k]).
  revert config. generalize (__init__ : option Config → Engine). intros f config.
  generalize (f config). clear. intros e.
  revert e. induction cs as [|k' cs IH]; intros e; simpl; [done|apply IH].
Qed.

Lemma reachable_run e cs : reachable e → reachable (run cs e).
Proof.
  revert e. induction cs as [|k cs IH]; intros e He; simpl; [done|].
  by apply IH, reachable_call.
Qed.

Lemma replay_remaining d p :
  (messages_remaining (replay d p).2 ≤ messages_remaining d)%Z ∧
  (Z.min 0 (messages_remaining d) ≤ messages_remaining (replay d p).2)%Z.
Proof.
  unfold replay. destruct (objective d); simpl; [|lia].
  destruct (bool_decide _); simpl; [lia|].
  destruct (Z.leb_spec (messages_remaining d) 0); simpl; lia.
Qed.

Lemma replay_some d p t :
  (replay d p).1 = Some t →
  saboteur d = Some p ∧ (0 < messages_remaining d)%Z ∧
  ∃ o, objective d = Some o ∧ t = prompt o.
Proof.
  unfold replay. destruct (objective d) as [o|]; simpl; [|done].
  case_bool_decide as Hs; simpl; [done|].
  destruct (Z.leb_spec (messages_remaining d) 0); simpl; [done|].
  intros [= <-]. eauto.
Qed.

Lemma run_decision e c d (cs : list Call) :
  _round_decisions e !! c = Some d →
  ∃ d', _round_decisions (run cs e) !! c = Some d' ∧
        saboteur d' = saboteur d ∧ objective d' = objective d ∧
        (messages_remaining d' ≤ messages_remaining d)%Z ∧
        (Z.min 0 (messages_remaining d) ≤ messages_remaining d')%Z.
Proof.
  revert e d. induction cs as [|k cs IH]; intros e d Hd; simpl.
  { exists d. repeat split; (done || lia). }
  pose proof (call_decision_at e k c d Hd) as Hstep.
  destruct (IH _ _ Hstep) as (d' & Hd' & Hs & Ho & Hle & Hge).
  exists d'. split; [done|].
  destruct (_ && _).
  - rewrite replay_saboteur in Hs. rewrite replay_objective in Ho.
    destruct (replay_remaining d (persona k)). repeat split; (done || lia).
  - by repeat split.
Qed.

(** X8. A stored decision is never decided again: after any run of requests
    the correlation id still has a decision with the same saboteur and the
    same objective, and [messages_remaining] has not grown and has not
    dropped below zero (or below where it stood, if that was negative). *)
Theorem decision_never_reassigned e c d (cs : list Call) :
  _round_decisions e !! c = Some d →
  ∃ d', _round_decisions (run cs e) !! c = Some d' ∧
        saboteur d' = saboteur d ∧ objective d' = objective d ∧
        (messages_remaining d' ≤ messages_remaining d)%Z ∧
        (Z.min 0 (messages_remaining d) ≤ messages_remaining d')%Z.
Proof. apply run_decision. Qed.

(** The decision of round ["c1"] after six more requests. *)
Lemma decision_never_reassigned_witness :
  ∃ d', _round_decisions
          (run [scenario_call "gandalf"; scenario_call "gandalf";
                scenario_call "gandalf"; scenario_call_2 "gandalf";
                scenario_call "angry_chef"; scenario_call "your_nan"]
             (call (scenario_call "gandalf") (__init__ None)).2) !! "c1" =
        Some d' ∧
        saboteur d' = Some "gandalf" ∧ objective d' = Some the_ring ∧
        (messages_remaining d' ≤ 1)%Z ∧ (Z.min 0 1 ≤ messages_remaining d')%Z.
Proof.
  apply (decision_never_reassigned
           (call (scenario_call "gandalf") (__init__ None)).2 "c1"
           (mkRoundDecision (Some "gandalf") (Some the_ring) 1)).
  vm_compute. reflexivity.
Defined.

(** X9. One saboteur per round: if two requests for the same correlation id
    are both answered with a prompt, whatever ran in between, they come
    from the same persona and get the same prompt. *)
Theorem one_saboteur_per_round e k1 (mid : list Call) k2 (t1 t2 : string) :
  correlation_id k2 = correlation_id k1 →
  (call k1 e).1 = Return (Some t1) →
  (call k2 (run mid (call k1 e).2)).1 = Return (Some t2) →
  persona k2 = persona k1 ∧ t2 = t1.
Proof.
  intros Hc H1 H2.
  assert (∃ d o, _round_decisions (call k1 e).2 !! correlation_id k1 = Some d ∧
                 saboteur d = Some (persona k1) ∧ objective d = Some o ∧
                 t1 = prompt o) as (d & o & Hd & Hs & Ho & Ht1).
  { destruct (call_outcome_intro e k1) as [Hen|d Hen Hd|x e1 Hen Hd Hout
                                          |d e1 Hen Hd Hout Hd1];
      try discriminate.
    - injection H1 as H1. apply replay_some in H1 as (Hs & _ & o & Ho & ->).
      exists (replay d (persona k1)).2, o.
      by rewrite decided_lookup, replay_saboteur, replay_objective.
    - injection H1 as H1. apply replay_some in H1 as (Hs & _ & o & Ho & ->).
      exists (replay d (persona k1)).2, o.
      by rewrite decided_lookup, replay_saboteur, replay_objective. }
  destruct (run_decision _ _ _ mid Hd) as (d' & Hd' & Hs' & Ho' & _).
  rewrite <- Hc in Hd'.
  destruct (call_outcome_intro (run mid (call k1 e).2) k2)
    as [Hen|d2 Hen Hd2|x e1 Hen Hd2 Hout|d2 e1 Hen Hd2 Hout Hd1];
    try discriminate; try congruence.
  injection H2 as H2. apply replay_some in H2 as (Hs2 & _ & o2 & Ho2 & ->).
  assert (d2 = d') as -> by congruence.
  split; congruence.
Qed.

(** Two requests of ["gandalf"] in round ["c1"], one of the chef between. *)
Lemma one_saboteur_per_round_witness :
  persona (scenario_call "gandalf") = persona (scenario_call "gandalf") ∧
  prompt the_ring = prompt the_ring.
Proof.
  apply (one_saboteur_per_round (__init__ None) (scenario_call "gandalf")
           [scenario_call "angry_chef"] (scenario_call "gandalf")).
  - reflexivity.
  - vm_compute. reflexivity.
  - vm_compute. reflexivity.
Defined.

(** ** What every stored decision looks like *)

Lemma round_outcome_decisions (P : RoundDecision → Prop) e s c act rnd r e' :
  round_outcome e s c act rnd r e' →
  P empty_decision →
  (∀ sab obj cd dur,
     act !! (choice rnd mod length act)%nat = Some sab →
     cooldown_rounds (_config e) = Some cd →
     duration_messages (_config e) = Some dur →
     obj ∈ candidates (history_of e s) sab (round_number_for e s c) cd →
     P (mkRoundDecision (Some sab) (Some obj) dur)) →
  (∀ c' d, _round_decisions e !! c' = Some d → P d) →
  ∀ c' d, _round_decisions e' !! c' = Some d → P d.
Proof.
  intros Hout Hempty Hnew He c' d'.
  destruct Hout; simpl; try apply He.
  - destruct (decide (c = c')) as [<-|Hne].
    + rewrite lookup_insert_eq. by intros [= <-].
    + rewrite lookup_insert_ne by done. apply He.
  - destruct (decide (c = c')) as [<-|Hne].
    + rewrite lookup_insert_eq. by intros [= <-].
    + rewrite lookup_insert_ne by done. apply He.
  - destruct (decide (c = c')) as [<-|Hne].
    + rewrite lookup_insert_eq. intros [= <-].
      eapply Hnew; eauto. by eapply weighted_pick_elem.
    + rewrite lookup_insert_ne by done. apply He.
Qed.

Lemma call_decisions (P : RoundDecision → Prop) e k :
  P empty_decision →
  (∀ d p, P d → P (replay d p).2) →
  (∀ sab obj dur,
     duration_messages (_config e) = Some dur →
     sab ∈ active_personas k → obj ∈ OBJECTIVES →
     (compatible_personas obj = [] ∨ sab ∈ compatible_personas obj) →
     P (mkRoundDecision (Some sab) (Some obj) dur)) →
  (∀ c d, _round_decisions e !! c = Some d → P d) →
  ∀ c d, _round_decisions (call k e).2 !! c = Some d → P d.
Proof.
  intros Hempty Hreplay Hnew He.
  assert (∀ e1 d1, (∀ c d, _round_decisions e1 !! c = Some d → P d) →
                   _round_decisions e1 !! correlation_id k = Some d1 →
                   ∀ c d, _round_decisions
                            (decided (correlation_id k)
                                     (replay d1 (persona k)).2 e1) !! c = Some d →
                          P d) as Hdecided.
  { intros e1 d1 He1 Hd1 c d.
    destruct (decide (correlation_id k = c)) as [<-|Hne].
    - rewrite decided_lookup. intros [= <-]. eauto.
    - rewrite decided_lookup_ne by done. apply He1. }
  assert (∀ r e1, round_outcome e (session_id k) (correlation_id k)
                    (active_personas k) (draws k) r e1 →
                  ∀ c d, _round_decisions e1 !! c = Some d → P d) as Hround.
  { intros r e1 Hout.
    eapply round_outcome_decisions; eauto.
    intros sab obj cd dur Hact _ Hdur (Hcat & Hcompat & _)%candidates_compatible.
    apply Hnew; try done. by eapply list_elem_of_lookup_2. }
  destruct (call_outcome_intro e k) as [Hen|d Hen Hd|x e1 Hen Hd Hout
                                       |d e1 Hen Hd Hout Hd1]; eauto.
Qed.

Lemma reachable_decisions (P : RoundDecision → Prop) e :
  reachable e →
  P empty_decision →
  (∀ d p, P d → P (replay d p).2) →
  (∀ sab obj dur,
     duration_messages (_config e) = Some dur →
     obj ∈ OBJECTIVES →
     (compatible_personas obj = [] ∨ sab ∈ compatible_personas obj) →
     P (mkRoundDecision (Some sab) (Some obj) dur)) →
  ∀ c d, _round_decisions e !! c = Some d → P d.
Proof.
  intros (config & cs & ->) Hempty Hreplay. rewrite run_config.
  assert (∀ c d, _round_decisions (__init__ config) !! c = Some d → P d)
    as Hinit.
  { intros c d. unfold __init__. simpl. by rewrite lookup_empty. }
  generalize dependent (__init__ config). clear config.
  induction cs as [|k cs IH]; intros e He Hnew; simpl; [done|].
  apply IH.
  - apply call_decisions; eauto.
  - by rewrite call_config.
Qed.

(** X10. Every decision stored in a reachable engine is either the empty
    one, or names a saboteur and an objective of the catalog and has a
    [messages_remaining] between 0 and [duration_messages] (or equal to
    [duration_messages], which matters when that is negative). *)
Theorem stored_decision_shape e c d :
  reachable e →
  _round_decisions e !! c = Some d →
  d = empty_decision ∨
  ∃ sab obj dur,
    saboteur d = Some sab ∧ objective d = Some obj ∧ obj ∈ OBJECTIVES ∧
    duration_messages (_config e) = Some dur ∧
    ((0 ≤ messages_remaining d ≤ dur)%Z ∨ messages_remaining d = dur).
Proof.
  intros Hr. revert c d.
  apply (reachable_decisions
           (λ d, d = empty_decision ∨
                 ∃ sab obj dur,
                   saboteur d = Some sab ∧ objective d = Some obj ∧
                   obj ∈ OBJECTIVES ∧
                   duration_messages (_config e) = Some dur ∧
                   ((0 ≤ messages_remaining d ≤ dur)%Z ∨
                    messages_remaining d = dur))); [done|by left|..].
  - intros d p [->|(sab & obj & dur & Hs & Ho & Hcat & Hdur & Hmr)];
      [by left|right].
    exists sab, obj, dur.
    rewrite replay_saboteur, replay_objective.
    destruct (replay_remaining d p). repeat split; try done. lia.
  - intros sab obj dur Hdur Hcat _. right.
    exists sab, obj, dur. simpl. repeat split; try done. by right.
Qed.

(** The decision of round ["c1"] after the first request. *)
Lemma stored_decision_shape_witness :
  mkRoundDecision (Some "gandalf") (Some the_ring) 1 = empty_decision ∨
  ∃ sab obj dur,
    saboteur (mkRoundDecision (Some "gandalf") (Some the_ring) 1) = Some sab ∧
    objective (mkRoundDecision (Some "gandalf") (Some the_ring) 1) = Some obj ∧
    obj ∈ OBJECTIVES ∧
    duration_messages
      (_config (run [scenario_call "gandalf"] (__init__ None))) = Some dur ∧
    ((0 ≤ messages_remaining
            (mkRoundDecision (Some "gandalf") (Some the_ring) 1) ≤ dur)%Z ∨
     messages_remaining (mkRoundDecision (Some "gandalf") (Some the_ring) 1)
     = dur).
Proof.
  apply (stored_decision_shape
           (run [scenario_call "gandalf"] (__init__ None)) "c1").
  - by exists None, [scenario_call "gandalf"].
  - vm_compute. reflexivity.
Defined.

(** ** Exceptions *)

Lemma catalog_weights_positive : Forall (λ o, 0 < weight o)%Z OBJECTIVES.
Proof. repeat constructor. Qed.

Lemma candidates_weights_positive history sab (rn cd : Z) :
  Forall (λ o, 0 < weight o)%Z (candidates history sab rn cd).
Proof.
  apply Forall_forall. intros o (Hcat & _)%candidates_compatible.
  pose proof catalog_weights_positive as Hpos.
  rewrite Forall_forall in Hpos. by apply Hpos.
Qed.

Lemma total_filter_le (P : Objective → Prop) `{∀ x, Decision (P x)}
    (l : list Objective) :
  Forall (λ o, 0 < weight o)%Z l →
  (foldr Z.add 0 (weight <$> filter P l) ≤ foldr Z.add 0 (weight <$> l))%Z.
Proof.
  induction 1 as [|o l Ho _ IH]; [done|].
  rewrite filter_cons.
  destruct (decide (P o)); rewrite ?fmap_cons; cbn [foldr]; lia.
Qed.

(** The weights of the catalog add up to far less than a float holds
    exactly, and so do those of any candidates. *)
Lemma candidates_total_small history sab (rn cd : Z) :
  (weight_before (candidates history sab rn cd)
                 (length (candidates history sab rn cd)) < 2 ^ 53)%Z.
Proof.
  rewrite weight_before_all. unfold candidates, _get_compatible_objectives.
  pose proof catalog_weights_positive as Hpos.
  eapply Z.le_lt_trans.
  { apply total_filter_le. apply Forall_forall.
    intros o [_ Ho]%list_elem_of_filter.
    rewrite Forall_forall in Hpos. by apply Hpos. }
  eapply Z.le_lt_trans; [by apply total_filter_le|].
  vm_compute. reflexivity.
Qed.

Lemma history_of_with_history e s s' :
  history_of (with_history e s) s' = history_of e s'.
Proof.
  unfold history_of, with_history. simpl.
  destruct (decide (s = s')) as [<-|Hne].
  - by rewrite lookup_insert_eq.
  - by rewrite lookup_insert_ne.
Qed.

Lemma random_choice_nonempty (act : list string) (n : nat) :
  act !! (n mod length act)%nat = None → act = [].
Proof.
  intros Hnone. apply lookup_ge_None in Hnone.
  destruct act as [|a act]; [done|].
  pose proof (Nat.mod_upper_bound n (length (a :: act))) as Hlt.
  simpl in *. lia.
Qed.

(** What a raising decision was, and what it left. *)
Lemma round_outcome_raise_cases e s c act rnd x e' :
  round_outcome e s c act rnd (Raise x) e' →
  (∀ s', history_of e' s' = history_of e s') ∧
  ((x = KeyError "chance_per_round" ∧ chance_per_round (_config e) = None) ∨
   (x = KeyError "cooldown_rounds" ∧ cooldown_rounds (_config e) = None) ∨
   (x = KeyError "duration_messages" ∧ duration_messages (_config e) = None) ∨
   (x = IndexError ∧ act = [])).
Proof.
  inversion 1; subst.
  - split; [done|]. by left.
  - split; [done|]. right. right. right. split; [done|].
    by eapply random_choice_nonempty.
  - split; [done|]. right. by left.
  - exfalso.
    destruct (weighted_pick_eval
                (candidates (history_of e s) sab (round_number_for e s c) cd)
                (pick rnd) (with_history (after_bump e s c) s))
      as (o & _ & Hpick);
      [done|apply candidates_weights_positive|apply candidates_total_small|].
    match goal with H : (_weighted_pick _ _ _).1 = Raise _ |- _ =>
      rewrite Hpick in H; discriminate H end.
  - split; [intros s'; by rewrite history_of_with_history|].
    right. right. by left.
Qed.

(** X11. The exceptions of [get_objective_for_persona].  A request raises
    only a [KeyError] for one of the configuration keys
    [chance_per_round], [cooldown_rounds] and [duration_messages] when
    that key is missing, or an [IndexError] when [active_personas] is
    empty; it then leaves the round decisions and every cooldown history
    as they were.  With the three keys present and a non-empty active
    list no request raises. *)
Theorem request_exceptions e k :
  (∀ x, (call k e).1 = Raise x →
        _round_decisions (call k e).2 = _round_decisions e ∧
        (∀ s, history_of (call k e).2 s = history_of e s) ∧
        ((x = KeyError "chance_per_round" ∧
          chance_per_round (_config e) = None) ∨
         (x = KeyError "cooldown_rounds" ∧
          cooldown_rounds (_config e) = None) ∨
         (x = KeyError "duration_messages" ∧
          duration_messages (_config e) = None) ∨
         (x = IndexError ∧ active_personas k = []))) ∧
  (is_Some (chance_per_round (_config e)) →
   is_Some (cooldown_rounds (_config e)) →
   is_Some (duration_messages (_config e)) →
   active_personas k ≠ [] →
   ∃ r, (call k e).1 = Return r).
Proof.
  assert (∀ x, (call k e).1 = Raise x →
               _round_decisions (call k e).2 = _round_decisions e ∧
               (∀ s, history_of (call k e).2 s = history_of e s) ∧
               ((x = KeyError "chance_per_round" ∧
                 chance_per_round (_config e) = None) ∨
                (x = KeyError "cooldown_rounds" ∧
                 cooldown_rounds (_config e) = None) ∨
                (x = KeyError "duration_messages" ∧
                 duration_messages (_config e) = None) ∨
                (x = IndexError ∧ active_personas k = []))) as Hraise.
  { intros x Hx.
    destruct (call_outcome_intro e k) as [Hen|d Hen Hd|x' e1 Hen Hd Hout
                                         |d e1 Hen Hd Hout Hd1];
      try discriminate.
    injection Hx as ->.
    split; [by eapply round_outcome_raise|].
    by apply round_outcome_raise_cases in Hout. }
  split; [done|].
  intros [ch Hch] [cd Hcd] [dur Hdur] Hact.
  destruct (call k e).1 as [r|x] eqn:Hres; [by eexists|].
  destruct (Hraise x eq_refl) as (_ & _ & [[_ H]|[[_ H]|[[_ H]|[_ H]]]]);
    congruence.
Qed.

(** The default engine and the scenario's active list: no exception. *)
Lemma request_exceptions_witness :
  ∃ r, (call (scenario_call "gandalf") (__init__ None)).1 = Return r.
Proof.
  apply (proj2 (request_exceptions (__init__ None) (scenario_call "gandalf"))).
  - by eexists.
  - by eexists.
  - by eexists.
  - discriminate.
Defined.

(** ** What a request can be answered with *)

Lemma call_some_decision e k (t : string) :
  (call k e).1 = Return (Some t) →
  ∃ d o, _round_decisions (call k e).2 !! correlation_id k = Some d ∧
         saboteur d = Some (persona k) ∧ objective d = Some o ∧
         t = prompt o.
Proof.
  intros H1.
  destruct (call_outcome_intro e k) as [Hen|d Hen Hd|x e1 Hen Hd Hout
                                       |d e1 Hen Hd Hout Hd1];
    try discriminate.
  - injection H1 as H1. apply replay_some in H1 as (Hs & _ & o & Ho & ->).
    exists (replay d (persona k)).2, o.
    by rewrite decided_lookup, replay_saboteur, replay_objective.
  - injection H1 as H1. apply replay_some in H1 as (Hs & _ & o & Ho & ->).
    exists (replay d (persona k)).2, o.
    by rewrite decided_lookup, replay_saboteur, replay_objective.
Qed.

(** X12. Whatever a reachable engine answers is in the catalog: a prompt
    returned to a persona is the prompt of a catalog objective whose
    [compatible_personas] is empty or contains that persona; and when the
    request is the one that opens the round, the persona is in the
    [active_personas] list it passed. *)
Theorem answered_prompt_from_catalog e k (t : string) :
  reachable e →
  (call k e).1 = Return (Some t) →
  (∃ o, o ∈ OBJECTIVES ∧ t = prompt o ∧
        (compatible_personas o = [] ∨ persona k ∈ compatible_personas o)) ∧
  (_round_decisions e !! correlation_id k = None →
   persona k ∈ active_personas k).
Proof.
  intros Hr Hres. split.
  - destruct (call_some_decision e k t Hres) as (d & o & Hd & Hs & Ho & ->).
    exists o.
    assert (o ∈ OBJECTIVES ∧
            (compatible_personas o = [] ∨ persona k ∈ compatible_personas o))
      as [Hcat Hcompat]; [|done].
    clear Hres. revert Hs Ho.
    generalize (persona k). intros p Hs Ho.
    revert o p Ho Hs.
    apply (reachable_decisions
             (λ d, ∀ o p, objective d = Some o → saboteur d = Some p →
                          o ∈ OBJECTIVES ∧
                          (compatible_personas o = [] ∨
                           p ∈ compatible_personas o))
             (call k e).2 (reachable_call e k Hr)) with (c := correlation_id k);
      [done| |by intros sab obj dur _ Hcat Hc o p [= <-] [= <-]|done].
    intros d0 p0 Hd0 o p. rewrite replay_saboteur, replay_objective.
    apply Hd0.
  - intros Hnew.
    destruct (call_outcome_intro e k) as [Hen|d Hen Hd|x e1 Hen Hd Hout
                                         |d e1 Hen Hd Hout Hd1];
      try discriminate; try congruence.
    injection Hres as Hres.
    apply replay_some in Hres as (Hs & _ & o & Ho & _).
    apply round_outcome_return in Hout as (d' & Hd' & Hshape).
    assert (d' = d) as -> by congruence.
    destruct Hshape as [->|(sab & cd & obj & dur & -> & Hact & _)];
      [done|].
    simpl in Hs. injection Hs as ->. by eapply list_elem_of_lookup_2.
Qed.

(** The first request of the scenario. *)
Lemma answered_prompt_from_catalog_witness :
  persona (scenario_call "gandalf") ∈ active_personas (scenario_call "gandalf").
Proof.
  apply (proj2 (answered_prompt_from_catalog (__init__ None)
                  (scenario_call "gandalf") (prompt the_ring)
                  ltac:(by exists None, []) ltac:(vm_compute; reflexivity))).
  reflexivity.
Defined.

(** ** The cooldown history over runs *)

Lemma round_outcome_history e s c act rnd r e' s' :
  round_outcome e s c act rnd r e' →
  history_of e' s' = history_of e s' ∨
  (s' = s ∧ r = Return tt ∧
   ∃ sab obj cd,
     cooldown_rounds (_config e) = Some cd ∧
     act !! (choice rnd mod length act)%nat = Some sab ∧
     obj ∈ candidates (history_of e s) sab (round_number_for e s c) cd ∧
     history_of e' s =
     history_of e s ++ [(sab, obj_id obj, round_number_for e s c)]).
Proof.
  destruct 1; try (by left); try (left; by rewrite history_of_with_history).
  - left. unfold decided, history_of. simpl.
    apply (history_of_with_history (after_bump e s c) s s').
  - destruct (decide (s = s')) as [<-|Hne].
    + right. split; [done|]. split; [done|].
      exists sab, obj, cd. repeat split; try done.
      * by eapply weighted_pick_elem.
      * unfold history_of at 1. simpl. by rewrite lookup_insert_eq.
    + left. unfold history_of at 1. simpl.
      by rewrite lookup_insert_ne.
Qed.

(** What one request does to the cooldown history of a session. *)
Lemma call_history e k s' :
  history_of (call k e).2 s' = history_of e s' ∨
  (s' = session_id k ∧ is_enabled e = true ∧
   _round_decisions e !! correlation_id k = None ∧
   ∃ sab obj cd,
     cooldown_rounds (_config e) = Some cd ∧
     sab ∈ active_personas k ∧
     obj ∈ candidates (history_of e s') sab
             (round_number_for e s' (correlation_id k)) cd ∧
     history_of (call k e).2 s' =
     history_of e s'
       ++ [(sab, obj_id obj, round_number_for e s' (correlation_id k))]).
Proof.
  destruct (call_outcome_intro e k) as [Hen|d Hen Hd|x e1 Hen Hd Hout
                                       |d e1 Hen Hd Hout Hd1];
    try (by left).
  - apply (round_outcome_history _ _ _ _ _ _ _ s') in Hout
      as [Hsame|(_ & [=] & _)]. by left.
  - apply (round_outcome_history _ _ _ _ _ _ _ s') in Hout
      as [Hsame|(-> & _ & sab & obj & cd & Hcd & Hact & Hobj & Happ)];
      [by left|right].
    repeat split; try done. exists sab, obj, cd.
    repeat split; try done. by eapply list_elem_of_lookup_2.
Qed.

Lemma recent_objectives_inv history sab (rn cd : Z) oid :
  oid ∈ recent_objectives history sab rn cd →
  ∃ r, (sab, oid, r) ∈ history ∧ (rn - r ≤ cd)%Z.
Proof.
  unfold recent_objectives.
  intros ([[p o] r] & -> & [[Hp Hle] Hin]%list_elem_of_filter)%elem_of_list_to_set
                                                     %list_elem_of_fmap.
  simpl in *. subst p. eauto.
Qed.

Lemma reachable_history_spaced e s (i j : nat) P oid (r r' cd : Z) :
  reachable e →
  cooldown_rounds (_config e) = Some cd →
  (i < j)%nat →
  history_of e s !! i = Some (P, oid, r) →
  history_of e s !! j = Some (P, oid, r') →
  (cd < r' - r)%Z.
Proof.
  intros (config & cs & ->). rewrite run_config. intros Hcd.
  revert i j r r'.
  assert (∀ i j r r', (i < j)%nat →
            history_of (__init__ config) s !! i = Some (P, oid, r) →
            history_of (__init__ config) s !! j = Some (P, oid, r') →
            (cd < r' - r)%Z) as Hinit.
  { intros i j r r' _. unfold history_of, __init__. simpl.
    by rewrite lookup_empty. }
  generalize dependent (__init__ config). clear config.
  induction cs as [|k cs IH]; intros e Hcd He; simpl; [done|].
  apply IH; [by rewrite call_config|].
  destruct (call_history e k s)
    as [->|(-> & _ & _ & sab & obj & cd' & Hcd' & _ & Hobj & ->)]; [done|].
  assert (cd' = cd) as -> by congruence.
  intros i j r r' Hij Hi Hj.
  assert (j < length (history_of e (session_id k)
                      ++ [(sab, obj_id obj,
                           round_number_for e (session_id k) (correlation_id k))]))%nat
    as Hlen by (by eapply lookup_lt_Some).
  rewrite length_app in Hlen. simpl in Hlen.
  rewrite lookup_app_l in Hi by lia.
  destruct (decide (j < length (history_of e (session_id k)))%nat) as [Hlt|Hge].
  { rewrite lookup_app_l in Hj by lia. eauto. }
  rewrite lookup_app_r in Hj by lia.
  replace (j - length (history_of e (session_id k)))%nat with 0%nat in Hj by lia.
  injection Hj as <- <- <-.
  apply candidates_compatible in Hobj as (_ & _ & Hrecent).
  apply Z.lt_nge. intros Hle. apply Hrecent.
  eapply recent_objectives_elem; [by eapply list_elem_of_lookup_2|done|done].
Qed.

(** X13. Cooldown over whole runs: in a reachable engine, two entries of a
    session's cooldown history for the same persona and the same objective
    id have round numbers more than [cooldown_rounds] apart. *)
Theorem cooldown_history_spaced e s (i j : nat) P oid (r r' cd : Z) :
  reachable e →
  cooldown_rounds (_config e) = Some cd →
  (i < j)%nat →
  history_of e s !! i = Some (P, oid, r) →
  history_of e s !! j = Some (P, oid, r') →
  (cd < r' - r)%Z.
Proof. apply reachable_history_spaced. Qed.

(** Six rounds of session ["s1"]: [the_ring] goes to ["gandalf"] in rounds
    1 and 6, four failed rolls between. *)
Lemma cooldown_history_spaced_witness : (4 < 6 - 1)%Z.
Proof.
  apply (cooldown_history_spaced
           (run [scenario_call "gandalf";
                 mkCall "s1" "c2" "gandalf" scenario_personas (mkDraws (1 # 2) 1 0);
                 mkCall "s1" "c3" "gandalf" scenario_personas (mkDraws (1 # 2) 1 0);
                 mkCall "s1" "c4" "gandalf" scenario_personas (mkDraws (1 # 2) 1 0);
                 mkCall "s1" "c5" "gandalf" scenario_personas (mkDraws (1 # 2) 1 0);
                 mkCall "s1" "c6" "gandalf" scenario_personas scenario_draws]
                (__init__ None))
           "s1" 0 1 "gandalf" "the_ring" 1 6 4).
  - eexists None, _. reflexivity.
  - reflexivity.
  - lia.
  - vm_compute. reflexivity.
  - vm_compute. reflexivity.
Defined.

Lemma reachable_invariant (I : Engine → Prop) :
  (∀ config, I (__init__ config)) →
  (∀ e k, reachable e → I e → I (call k e).2) →
  ∀ e, reachable e → I e.
Proof.
  intros Hinit Hstep e (config & cs & ->).
  assert (reachable (__init__ config)) as Hr by (by exists config, []).
  specialize (Hinit config).
  generalize dependent (__init__ config). clear config.
  induction cs as [|k cs IH]; intros e He Hr; simpl; [done|].
  apply IH; [by apply Hstep|by apply reachable_call].
Qed.

Lemma round_number_bounds e s c :
  reachable e →
  (1 ≤ round_number_for e s c)%Z ∧
  (default 0 (_session_round_counter e !! s) ≤ round_number_for e s c)%Z.
Proof.
  intros Hr. pose proof (reachable_counter_size e s Hr) as Hsize.
  unfold round_number_for. case_bool_decide as Hc; [lia|].
  assert (size (default (∅ : gset string) (_session_correlation_ids e !! s))
          ≠ 0)%nat; [|lia].
  intros Hzero. apply size_empty_inv in Hzero.
  rewrite leibniz_equiv_iff in Hzero. rewrite Hzero in Hc.
  by apply not_elem_of_empty in Hc.
Qed.

Lemma call_counter_mono e k s :
  (default 0 (_session_round_counter e !! s)
   ≤ default 0 (_session_round_counter (call k e).2 !! s))%Z.
Proof.
  destruct (call_counters e k) as [(-> & _)|(_ & _ & -> & _)]; [done|].
  destruct (decide (session_id k = s)) as [<-|Hne].
  - rewrite lookup_insert_eq. simpl. unfold round_number_for.
    case_bool_decide; lia.
  - by rewrite lookup_insert_ne.
Qed.

Lemma reachable_history_entries e s (i : nat) p oid (r : Z) :
  reachable e →
  history_of e s !! i = Some (p, oid, r) →
  (1 ≤ r ≤ default 0 (_session_round_counter e !! s))%Z ∧
  (∃ o, o ∈ OBJECTIVES ∧ obj_id o = oid ∧
        (compatible_personas o = [] ∨ p ∈ compatible_personas o)) ∧
  (∀ j p' oid' r', (i < j)%nat →
                   history_of e s !! j = Some (p', oid', r') → (r ≤ r')%Z).
Proof.
  intros Hr. revert s i p oid r. revert e Hr.
  apply (reachable_invariant
           (λ e, ∀ s i p oid r,
              history_of e s !! i = Some (p, oid, r) →
              (1 ≤ r ≤ default 0 (_session_round_counter e !! s))%Z ∧
              (∃ o, o ∈ OBJECTIVES ∧ obj_id o = oid ∧
                    (compatible_personas o = [] ∨ p ∈ compatible_personas o)) ∧
              (∀ j p' oid' r', (i < j)%nat →
                 history_of e s !! j = Some (p', oid', r') → (r ≤ r')%Z))).
  { intros config s i p oid r. unfold history_of, __init__. simpl.
    by rewrite lookup_empty. }
  intros e k Hr He s i p oid r.
  pose proof (call_counter_mono e k s) as Hmono.
  destruct (call_history e k s)
    as [->|(-> & Hen & Hnew & sab & obj & cd & _ & _ & Hobj & ->)].
  { intros Hi. destruct (He s i p oid r Hi) as (Hr1 & Hcat & Hsorted).
    split; [lia|]. split; [done|]. apply Hsorted. }
  pose proof (round_number_bounds e (session_id k) (correlation_id k) Hr)
    as [Hrn1 Hrn2].
  assert (default 0%Z (_session_round_counter (call k e).2 !! session_id k)
          = round_number_for e (session_id k) (correlation_id k)) as Hctr.
  { by rewrite call_new_counter, lookup_insert_eq. }
  intros Hi.
  destruct (decide (i < length (history_of e (session_id k)))%nat) as [Hlt|Hge].
  - rewrite lookup_app_l in Hi by lia.
    destruct (He _ i p oid r Hi) as (Hr1 & Hcat & Hsorted).
    split; [lia|]. split; [done|].
    intros j p' oid' r' Hij Hj.
    destruct (decide (j < length (history_of e (session_id k)))%nat).
    + rewrite lookup_app_l in Hj by lia. eauto.
    + rewrite lookup_app_r in Hj by lia.
      destruct (j - length (history_of e (session_id k)))%nat; [|done].
      injection Hj as <- <- <-. lia.
  - rewrite lookup_app_r in Hi by lia.
    destruct (i - length (history_of e (session_id k)))%nat eqn:Ei; [|done].
    injection Hi as <- <- <-.
    apply candidates_compatible in Hobj as (Hcat & Hcompat & _).
    split; [lia|]. split; [by exists obj|].
    intros j p' oid' r' Hij Hj.
    apply lookup_lt_Some in Hj. rewrite length_app in Hj. simpl in Hj. lia.
Qed.

(** X14. The cooldown history of a reachable engine is sound: every entry
    [(persona, objective_id, round)] names a catalog objective compatible
    with the persona, its round number lies between 1 and the round counter
    of the session, and round numbers do not decrease along the list. *)
Theorem cooldown_history_entries e s (i : nat) p oid (r : Z) :
  reachable e →
  history_of e s !! i = Some (p, oid, r) →
  (1 ≤ r ≤ default 0 (_session_round_counter e !! s))%Z ∧
  (∃ o, o ∈ OBJECTIVES ∧ obj_id o = oid ∧
        (compatible_personas o = [] ∨ p ∈ compatible_personas o)) ∧
  (∀ j p' oid' r', (i < j)%nat →
                   history_of e s !! j = Some (p', oid', r') → (r ≤ r')%Z).
Proof. apply reachable_history_entries. Qed.

(** The entry of round 1 of the scenario. *)
Lemma cooldown_history_entries_witness :
  (1 ≤ 1 ≤ default 0
             (_session_round_counter
                (run [scenario_call "gandalf"] (__init__ None)) !! "s1"))%Z.
Proof.
  apply (cooldown_history_entries
           (run [scenario_call "gandalf"] (__init__ None))
           "s1" 0 "gandalf" "the_ring" 1).
  - by exists None, [scenario_call "gandalf"].
  - vm_compute. reflexivity.
Defined.

(** ** When a successful roll assigns nothing *)

Lemma candidates_nil_identity_crisis history sab (rn cd : Z) :
  candidates history sab rn cd = [] →
  "identity_crisis" ∈ recent_objectives history sab rn cd.
Proof.
  intros Hnil.
  destruct (decide ("identity_crisis" ∈ recent_objectives history sab rn cd))
    as [Hin|Hout]; [done|exfalso].
  assert (identity_crisis ∈ candidates history sab rn cd) as Hc.
  { unfold candidates, _get_compatible_objectives.
    apply list_elem_of_filter. split; [done|].
    apply list_elem_of_filter. split; [by left|].
    unfold OBJECTIVES. do 19 apply list_elem_of_further.
    apply list_elem_of_here. }
  rewrite Hnil in Hc. by apply not_elem_of_nil in Hc.
Qed.

(** X15. A round whose activation roll succeeds is left without an objective
    only through the cooldown of the universal objective: if the first
    request of a round draws a roll of at most [chance_per_round] and the
    empty decision is stored, then some active persona was given
    [identity_crisis] in a round at most [cooldown_rounds] back. *)
Theorem empty_decision_after_successful_roll e k (ch : Q) (cd : Z) :
  is_enabled e = true →
  chance_per_round (_config e) = Some ch →
  cooldown_rounds (_config e) = Some cd →
  _round_decisions e !! correlation_id k = None →
  (roll (draws k) <= ch)%Q →
  _round_decisions (call k e).2 !! correlation_id k = Some empty_decision →
  ∃ sab r,
    sab ∈ active_personas k ∧
    (sab, "identity_crisis", r) ∈ history_of e (session_id k) ∧
    (round_number_for e (session_id k) (correlation_id k) - r ≤ cd)%Z.
Proof.
  intros Hen Hch Hcd Hnew Hroll Hempty.
  apply Qle_bool_iff in Hroll.
  destruct (call_outcome_intro e k) as [Hoff|d _ Hd|x e1 _ _ Hout
                                       |d e1 _ _ Hout Hd1];
    try congruence.
  { apply round_outcome_raise in Hout. congruence. }
  rewrite decided_lookup in Hempty. injection Hempty as Hempty.
  assert (objective d = None) as Hobj.
  { rewrite <- (replay_objective d (persona k)). by rewrite Hempty. }
  inversion Hout as [ |ch' Hch' Hr|     | |ch' sab cd' Hch' Hr Hact Hcd' Hc
                    | | |ch' sab cd' obj dur Hch' Hr Hact Hcd' Hc Hpick Hdur];
    subst.
  - congruence.
  - assert (cd' = cd) as -> by congruence.
    apply candidates_nil_identity_crisis, recent_objectives_inv in Hc
      as (r & Hin & Hle).
    exists sab, r. split; [by eapply list_elem_of_lookup_2|done].
  - simpl in Hd1. rewrite lookup_insert_eq in Hd1. injection Hd1 as <-.
    discriminate Hobj.
Qed.

(** A persona outside every compatibility list has the universal objective
    as its only candidate: round 1 gives it, round 2 finds nothing. *)
Lemma empty_decision_after_successful_roll_witness :
  ∃ sab r,
    sab ∈ ["nobody"] ∧
    (sab, "identity_crisis", r) ∈
      history_of (run [mkCall "s1" "c1" "nobody" ["nobody"] scenario_draws]
                      (__init__ None)) "s1" ∧
    (round_number_for
       (run [mkCall "s1" "c1" "nobody" ["nobody"] scenario_draws]
            (__init__ None)) "s1" "c2" - r ≤ 4)%Z.
Proof.
  apply (empty_decision_after_successful_roll
           (run [mkCall "s1" "c1" "nobody" ["nobody"] scenario_draws]
                (__init__ None))
           (mkCall "s1" "c2" "nobody" ["nobody"] scenario_draws)
           float_0_33 4).
  - reflexivity.
  - reflexivity.
  - reflexivity.
  - vm_compute. reflexivity.
  - vm_compute. discriminate.
  - vm_compute. reflexivity.
Defined.

(** ** Decisions are keyed by correlation id alone *)





(** ** Start-up *)

(** C9, as the specification words it, fails: a configuration with a chance
    of -5 and a duration of -3 is taken as it is, nothing is raised, and
    the engine answers requests with it. *)
Lemma malformed_config_accepted :
  __init__ (Some (mkConfig (Some true) (Some (-5 # 1)) (Some 1%Z)
                           (Some (-3)%Z) (Some 4%Z) false)) =
    mkEngine (mkConfig (Some true) (Some (-5 # 1)) (Some 1%Z)
                       (Some (-3)%Z) (Some 4%Z) false) ∅ ∅ ∅ ∅ ∧
  (call (scenario_call "gandalf")
     (__init__ (Some (mkConfig (Some true) (Some (-5 # 1)) (Some 1%Z)
                               (Some (-3)%Z) (Some 4%Z) false)))).1 =
    Return None.
Proof. split; vm_compute; reflexivity. Qed.

Lemma init_given (c : Config) :
  c ≠ mkConfig None None None None None false →
  __init__ (Some c) = mkEngine c ∅ ∅ ∅ ∅.
Proof.
  intros Hc. unfold __init__.
  destruct c as [[|] [|] [|] [|] [|] []]; try done.
Qed.

Lemma compatible_objectives_nonempty (sab : string) (rn cd : Z) :
  candidates [] sab rn cd ≠ [].
Proof.
  intros Hnil. apply candidates_nil_identity_crisis in Hnil.
  unfold recent_objectives in Hnil. simpl in Hnil.
  by apply not_elem_of_empty in Hnil.
Qed.

(** C9 (amended). Nothing is validated at start-up.  [__init__] builds an
    engine with empty maps that holds the configuration it is given, as
    it is, whatever its values (the default one when none or the empty
    dict is given).  Such an engine serves requests with the values it
    holds: a missing numeric key shows as a [KeyError] only at the first
    request that reads it; a chance outside [0,1] is compared with the
    roll like any other; and a duration, also a negative one, becomes the
    [messages_remaining] of the decision.  The catalog as written has
    every weight above zero and every [signature_for] persona in its
    objective's [compatible_personas]. *)
Theorem startup_accepts_any_config (c : Config) k :
  __init__ None = mkEngine SABOTAGE_CONFIG ∅ ∅ ∅ ∅ ∧
  __init__ (Some (mkConfig None None None None None false)) =
    mkEngine SABOTAGE_CONFIG ∅ ∅ ∅ ∅ ∧
  (c ≠ mkConfig None None None None None false →
   __init__ (Some c) = mkEngine c ∅ ∅ ∅ ∅ ∧
   (enabled c ≠ Some false →
    (chance_per_round c = None →
     (call k (__init__ (Some c))).1 = Raise (KeyError "chance_per_round")) ∧
    (∀ ch, chance_per_round c = Some ch → (ch < roll (draws k))%Q →
           (call k (__init__ (Some c))).1 = Return None ∧
           _round_decisions (call k (__init__ (Some c))).2
             !! correlation_id k = Some empty_decision) ∧
    (∀ ch, chance_per_round c = Some ch → (roll (draws k) <= ch)%Q →
           active_personas k ≠ [] →
           (cooldown_rounds c = None →
            (call k (__init__ (Some c))).1 =
              Raise (KeyError "cooldown_rounds")) ∧
           (is_Some (cooldown_rounds c) → duration_messages c = None →
            (call k (__init__ (Some c))).1 =
              Raise (KeyError "duration_messages")) ∧
           (∀ dur, is_Some (cooldown_rounds c) →
                   duration_messages c = Some dur →
                   ∃ sab obj,
                     sab ∈ active_personas k ∧ obj ∈ OBJECTIVES ∧
                     (call k (__init__ (Some c))).1 =
                       Return (if bool_decide (persona k = sab) && (0 <? dur)%Z
                               then Some (prompt obj) else None) ∧
                     _round_decisions (call k (__init__ (Some c))).2
                       !! correlation_id k =
                       Some (mkRoundDecision (Some sab) (Some obj)
                               (if bool_decide (persona k = sab) &&
                                   (0 <? dur)%Z
                                then dur - 1 else dur)%Z))))) ∧
  Forall (λ o, (0 < weight o)%Z) OBJECTIVES ∧
  Forall (λ o, ∀ p, signature_for o = Some p → p ∈ compatible_personas o)
         OBJECTIVES.
Proof.
  split; [done|]. split; [done|]. split; [|split].
  - intros Hc. rewrite (init_given c Hc). split; [done|].
    intros Hon.
    remember (mkEngine c ∅ ∅ ∅ ∅) as e0 eqn:He0.
    assert (_config e0 = c) as Hcfg by (by subst e0).
    assert (is_enabled e0 = true) as Hen.
    { unfold is_enabled. rewrite Hcfg. by destruct (enabled c) as [[|]|]. }
    assert (_round_decisions e0 !! correlation_id k = None) as Hnew
      by (subst e0; apply lookup_empty).
    assert (history_of e0 (session_id k) = []) as Hhist by (by subst e0).
    clear He0.
    pose proof (call_outcome_intro e0 k) as Hcall.
    split; [|split].
    + intros Hch.
      destruct Hcall as [Hoff|d _ Hd|x e1 _ _ Hout|d e1 _ _ Hout Hd1];
        try congruence; inversion Hout; subst; congruence.
    + intros ch Hch Hroll. apply roll_fails in Hroll.
      destruct Hcall as [Hoff|d _ Hd|x e1 _ _ Hout|d e1 _ _ Hout Hd1];
        try congruence; inversion Hout; subst; try congruence.
      rewrite decided_lookup in Hd1. injection Hd1 as <-.
      rewrite replay_empty. cbn [fst snd]. by rewrite decided_lookup.
    + intros ch Hch Hroll Hact. apply Qle_bool_iff in Hroll.
      split; [|split].
      * intros Hcd.
        destruct Hcall as [Hoff|d _ Hd|x e1 _ _ Hout|d e1 _ _ Hout Hd1];
          try congruence; inversion Hout; subst; try congruence.
        by match goal with H : active_personas k !! _ = None |- _ =>
          apply random_choice_nonempty in H end.
      * intros [cd Hcd] Hdur.
        destruct Hcall as [Hoff|d _ Hd|x e1 _ _ Hout|d e1 _ _ Hout Hd1];
          try congruence.
        -- pose proof (round_outcome_raise_cases _ _ _ _ _ _ _ Hout)
             as [_ [[_ H]|[[_ H]|[[-> _]|[_ H]]]]]; congruence.
        -- inversion Hout; subst; try congruence.
           rewrite Hhist in *.
           by match goal with H : candidates [] _ _ _ = [] |- _ =>
             apply compatible_objectives_nonempty in H end.
      * intros dur [cd Hcd] Hdur.
        destruct Hcall as [Hoff|d _ Hd|x e1 _ _ Hout|d e1 _ _ Hout Hd1];
          try congruence.
        -- pose proof (round_outcome_raise_cases _ _ _ _ _ _ _ Hout)
             as [_ [[_ H]|[[_ H]|[[_ H]|[_ H]]]]]; congruence.
        -- inversion Hout as [ |ch' Hch' Hr| |
                             |ch' sab cd' Hch' Hr Hsab Hcd' Hcand
                             | | |ch' sab cd' obj dur' Hch' Hr Hsab Hcd' Hcand
                                  Hpick Hdur'];
             subst; try congruence.
           { rewrite Hhist in Hcand.
             by apply compatible_objectives_nonempty in Hcand. }
           cbn [_round_decisions set_session_history] in Hd1.
           rewrite decided_lookup in Hd1. injection Hd1 as <-.
           assert (dur' = dur) as -> by congruence.
           exists sab, obj. split; [by eapply list_elem_of_lookup_2|].
           split.
           { apply weighted_pick_elem in Hpick.
             unfold candidates, _get_compatible_objectives in Hpick.
             apply list_elem_of_filter in Hpick as [_ Hpick].
             by apply list_elem_of_filter in Hpick as [_ Hpick]. }
           rewrite replay_assigned.
           destruct (bool_decide (persona k = sab) && (0 <? dur)%Z);
             cbn [fst snd]; by rewrite decided_lookup.
  - apply catalog_weights_positive.
  - repeat (constructor;
            [intros p Hp; simpl in Hp; try discriminate;
             injection Hp as <-; simpl; apply list_elem_of_here|]).
    constructor.
Qed.

(** A dict that holds only a key the engine does not know is kept, and the
    first request finds no chance in it. *)
Lemma startup_accepts_any_config_witness :
  __init__ (Some (mkConfig None None None None None true)) =
    mkEngine (mkConfig None None None None None true) ∅ ∅ ∅ ∅ ∧
  (call (scenario_call "gandalf")
     (__init__ (Some (mkConfig None None None None None true)))).1 =
    Raise (KeyError "chance_per_round").
Proof.
  destruct (proj1 (proj2 (proj2 (startup_accepts_any_config
                                   (mkConfig None None None None None true)
                                   (scenario_call "gandalf")))))
    as [Hinit Hrun].
  - discriminate.
  - split; [exact Hinit|].
    apply (proj1 (Hrun ltac:(discriminate))). reflexivity.
Defined.

End EngineRuns.

(* ===================================================================== *)
(** * Properties of the agents and the request handlers *)
(* ===================================================================== *)

Section ServerFacts.
Import SessionStore Agents Server.

Implicit Types (req : InvokeRequest) (st : State) (rnd : Sabotage.Draws).

(** ** Personas *)

Lemma roster_lookup (persona : string) :
  persona ∈ get_personas ↔ is_Some (PERSONAS_dict !! persona).
Proof.
  unfold get_personas, PERSONAS_dict.
  rewrite <- elem_of_dom, dom_list_to_map_L. by rewrite elem_of_list_to_set.
Qed.

Lemma angry_chef_present : is_Some (PERSONAS_dict !! "angry_chef").
Proof. apply roster_lookup. vm_compute. constructor. Qed.

Lemma create_eval (persona : string) (objective_prompt : option string) :
  ∃ fallback,
    PERSONAS_dict !! "angry_chef" = Some fallback ∧
    create persona objective_prompt =
    inl (mkAgent
           (match objective_prompt with
            | Some (String _ _ as objective) =>
                default fallback (PERSONAS_dict !! persona) +:+ " " +:+ objective
            | _ => default fallback (PERSONAS_dict !! persona)
            end)).
Proof.
  destruct angry_chef_present as [fallback Hf]. exists fallback.
  split; [done|]. unfold create. rewrite Hf.
  by destruct objective_prompt as [[|]|].
Qed.

(** ** Messages in SDK form *)

Lemma to_sdk_map (messages : list Message) :
  _to_sdk_messages messages =
  (λ msg, mkSdkMessage (msg_role msg) [msg_content msg]) <$> messages.
Proof.
  unfold _to_sdk_messages.
  assert (∀ acc,
            fold_left (λ sdk_messages msg,
                         sdk_messages ++ [mkSdkMessage (msg_role msg)
                                                       [msg_content msg]])
                      messages acc =
            acc ++ ((λ msg, mkSdkMessage (msg_role msg) [msg_content msg])
                    <$> messages)) as H; [|apply H].
  induction messages as [|m messages IH]; intros acc; simpl.
  - by rewrite app_nil_r.
  - rewrite IH. by rewrite <- app_assoc.
Qed.

Lemma append_user_last sessions s text :
  last (get_full_history (append_user sessions s text) s) =
  Some (mkTurn "user" text None) ∨
  ∃ t, last (get_full_history (append_user sessions s text) s) = Some t ∧
       role t = "user" ∧ content t = text ∧
       get_full_history (append_user sessions s text) s =
       get_full_history sessions s.
Proof.
  rewrite append_user_history.
  destruct (is_duplicate (get_full_history sessions s) text) eqn:Hd.
  - right. apply is_duplicate_spec in Hd as (t & Hl & Hr & Hc). eauto.
  - left. by rewrite last_snoc.
Qed.

Lemma build_messages_store (session_id : option string) (message : string)
    (store : Sessions) :
  (truthy session_id = false →
   _build_messages session_id message store =
   ([mkSdkMessage "user" [message]], store)) ∧
  (∀ sid, session_id = Some sid → sid ≠ "" →
     (_build_messages session_id message store).2 =
       append_user store sid message).
Proof.
  split.
  - destruct session_id as [[|]|]; simpl; (done || by intros _).
  - intros sid -> Hsid. by destruct sid as [|a sid].
Qed.

(** X16. [_build_messages]: without a session id (none, or the empty
    string) the store is left alone and the result is the one user
    message; with a session id the store is the one [append_user] leaves,
    and the result has one message per stored turn of the session, each
    with the stored role and a single text block, the last of them being
    the user message just passed. *)
Theorem build_messages_result (session_id : option string) (message : string)
    (store : Sessions) :
  (truthy session_id = false →
   _build_messages session_id message store =
   ([mkSdkMessage "user" [message]], store)) ∧
  (∀ sid, session_id = Some sid → sid ≠ "" →
     (_build_messages session_id message store).2 =
       append_user store sid message ∧
     (_build_messages session_id message store).1 =
       (λ msg, mkSdkMessage (msg_role msg) [msg_content msg])
       <$> get_messages (append_user store sid message) sid ∧
     length (_build_messages session_id message store).1 =
       length (get_full_history (append_user store sid message) sid) ∧
     last (_build_messages session_id message store).1 =
       Some (mkSdkMessage "user" [message])).
Proof.
  split.
  - destruct session_id as [[|]|]; simpl; (done || by intros _).
  - intros sid -> Hsid. destruct sid as [|a sid]; [done|].
    unfold _build_messages. cbn [fst snd].
    rewrite to_sdk_map. split; [done|]. split; [done|].
    split; [by rewrite length_fmap, get_messages_map, length_fmap|].
    rewrite fmap_last, get_messages_map, fmap_last.
    destruct (append_user_last store (String a sid) message)
      as [->|(t & -> & Hr & Hc & _)].
    + reflexivity.
    + simpl. by rewrite render_user, Hr, Hc.
Qed.

(** A second question in a session that holds one exchange. *)
Lemma build_messages_result_witness :
  last (_build_messages (Some "s") "again"
          (append_assistant (append_user SessionStore.__init__ "s" "q")
                            "s" "hi" "gandalf")).1 =
  Some (mkSdkMessage "user" ["again"]).
Proof.
  apply (proj2 (build_messages_result (Some "s") "again"
                  (append_assistant (append_user SessionStore.__init__ "s" "q")
                                    "s" "hi" "gandalf")) "s" eq_refl).
  discriminate.
Defined.

(** ** The shared start of the handlers *)

Lemma create_agent_roster (persona prompt : string)
    (objective_prompt : option string) :
  PERSONAS_dict !! persona = Some prompt →
  create_agent persona objective_prompt =
  inl (mkAgent (with_objective prompt objective_prompt)).
Proof.
  intros Hp. unfold create_agent.
  destruct (create_eval persona objective_prompt) as (fallback & _ & ->).
  rewrite Hp. simpl. unfold with_objective.
  by destruct objective_prompt as [[|]|].
Qed.

Lemma prepare_unknown req rnd st :
  persona_of_request req ∉ get_personas →
  prepare req rnd st =
  (Failed (HTTPException 400 ("Unknown persona: " +:+ persona_of_request req)),
   st).
Proof.
  intros Hp. unfold prepare. fold (persona_of_request req).
  by rewrite bool_decide_eq_true_2.
Qed.

Lemma prepare_roster req rnd st (prompt : string) :
  PERSONAS_dict !! persona_of_request req = Some prompt →
  prepare req rnd st =
  match consult req rnd (sabotage_engine st) with
  | (Sabotage.Raise x, engine1) =>
      (Failed (EngineRaised x), mkState (sessions st) engine1)
  | (Sabotage.Return objective_prompt, engine1) =>
      (Ok (persona_of_request req,
           mkAgent (with_objective prompt objective_prompt),
           (_build_messages (req_session_id req) (req_message req)
                            (sessions st)).1),
       mkState (_build_messages (req_session_id req) (req_message req)
                                (sessions st)).2 engine1)
  end.
Proof.
  intros Hp. unfold prepare. fold (persona_of_request req).
  rewrite bool_decide_eq_false_2.
  2:{ intros Hn. apply Hn, roster_lookup. by eexists. }
  change (match req_session_id req with
          | Some (String a s0 as sid) =>
              if bool_decide
                   (default "" (md_correlation_id (req_metadata req)) ≠ "")
              then
                Sabotage.get_objective_for_persona sid
                  (default "" (md_correlation_id (req_metadata req)))
                  (persona_of_request req)
                  (default [persona_of_request req]
                           (md_active_personas (req_metadata req)))
                  rnd (sabotage_engine st)
              else (Sabotage.Return None, sabotage_engine st)
          | _ => (Sabotage.Return None, sabotage_engine st)
          end) with (consult req rnd (sabotage_engine st)).
  destruct (consult req rnd (sabotage_engine st)) as [[objective|x] engine1];
    [|done].
  rewrite (create_agent_roster _ prompt) by done.
  by destruct (_build_messages _ _ _).
Qed.

Lemma analyst_not_in_roster : "analyst" ∉ get_personas.
Proof.
  intros [x Hx]%roster_lookup. vm_compute in Hx. discriminate Hx.
Qed.

(** X17. A request for a persona outside the roster is refused by both
    handlers with status 400 and the detail ["Unknown persona: <persona>"],
    before the engine or the store is touched; a request that names no
    persona is read as ["analyst"], which the roster does not have, and
    is refused in the same way. *)
Theorem unknown_persona_rejected
    (respond : Agent → list SdkMessage → option string)
    (stream_async : Agent → list SdkMessage → SdkStream) req rnd st :
  (persona_of_request req ∉ get_personas →
   invoke respond req rnd st =
     (Failed (HTTPException 400
                ("Unknown persona: " +:+ persona_of_request req)), st) ∧
   stream stream_async req rnd st =
     (Failed (HTTPException 400
                ("Unknown persona: " +:+ persona_of_request req)), st)) ∧
  (md_persona (req_metadata req) = None →
   invoke respond req rnd st =
     (Failed (HTTPException 400 "Unknown persona: analyst"), st) ∧
   stream stream_async req rnd st =
     (Failed (HTTPException 400 "Unknown persona: analyst"), st)).
Proof.
  assert (persona_of_request req ∉ get_personas →
          invoke respond req rnd st =
            (Failed (HTTPException 400
                       ("Unknown persona: " +:+ persona_of_request req)), st) ∧
          stream stream_async req rnd st =
            (Failed (HTTPException 400
                       ("Unknown persona: " +:+ persona_of_request req)), st))
    as Hgen.
  { intros Hp. unfold invoke, stream. by rewrite prepare_unknown. }
  split; [done|]. intros Hnone.
  assert (persona_of_request req = "analyst") as Hp
    by (unfold persona_of_request; by rewrite Hnone).
  rewrite Hp in Hgen. apply Hgen, analyst_not_in_roster.
Qed.

(** A request without metadata. *)
Lemma unknown_persona_rejected_witness :
  invoke (λ _ _, Some "reply")
    (mkInvokeRequest "q" (Some "s1") (mkMetadata None None None))
    Sabotage.scenario_draws
    (mkState SessionStore.__init__ (Sabotage.__init__ None)) =
  (Failed (HTTPException 400 "Unknown persona: analyst"),
   mkState SessionStore.__init__ (Sabotage.__init__ None)).
Proof.
  apply (proj2 (unknown_persona_rejected (λ _ _, Some "reply")
                  (λ _ _, mkSdkStream [] false)
                  (mkInvokeRequest "q" (Some "s1") (mkMetadata None None None))
                  Sabotage.scenario_draws
                  (mkState SessionStore.__init__ (Sabotage.__init__ None)))).
  reflexivity.
Defined.

(** ** Requests that pass the engine by *)

Lemma consult_bypass req rnd (engine : Sabotage.Engine) :
  truthy (req_session_id req) = false ∨
  default "" (md_correlation_id (req_metadata req)) = "" →
  consult req rnd engine = (Sabotage.Return None, engine).
Proof.
  unfold consult. intros [Hs|Hc].
  - by destruct (req_session_id req) as [[|]|].
  - rewrite Hc. by destruct (req_session_id req) as [[|]|].
Qed.

(** X18. A request without a session id, or without a correlation id (none,
    or the empty string), never reaches the engine: the engine is left as
    it was and the agent gets the persona's own prompt, without suffix.
    Without a session id [invoke] also leaves the store as it was: the
    model is called with the one user message and its reply is returned. *)
Theorem request_without_round
    (respond : Agent → list SdkMessage → option string) req rnd st
    (prompt : string) :
  PERSONAS_dict !! persona_of_request req = Some prompt →
  (truthy (req_session_id req) = false ∨
   default "" (md_correlation_id (req_metadata req)) = "" →
   ∃ messages store1,
     prepare req rnd st =
     (Ok (persona_of_request req, mkAgent prompt, messages),
      mkState store1 (sabotage_engine st))) ∧
  (truthy (req_session_id req) = false →
   invoke respond req rnd st =
   match respond (mkAgent prompt) [mkSdkMessage "user" [req_message req]] with
   | Some reply =>
       (Ok (mkInvokeResponse reply (persona_of_request req)
                             (req_session_id req)), st)
   | None => (Failed AgentRaised, st)
   end).
Proof.
  intros Hp. split.
  - intros Hby. rewrite (prepare_roster req rnd st prompt Hp).
    rewrite consult_bypass by done. by eexists _, _.
  - intros Hs. unfold invoke.
    rewrite (prepare_roster req rnd st prompt Hp).
    rewrite consult_bypass by (by left).
    rewrite (proj1 (build_messages_store (req_session_id req)
                      (req_message req) (sessions st)) Hs).
    cbn [fst snd with_objective].
    destruct (respond _ _); [|by destruct st].
    destruct (req_session_id req) as [[|]|]; try done; by destruct st.
Qed.

(** A one-shot question to ["gandalf"]. *)
Lemma request_without_round_witness :
  ∃ prompt,
    PERSONAS_dict !! "gandalf" = Some prompt ∧
    invoke (λ _ _, Some "reply")
      (mkInvokeRequest "q" None (mkMetadata (Some "gandalf") (Some "c1") None))
      Sabotage.scenario_draws
      (mkState SessionStore.__init__ (Sabotage.__init__ None)) =
    (Ok (mkInvokeResponse "reply" "gandalf" None),
     mkState SessionStore.__init__ (Sabotage.__init__ None)).
Proof.
  destruct (PERSONAS_dict !! "gandalf") as [prompt|] eqn:Hp.
  2:{ vm_compute in Hp. discriminate Hp. }
  exists prompt. split; [done|].
  exact (proj2 (request_without_round (λ _ _, Some "reply")
                  (mkInvokeRequest "q" None
                     (mkMetadata (Some "gandalf") (Some "c1") None))
                  Sabotage.scenario_draws
                  (mkState SessionStore.__init__ (Sabotage.__init__ None))
                  prompt Hp) eq_refl).
Defined.

(** ** What [invoke] stores *)

Lemma invoke_ok_inv (respond : Agent → list SdkMessage → option string)
    req rnd st (resp : InvokeResponse) (st' : State) :
  invoke respond req rnd st = (Ok resp, st') →
  persona_of_request req ∈ get_personas ∧
  resp_agent resp = persona_of_request req ∧
  resp_session_id resp = req_session_id req ∧
  sessions st' =
    match req_session_id req with
    | Some (String _ _ as sid) =>
        append_assistant
          (_build_messages (req_session_id req) (req_message req)
                           (sessions st)).2
          sid (resp_text resp) (persona_of_request req)
    | _ => (_build_messages (req_session_id req) (req_message req)
                            (sessions st)).2
    end.
Proof.
  intros Hinv.
  destruct (decide (persona_of_request req ∈ get_personas)) as [Hin|Hout].
  2:{ unfold invoke in Hinv. by rewrite prepare_unknown in Hinv. }
  split; [done|].
  apply roster_lookup in Hin as [prompt Hp].
  unfold invoke in Hinv. rewrite (prepare_roster req rnd st prompt Hp) in Hinv.
  destruct (consult req rnd (sabotage_engine st)) as [[objective|x] engine1];
    [|done].
  destruct (respond _ _) as [reply|]; [|done].
  injection Hinv as <- <-. simpl. done.
Qed.

(** X19. A successful [invoke] with a session id stores the exchange: the
    session's history is what [append_user] made of it, followed by one
    assistant turn holding the returned text under the request's persona;
    other sessions are untouched, and the response echoes the persona and
    the session id. *)
Theorem invoke_stores_exchange
    (respond : Agent → list SdkMessage → option string)
    req rnd st (resp : InvokeResponse) (st' : State) (sid : string) :
  req_session_id req = Some sid → sid ≠ "" →
  invoke respond req rnd st = (Ok resp, st') →
  resp_agent resp = persona_of_request req ∧
  resp_session_id resp = Some sid ∧
  get_full_history (sessions st') sid =
    get_full_history (append_user (sessions st) sid (req_message req)) sid
    ++ [mkTurn "assistant" (resp_text resp) (Some (persona_of_request req))] ∧
  (∀ s', s' ≠ sid →
         get_full_history (sessions st') s' = get_full_history (sessions st) s').
Proof.
  intros Hsid Hne Hinv.
  destruct (invoke_ok_inv _ _ _ _ _ _ Hinv) as (_ & Hagent & Hsess & Hstore).
  rewrite Hsid in Hsess, Hstore.
  pose proof (proj2 (build_messages_store (Some sid) (req_message req)
                       (sessions st)) sid eq_refl Hne) as Hstore1.
  rewrite Hstore1 in Hstore.
  destruct sid as [|a sid]; [done|].
  split; [done|]. split; [done|]. rewrite Hstore. split.
  - change (append_assistant ?x ?s ?t ?p)
      with (apply_op x (AppendAssistant s t p)).
    rewrite apply_op_history. by rewrite bool_decide_eq_true_2.
  - intros s' Hs'.
    pose proof (history_append_only_frame (sessions st)
                  [AppendUser (String a sid) (req_message req);
                   AppendAssistant (String a sid) (resp_text resp)
                                   (persona_of_request req)] s') as Hframe.
    simpl in Hframe. apply Hframe.
    intros o Ho.
    apply elem_of_cons in Ho as [->|Ho]; [congruence|].
    apply elem_of_cons in Ho as [->|Ho]; [congruence|].
    by apply not_elem_of_nil in Ho.
Qed.

(** The first request of the scenario, answered with ["reply"]. *)
Lemma invoke_stores_exchange_witness :
  resp_agent (mkInvokeResponse "reply" "gandalf" (Some "s1")) =
  persona_of_request
    (mkInvokeRequest "q" (Some "s1")
       (mkMetadata (Some "gandalf") (Some "c1")
                   (Some Sabotage.scenario_personas))).
Proof.
  refine (proj1 (invoke_stores_exchange (λ _ _, Some "reply")
                   (mkInvokeRequest "q" (Some "s1")
                      (mkMetadata (Some "gandalf") (Some "c1")
                                  (Some Sabotage.scenario_personas)))
                   Sabotage.scenario_draws
                   (mkState SessionStore.__init__ (Sabotage.__init__ None))
                   (mkInvokeResponse "reply" "gandalf" (Some "s1"))
                   (invoke (λ _ _, Some "reply")
                      (mkInvokeRequest "q" (Some "s1")
                         (mkMetadata (Some "gandalf") (Some "c1")
                                     (Some Sabotage.scenario_personas)))
                      Sabotage.scenario_draws
                      (mkState SessionStore.__init__ (Sabotage.__init__ None))).2
                   "s1" eq_refl _ _)).
  - discriminate.
  - vm_compute. reflexivity.
Defined.

Lemma invoke_history (respond : Agent → list SdkMessage → option string)
    req rnd st (resp : InvokeResponse) (st' : State) (sid : string) :
  req_session_id req = Some sid → sid ≠ "" →
  invoke respond req rnd st = (Ok resp, st') →
  get_full_history (sessions st') sid =
  get_full_history (append_user (sessions st) sid (req_message req)) sid
  ++ [mkTurn "assistant" (resp_text resp) (Some (persona_of_request req))].
Proof.
  intros Hsid Hne Hinv.
  destruct (invoke_ok_inv _ _ _ _ _ _ Hinv) as (_ & _ & _ & Hstore).
  rewrite Hsid in Hstore.
  pose proof (proj2 (build_messages_store (Some sid) (req_message req)
                       (sessions st)) sid eq_refl Hne) as Hstore1.
  rewrite Hstore1 in Hstore.
  destruct sid as [|a sid]; [done|]. rewrite Hstore.
  change (append_assistant ?x ?s ?t ?p)
    with (apply_op x (AppendAssistant s t p)).
  rewrite apply_op_history. by rewrite bool_decide_eq_true_2.
Qed.

(** X20. The deduplication of [append_user] does not reach across a reply:
    when one successful [invoke] of a session is followed by another, the
    second stores its user message again, whatever its text, and then its
    reply; so the three requests of a round, served one after the other,
    leave the question in the history three times. *)
Theorem user_message_stored_after_each_reply
    (respond : Agent → list SdkMessage → option string)
    req1 rnd1 st (resp1 : InvokeResponse) (st1 : State)
    req2 rnd2 (resp2 : InvokeResponse) (st2 : State) (sid : string) :
  req_session_id req1 = Some sid → req_session_id req2 = Some sid →
  sid ≠ "" →
  invoke respond req1 rnd1 st = (Ok resp1, st1) →
  invoke respond req2 rnd2 st1 = (Ok resp2, st2) →
  get_full_history (sessions st2) sid =
  get_full_history (sessions st1) sid
  ++ [mkTurn "user" (req_message req2) None;
      mkTurn "assistant" (resp_text resp2) (Some (persona_of_request req2))].
Proof.
  intros Hs1 Hs2 Hne H1 H2.
  rewrite (invoke_history _ _ _ _ _ _ _ Hs2 Hne H2).
  rewrite append_user_history.
  rewrite (invoke_history _ _ _ _ _ _ _ Hs1 Hne H1).
  unfold is_duplicate at 1. rewrite last_snoc. simpl.
  by rewrite <- app_assoc.
Qed.

(** Two requests of one round, the same question both times. *)
Lemma user_message_stored_after_each_reply_witness :
  get_full_history
    (sessions
       (invoke (λ _ _, Some "reply")
          (mkInvokeRequest "q" (Some "s1")
             (mkMetadata (Some "angry_chef") (Some "c1")
                         (Some Sabotage.scenario_personas)))
          Sabotage.scenario_draws
          (invoke (λ _ _, Some "reply")
             (mkInvokeRequest "q" (Some "s1")
                (mkMetadata (Some "gandalf") (Some "c1")
                            (Some Sabotage.scenario_personas)))
             Sabotage.scenario_draws
             (mkState SessionStore.__init__ (Sabotage.__init__ None))).2).2)
    "s1" =
  get_full_history
    (sessions
       (invoke (λ _ _, Some "reply")
          (mkInvokeRequest "q" (Some "s1")
             (mkMetadata (Some "gandalf") (Some "c1")
                         (Some Sabotage.scenario_personas)))
          Sabotage.scenario_draws
          (mkState SessionStore.__init__ (Sabotage.__init__ None))).2)
    "s1"
  ++ [mkTurn "user" "q" None; mkTurn "assistant" "reply" (Some "angry_chef")].
Proof.
  refine (user_message_stored_after_each_reply (λ _ _, Some "reply")
            (mkInvokeRequest "q" (Some "s1")
               (mkMetadata (Some "gandalf") (Some "c1")
                           (Some Sabotage.scenario_personas)))
            Sabotage.scenario_draws
            (mkState SessionStore.__init__ (Sabotage.__init__ None))
            (mkInvokeResponse "reply" "gandalf" (Some "s1")) _
            (mkInvokeRequest "q" (Some "s1")
               (mkMetadata (Some "angry_chef") (Some "c1")
                           (Some Sabotage.scenario_personas)))
            Sabotage.scenario_draws
            (mkInvokeResponse "reply" "angry_chef" (Some "s1")) _
            "s1" eq_refl eq_refl _ _ _).
  - discriminate.
  - vm_compute. reflexivity.
  - vm_compute. reflexivity.
Defined.

(** ** The system prompt of an agent *)

Lemma ends_with_app (suffix a s : string) :
  ends_with suffix s = true → ends_with suffix (a +:+ s) = true.
Proof.
  intros Hs. induction a as [|c a IH]; simpl; [done|].
  rewrite IH. apply orb_true_r.
Qed.

Lemma catalog_prompts_end :
  Forall (λ o, ends_with "Still answer the question." (Sabotage.prompt o)
               = true) Sabotage.OBJECTIVES.
Proof. repeat constructor. Qed.

(** X21. The lookups of [create] never fail, so [create_agent] builds an
    agent for every persona.  The system prompt is the prompt of
    the persona, or that of ["angry_chef"] for a persona outside the
    roster; [None] and the empty string add nothing to it; an objective
    prompt is added after one space, and with an objective of the catalog
    the system prompt ends with ["Still answer the question."]. *)
Theorem agent_system_prompt (persona : string)
    (objective_prompt : option string) :
  ∃ fallback,
    PERSONAS_dict !! "angry_chef" = Some fallback ∧
    create_agent persona objective_prompt =
      inl (mkAgent (with_objective (default fallback (PERSONAS_dict !! persona))
                                   objective_prompt)) ∧
    with_objective (default fallback (PERSONAS_dict !! persona)) None =
      default fallback (PERSONAS_dict !! persona) ∧
    with_objective (default fallback (PERSONAS_dict !! persona)) (Some "") =
      default fallback (PERSONAS_dict !! persona) ∧
    ∀ o, o ∈ Sabotage.OBJECTIVES →
         with_objective (default fallback (PERSONAS_dict !! persona))
                        (Some (Sabotage.prompt o)) =
           default fallback (PERSONAS_dict !! persona) +:+ " "
           +:+ Sabotage.prompt o ∧
         ends_with "Still answer the question."
           (default fallback (PERSONAS_dict !! persona) +:+ " "
            +:+ Sabotage.prompt o) = true.
Proof.
  destruct (create_eval persona objective_prompt) as (fallback & Hf & Hc).
  exists fallback. split; [done|]. split.
  { unfold create_agent. rewrite Hc. unfold with_objective.
    by destruct objective_prompt as [[|]|]. }
  split; [done|]. split; [done|].
  intros o Ho.
  pose proof catalog_prompts_end as Hend. rewrite Forall_forall in Hend.
  specialize (Hend o Ho). split.
  - unfold with_objective. destruct (Sabotage.prompt o); [|done].
    vm_compute in Hend. discriminate Hend.
  - apply ends_with_app. by apply (ends_with_app _ " ").
Qed.

(** ** Streams *)

Lemma extends_refl (g : Gen) : extends g g [].
Proof.
  unfold extends. rewrite app_nil_r. simpl. rewrite string_app_nil_r.
  split; [done|]. split; [constructor|]. split; [done|]. split.
  - by left.
  - intros [?|(x & Hx & _)]; [done|]. by apply not_elem_of_nil in Hx.
Qed.

Lemma concat_strings_app (a b : list string) :
  concat_strings (a ++ b) = concat_strings a +:+ concat_strings b.
Proof.
  induction a as [|x a IH]; simpl; [done|].
  rewrite IH. by rewrite string_app_assoc.
Qed.

Lemma extends_trans (g1 g2 g3 : Gen) (m1 m2 : list Sse) :
  extends g1 g2 m1 → extends g2 g3 m2 → extends g1 g3 (m1 ++ m2).
Proof.
  intros (Hy1 & Hf1 & Ht1 & Hg1) (Hy2 & Hf2 & Ht2 & Hg2). unfold extends.
  rewrite Hy2, Hy1, Ht2, Ht1, Hg2, Hg1.
  split; [by rewrite app_assoc|]. split; [by apply Forall_app|].
  split; [by rewrite fmap_app, concat_strings_app, string_app_assoc|].
  split.
  - intros [[?|(x & Hx & Htx)]|(x & Hx & Htx)]; [by left|right..];
      exists x; (split; [|done]); apply elem_of_app; [by left|by right].
  - intros [?|(x & [Hx|Hx]%elem_of_app & Htx)]; [by left; left|..].
    + left. right. by exists x.
    + right. by exists x.
Qed.

(** One payload yielded, with the text and the flag that go with it. *)
Lemma extends_one (g : Gen) (x : Sse) :
  relayed x = true →
  extends g (mkGen (full_text g +:+ text_of x)
                   (got_terminal g || terminal x)
                   (yielded g ++ [x])) [x].
Proof.
  intros Hx. unfold extends. cbn [yielded full_text got_terminal].
  split; [done|]. split; [by repeat constructor|].
  split; [simpl; by rewrite string_app_nil_r|].
  rewrite orb_true_iff. split.
  - intros [?|?]; [by left|right]. exists x.
    split; [apply list_elem_of_here|done].
  - intros [?|(y & Hy & Hty)]; [by left|right].
    apply elem_of_cons in Hy as [->|Hy]; [done|].
    by apply not_elem_of_nil in Hy.
Qed.

Lemma step_extends (g : Gen) (ev : SdkEvent) :
  ∃ more, extends g (step g ev).1 more.
Proof.
  unfold step.
  destruct (map_sdk_event ev) as [canonical|] eqn:Hmap.
  - destruct (serialisable canonical); cbn [negb];
      [|exists []; apply extends_refl].
    exists [SseForward canonical].
    pose proof (extends_one g (SseForward canonical) eq_refl) as Hone.
    cbn [text_of terminal] in Hone.
    destruct (type_is canonical "text") eqn:Htext.
    + assert (type_is canonical "complete" || type_is canonical "error"
              = false) as Hterm.
      { unfold type_is in *. apply bool_decide_eq_true in Htext.
        rewrite Htext. by vm_compute. }
      rewrite Hterm, orb_false_r in Hone.
      destruct (default (VStr "") (canonical !! "content"))
        as [content|ok printed]; cbn [fst yielded full_text got_terminal].
      * exact Hone.
      * rewrite string_app_nil_r in Hone. by destruct g.
    + rewrite string_app_nil_r in Hone.
      destruct (type_is canonical "complete" || type_is canonical "error");
        cbn [fst yielded full_text got_terminal].
      * by rewrite orb_true_r in Hone.
      * rewrite orb_false_r in Hone. by destruct g.
  - destruct ev as [raw|raw|chunk|]; try (exists []; apply extends_refl).
    + destruct (raw !! "data") as [v|]; [|exists []; apply extends_refl].
      exists [SseText (value_str v)].
      pose proof (extends_one g (SseText (value_str v)) eq_refl) as Hone.
      cbn [text_of terminal] in Hone. by rewrite orb_false_r in Hone.
    + exists [SseText chunk].
      pose proof (extends_one g (SseText chunk) eq_refl) as Hone.
      cbn [text_of terminal] in Hone. by rewrite orb_false_r in Hone.
Qed.

(** What holds of the generator's locals all along the loop. *)
Lemma consume_extends (g : Gen) (evs : list SdkEvent) :
  ∃ more, extends g (consume g evs).1 more.
Proof.
  revert g. induction evs as [|ev evs IH]; intros g; cbn [consume].
  { exists []. apply extends_refl. }
  destruct (step_extends g ev) as (m1 & H1).
  destruct (step g ev) as [g1 raised]. cbn [fst] in H1.
  destruct raised; [by exists m1|].
  destruct (IH g1) as (m2 & H2).
  exists (m1 ++ m2). by apply (extends_trans g g1).
Qed.

Lemma existsb_elem_of {A} (f : A → bool) (l : list A) :
  existsb f l = true ↔ ∃ x, x ∈ l ∧ f x = true.
Proof.
  rewrite existsb_exists. split; intros (x & Hx & Hf); exists x;
    (split; [|done]); by apply list_elem_of_In.
Qed.

(** [event_generator], in terms of the payloads it relays. *)
Lemma event_generator_eval (persona : string) (session_id : option string)
    (sdk : SdkStream) (store : Sessions) :
  ∃ sent,
    Forall (λ x, relayed x = true) sent ∧
    event_generator persona session_id sdk store =
    (sent ++ (if existsb terminal sent then []
              else [if stream_fails sdk then SseError
                    else SseComplete (concat_strings (text_of <$> sent))
                                     session_id]),
     if stream_fails sdk then store
     else match session_id with
          | Some (String _ _ as sid) =>
              append_assistant store sid
                (concat_strings (text_of <$> sent)) persona
          | _ => store
          end).
Proof.
  unfold event_generator, stream_fails.
  destruct (consume_extends (mkGen "" false []) (events sdk))
    as (sent & Hy & Hf & Ht & Hg).
  destruct (consume (mkGen "" false []) (events sdk)) as [g raised].
  cbn [fst snd yielded full_text got_terminal] in *.
  rewrite app_nil_l in Hy.
  change ("" +:+ ?x) with x in Ht.
  exists sent. split; [done|].
  assert (got_terminal g = existsb terminal sent) as ->.
  { destruct (existsb terminal sent) eqn:He.
    - apply Hg. right. by apply existsb_elem_of.
    - destruct (got_terminal g); [|done].
      destruct (proj1 Hg eq_refl) as [?|Hx]; [done|].
      apply existsb_elem_of in Hx. congruence. }
  rewrite Hy, Ht. unfold build_complete_event.
  by destruct (raised || raises sdk).
Qed.

Lemma closing_text (sent : list Sse) (c : Sse) :
  relayed c = false →
  concat_strings (text_of <$> sent ++ [c]) =
  concat_strings (text_of <$> sent).
Proof.
  intros Hc. rewrite fmap_app, concat_strings_app.
  destruct c; try done; simpl; by rewrite string_app_nil_r.
Qed.

(** X22. Every response stream carries a closing payload.  The generator
    first relays payloads of the SDK, then closes: with nothing when one
    of the relayed payloads was a [complete] or [error] event, and else
    with one payload of its own, which is the error payload when the SDK
    stream failed and otherwise the complete payload, holding the session
    id and the concatenated contents of the relayed text payloads. *)
Theorem stream_always_closed (persona : string) (session_id : option string)
    (sdk : SdkStream) (store : Sessions) :
  ∃ sent closing,
    (event_generator persona session_id sdk store).1 = sent ++ closing ∧
    Forall (λ x, relayed x = true) sent ∧
    (∃ x, x ∈ sent ++ closing ∧ terminal x = true) ∧
    ((∃ x, x ∈ sent ∧ terminal x = true) → closing = []) ∧
    ((∀ x, x ∈ sent → terminal x = false) →
     closing = [if stream_fails sdk then SseError
                else SseComplete (concat_strings (text_of <$> sent))
                                 session_id]).
Proof.
  destruct (event_generator_eval persona session_id sdk store)
    as (sent & Hsent & ->).
  cbn [fst]. exists sent. eexists. split; [reflexivity|]. split; [done|].
  destruct (existsb terminal sent) eqn:He.
  - apply existsb_elem_of in He as (x & Hx & Htx).
    split; [exists x; split; [apply elem_of_app; by left|done]|].
    split; [done|]. intros Hnone. rewrite (Hnone x Hx) in Htx. done.
  - split.
    { eexists. split; [apply elem_of_app; right; apply list_elem_of_here|].
      by destruct (stream_fails sdk). }
    split; [|done]. intros Hx. apply existsb_elem_of in Hx. congruence.
Qed.

(** ** What [stream] stores *)

Lemma prepare_ok_inv req rnd st (persona : string) (agent : Agent)
    (messages : list SdkMessage) (st1 : State) :
  prepare req rnd st = (Ok (persona, agent, messages), st1) →
  persona = persona_of_request req ∧
  sessions st1 =
    (_build_messages (req_session_id req) (req_message req) (sessions st)).2.
Proof.
  intros Hprep.
  destruct (decide (persona_of_request req ∈ get_personas)) as [Hin|Hout].
  2:{ by rewrite prepare_unknown in Hprep. }
  apply roster_lookup in Hin as [prompt Hp].
  rewrite (prepare_roster req rnd st prompt Hp) in Hprep.
  destruct (consult req rnd (sabotage_engine st)) as [[objective|x] engine1];
    [|done].
  by injection Hprep as <- _ _ <-.
Qed.

Lemma stream_prepared (stream_async : Agent → list SdkMessage → SdkStream)
    req rnd st (persona : string) (agent : Agent)
    (messages : list SdkMessage) (st1 : State) :
  prepare req rnd st = (Ok (persona, agent, messages), st1) →
  stream stream_async req rnd st =
  (Ok (event_generator persona (req_session_id req)
         (stream_async agent messages) (sessions st1)).1,
   mkState (event_generator persona (req_session_id req)
              (stream_async agent messages) (sessions st1)).2
           (sabotage_engine st1)).
Proof.
  intros Hprep. unfold stream. rewrite Hprep.
  by destruct (event_generator _ _ _ _).
Qed.

(** X23. A stream that the SDK delivers without failure stores the
    exchange as [invoke] does: the history of the session is what
    [append_user] made of it, followed by one assistant turn under the
    request's persona whose text is the concatenation of the text chunks
    sent to the client; other sessions are untouched, and a complete
    payload of the generator carries that same text and the session id. *)
Theorem stream_stores_exchange
    (stream_async : Agent → list SdkMessage → SdkStream)
    req rnd st (persona : string) (agent : Agent)
    (messages : list SdkMessage) (st1 : State) (sid : string) :
  req_session_id req = Some sid → sid ≠ "" →
  prepare req rnd st = (Ok (persona, agent, messages), st1) →
  stream_fails (stream_async agent messages) = false →
  ∃ out st',
    stream stream_async req rnd st = (Ok out, st') ∧
    sabotage_engine st' = sabotage_engine st1 ∧
    get_full_history (sessions st') sid =
      get_full_history (append_user (sessions st) sid (req_message req)) sid
      ++ [mkTurn "assistant" (concat_strings (text_of <$> out))
                 (Some (persona_of_request req))] ∧
    (∀ s', s' ≠ sid →
           get_full_history (sessions st') s' =
           get_full_history (sessions st) s') ∧
    (∀ text s, SseComplete text s ∈ out →
               text = concat_strings (text_of <$> out) ∧ s = Some sid).
Proof.
  intros Hsid Hne Hprep Hok.
  rewrite (stream_prepared stream_async _ _ _ _ _ _ _ Hprep).
  destruct (prepare_ok_inv _ _ _ _ _ _ _ Hprep) as [-> Hstore1].
  destruct (event_generator_eval (persona_of_request req) (req_session_id req)
              (stream_async agent messages) (sessions st1))
    as (sent & Hsent & ->).
  rewrite Hsid in Hstore1. rewrite Hok, Hsid, Hstore1.
  rewrite (proj2 (build_messages_store (Some sid) (req_message req)
                    (sessions st)) sid eq_refl Hne).
  destruct sid as [|a sid]; [done|].
  eexists _, _. split; [reflexivity|]. cbn [fst snd sessions sabotage_engine].
  split; [done|].
  assert (concat_strings
            (text_of <$> sent ++
               (if existsb terminal sent then []
                else [SseComplete (concat_strings (text_of <$> sent))
                                  (Some (String a sid))])) =
          concat_strings (text_of <$> sent)) as Htext.
  { destruct (existsb terminal sent); [by rewrite app_nil_r|].
    by apply closing_text. }
  rewrite Htext. split; [|split].
  - change (append_assistant ?x ?s ?t ?p)
      with (apply_op x (AppendAssistant s t p)).
    rewrite apply_op_history. by rewrite bool_decide_eq_true_2.
  - intros s' Hs'.
    pose proof (history_append_only_frame (sessions st)
                  [AppendUser (String a sid) (req_message req);
                   AppendAssistant (String a sid)
                     (concat_strings (text_of <$> sent))
                     (persona_of_request req)] s') as Hframe.
    simpl in Hframe. apply Hframe.
    intros o Ho.
    apply elem_of_cons in Ho as [->|Ho]; [congruence|].
    apply elem_of_cons in Ho as [->|Ho]; [congruence|].
    by apply not_elem_of_nil in Ho.
  - intros text s [Hin|Hin]%elem_of_app.
    + rewrite Forall_forall in Hsent. by apply Hsent in Hin.
    + destruct (existsb terminal sent); [by apply not_elem_of_nil in Hin|].
      apply elem_of_cons in Hin as [Heq|Hin];
        [|by apply not_elem_of_nil in Hin].
      by injection Heq as -> ->.
Qed.

(** Two plain chunks, streamed to ["gandalf"] in the scenario. *)
Lemma stream_stores_exchange_witness :
  ∃ out st',
    stream (λ _ _, mkSdkStream [EvStr "re"; EvStr "ply"] false)
      (mkInvokeRequest "q" (Some "s1")
         (mkMetadata (Some "gandalf") (Some "c1")
                     (Some Sabotage.scenario_personas)))
      Sabotage.scenario_draws
      (mkState SessionStore.__init__ (Sabotage.__init__ None)) =
    (Ok out, st') ∧
    get_full_history (sessions st') "s1" =
    [mkTurn "user" "q" None;
     mkTurn "assistant" (concat_strings (text_of <$> out)) (Some "gandalf")].
Proof.
  edestruct stream_stores_exchange
    with (stream_async := λ (_ : Agent) (_ : list SdkMessage),
                            mkSdkStream [EvStr "re"; EvStr "ply"] false)
         (req := mkInvokeRequest "q" (Some "s1")
                   (mkMetadata (Some "gandalf") (Some "c1")
                               (Some Sabotage.scenario_personas)))
         (rnd := Sabotage.scenario_draws)
         (st := mkState SessionStore.__init__ (Sabotage.__init__ None))
         (sid := "s1")
    as (out & st' & Hstream & _ & Hhist & _).
  - reflexivity.
  - discriminate.
  - vm_compute. reflexivity.
  - reflexivity.
  - exists out, st'. split; [exact Hstream|exact Hhist].
Defined.

(** X24. A stream that fails, in an iteration or in the SDK, is still
    answered with a response: the failure is told inside it.  The store
    is left as [append_user] made it, so the question stays as the last
    turn of the session, without a reply; no complete payload of the
    generator is sent, and the stream holds an error payload of the
    generator unless a relayed payload closed it before. *)
Theorem failed_stream_keeps_question
    (stream_async : Agent → list SdkMessage → SdkStream)
    req rnd st (persona : string) (agent : Agent)
    (messages : list SdkMessage) (st1 : State) (sid : string) :
  req_session_id req = Some sid → sid ≠ "" →
  prepare req rnd st = (Ok (persona, agent, messages), st1) →
  stream_fails (stream_async agent messages) = true →
  ∃ out st',
    stream stream_async req rnd st = (Ok out, st') ∧
    sessions st' = append_user (sessions st) sid (req_message req) ∧
    (∃ t, last (get_full_history (sessions st') sid) = Some t ∧
          role t = "user" ∧ content t = req_message req) ∧
    (∀ text s, SseComplete text s ∉ out) ∧
    (SseError ∈ out ∨ ∃ x, x ∈ out ∧ relayed x = true ∧ terminal x = true).
Proof.
  intros Hsid Hne Hprep Hfail.
  rewrite (stream_prepared stream_async _ _ _ _ _ _ _ Hprep).
  destruct (prepare_ok_inv _ _ _ _ _ _ _ Hprep) as [-> Hstore1].
  destruct (event_generator_eval (persona_of_request req) (req_session_id req)
              (stream_async agent messages) (sessions st1))
    as (sent & Hsent & ->).
  rewrite Hsid in Hstore1. rewrite Hfail, ?Hsid, Hstore1.
  rewrite (proj2 (build_messages_store (Some sid) (req_message req)
                    (sessions st)) sid eq_refl Hne).
  eexists _, _. split; [reflexivity|]. cbn [fst snd sessions].
  split; [done|]. split; [|split].
  - destruct (append_user_last (sessions st) sid (req_message req))
      as [->|(t & -> & Hr & Hc & _)]; eauto.
  - intros text s [Hin|Hin]%elem_of_app.
    + rewrite Forall_forall in Hsent. by apply Hsent in Hin.
    + destruct (existsb terminal sent); [by apply not_elem_of_nil in Hin|].
      apply elem_of_cons in Hin as [Heq|Hin]; [done|].
      by apply not_elem_of_nil in Hin.
  - destruct (existsb terminal sent) eqn:He.
    + right. apply existsb_elem_of in He as (x & Hx & Htx). exists x.
      split; [apply elem_of_app; by left|]. split; [|done].
      rewrite Forall_forall in Hsent. by apply Hsent.
    + left. apply elem_of_app. right. apply list_elem_of_here.
Qed.

(** A chunk, then a text event whose content is no string. *)
Lemma failed_stream_keeps_question_witness :
  ∃ out st',
    stream (λ _ _, mkSdkStream
                     [EvStr "re";
                      EvDict (<["type" := VStr "text"]>
                                (<["content" := VOther true "7"]> ∅))]
                     false)
      (mkInvokeRequest "q" (Some "s1")
         (mkMetadata (Some "gandalf") (Some "c1")
                     (Some Sabotage.scenario_personas)))
      Sabotage.scenario_draws
      (mkState SessionStore.__init__ (Sabotage.__init__ None)) =
    (Ok out, st') ∧
    sessions st' = append_user SessionStore.__init__ "s1" "q".
Proof.
  edestruct failed_stream_keeps_question
    with (stream_async :=
            λ (_ : Agent) (_ : list SdkMessage),
              mkSdkStream
                     [EvStr "re";
                      EvDict (<["type" := VStr "text"]>
                                (<["content" := VOther true "7"]> ∅))]
                     false)
         (req := mkInvokeRequest "q" (Some "s1")
                   (mkMetadata (Some "gandalf") (Some "c1")
                               (Some Sabotage.scenario_personas)))
         (rnd := Sabotage.scenario_draws)
         (st := mkState SessionStore.__init__ (Sabotage.__init__ None))
         (sid := "s1")
    as (out & st' & Hstream & Hstore & _).
  - reflexivity.
  - discriminate.
  - vm_compute. reflexivity.
  - vm_compute. reflexivity.
  - exists out, st'. split; [exact Hstream|exact Hstore].
Defined.

(** ** The event contract *)

Lemma map_sdk_event_some (ev : SdkEvent) (canonical : gmap string Value) :
  map_sdk_event ev = Some canonical →
  (ev = EvDict canonical ∨ ev = EvObject canonical) ∧
  ∃ t, t ∈ contract_types ∧ canonical !! "type" = Some (VStr t).
Proof.
  assert (∀ raw : gmap string Value,
            match default (VStr "") (raw !! "type") with
            | VStr event_type =>
                if bool_decide (event_type ∈ contract_types)
                then Some raw else None
            | VOther _ _ => None
            end = Some canonical →
            raw = canonical ∧
            ∃ t, t ∈ contract_types ∧ canonical !! "type" = Some (VStr t))
    as Hraw.
  { intros raw Hmap. destruct (raw !! "type") as [[t|ok printed]|] eqn:Ht;
      simpl in Hmap; [|done|].
    - case_bool_decide as Hin; [|done]. injection Hmap as <-. eauto.
    - exfalso. by vm_compute in Hmap. }
  destruct ev as [raw|raw|chunk|]; simpl; intros Hmap; try done;
    destruct (Hraw raw Hmap) as [-> ?]; eauto.
Qed.

Lemma step_contract (g : Gen) (ev : SdkEvent) :
  Forall in_contract (yielded g) → Forall in_contract (yielded (step g ev).1).
Proof.
  intros Hg. unfold step.
  destruct (map_sdk_event ev) as [canonical|] eqn:Hmap.
  - apply map_sdk_event_some in Hmap as [_ Htype].
    destruct (serialisable canonical) eqn:Hser; cbn [negb]; [|done].
    assert (Forall in_contract (yielded g ++ [SseForward canonical])) as Hfwd.
    { apply Forall_app. split; [done|]. by repeat constructor. }
    destruct (type_is canonical "text").
    + by destruct (default (VStr "") (canonical !! "content")).
    + by destruct (type_is canonical "complete" || type_is canonical "error").
  - destruct ev as [raw|raw|chunk|]; try done.
    + destruct (raw !! "data") as [v|]; [|done]. cbn [fst yielded].
      apply Forall_app. split; [done|]. by repeat constructor.
    + cbn [fst yielded]. apply Forall_app. split; [done|].
      by repeat constructor.
Qed.

Lemma consume_contract (g : Gen) (evs : list SdkEvent) :
  Forall in_contract (yielded g) →
  Forall in_contract (yielded (consume g evs).1).
Proof.
  revert g. induction evs as [|ev evs IH]; intros g Hg; cbn [consume];
    [done|].
  pose proof (step_contract g ev Hg) as Hstep.
  destruct (step g ev) as [g1 raised]. cbn [fst] in Hstep.
  destruct raised; [done|]. by apply IH.
Qed.

(** X25. Whatever the SDK emits, an event is relayed to the client as it
    came only when its type is one of the six of the event contract
    (text, tool_use, tool_result, thinking, complete, error) and
    [json.dumps] accepts it; everything else the client receives is a
    text chunk or the closing payload of the generator. *)
Theorem stream_within_contract (persona : string)
    (session_id : option string) (sdk : SdkStream) (store : Sessions) :
  Forall in_contract (event_generator persona session_id sdk store).1.
Proof.
  unfold event_generator.
  pose proof (consume_contract (mkGen "" false []) (events sdk)) as Hc.
  destruct (consume (mkGen "" false []) (events sdk)) as [g raised].
  cbn [fst] in Hc. specialize (Hc (Forall_nil_2 _)).
  destruct (raised || raises sdk); cbn [fst]; apply Forall_app;
    (split; [done|]); destruct (got_terminal g); by repeat constructor.
Qed.

End ServerFacts.
